(** * bdsx/source-map-support.ts: stack-trace remapping through source maps

    A shallow embedding of [src/bdsx/source-map-support.ts] and the
    properties of it that the specification states.

    Conventions of the embedding.
    - A JavaScript string is a [list ascii]: a sequence of 8-bit code units
      (the Latin-1 part of JavaScript's UTF-16 code units).
    - A JavaScript number that the program obtains from a run of decimal
      digits is a [Z]; this is exact below 2^53, where the IEEE doubles are
      exact too.
    - A plain object used as a dictionary ([fileContentsCache],
      [sourceMapCache]) is a [gmap] of everything a lookup in the object
      finds: the properties the program stored and the members the object
      inherits from [Object.prototype]. The store of a module that has
      cached nothing, [empty_store], holds the inherited members.
    - A value that may not be a string is a [Js.value]: a string, or an
      object or function, of which the model keeps the text that [String]
      makes of it.
    - The host modules ([fs], [path], [Buffer], the [source-map] decoder)
      are the fields of the class [Host], and so is the length of the
      longest string the engine makes. [getErrorSource], where a column
      number alone decides how long the text gets, throws when the text
      would be longer; the other strings the program builds are taken to
      fit.
    - The module's mutable state is the record [Store]; a function that reads
      or writes it is a computation in the monad [M], whose outcome is a value
      with the next store ([Ok]) or a JavaScript exception ([Throw]). *)

From Stdlib Require Import ZArith List Ascii String Bool Lia DecimalN DecimalPos.
From stdpp Require Import base option list gmap strings.

Set Default Proof Using "Type".

Abbreviation str := (list ascii).

(** A string literal of the source. *)
Definition lit (s : string) : str := list_ascii_of_string s.

(* ================================================================== *)
(** * JavaScript strings and numbers *)
(* ================================================================== *)

Module Js.

Definition code (c : ascii) : nat := nat_of_ascii c.

(** LineTerminator: LF and CR (U+2028 and U+2029 are not 8-bit). *)
Definition is_line_terminator (c : ascii) : bool :=
  (code c =? 10) || (code c =? 13).

(** WhiteSpace and LineTerminator, the class [\s] and what [trim] strips. *)
Definition is_space (c : ascii) : bool :=
  (code c =? 9) || (code c =? 10) || (code c =? 11) || (code c =? 12)
  || (code c =? 13) || (code c =? 32) || (code c =? 160).

(** [\d] *)
Definition is_digit (c : ascii) : bool :=
  (48 <=? code c) && (code c <=? 57).

(** [\w] *)
Definition is_word (c : ascii) : bool :=
  is_digit c
  || ((65 <=? code c) && (code c <=? 90))
  || ((97 <=? code c) && (code c <=? 122))
  || (code c =? 95).

(** [.] without the [s] flag *)
Definition is_dot (c : ascii) : bool := negb (is_line_terminator c).

Definition is_char (a c : ascii) : bool := Ascii.eqb a c.

Definition str_eqb (a b : str) : bool := bool_decide (a = b).

(** [!s] is false for a string: every string but the empty one is truthy. *)
Definition truthy (s : str) : bool :=
  match s with [] => false | _ :: _ => true end.

(** A value that is a string, or an object or a function. Of an object or
    function the program uses that it is truthy, that it has none of the
    properties [split], [url] and [map], and the text [String] makes of it. *)
Inductive value : Type :=
| Text (s : str)
| Object (text : str).

Definition truthy_value (v : value) : bool :=
  match v with
  | Text s => truthy s
  | Object _ => true
  end.

(** [String(v)], the conversion that [RegExp.prototype.exec] applies to its
    argument. *)
Definition toString (v : value) : str :=
  match v with
  | Text s => s
  | Object text => text
  end.

(** The text of a built-in function. *)
Definition native_function (name : string) : str :=
  list_ascii_of_string "function " ++ list_ascii_of_string name
    ++ list_ascii_of_string "() { [native code] }".

(** The members that an object literal inherits from [Object.prototype]:
    [constructor] is the function [Object], the accessor [__proto__] yields
    [Object.prototype] itself, and the others are functions of their own
    names. None of them has a property [split], [url] or [map]. *)
Definition object_prototype : list (str * value) :=
  [ (list_ascii_of_string "constructor", Object (native_function "Object"));
    (list_ascii_of_string "__defineGetter__", Object (native_function "__defineGetter__"));
    (list_ascii_of_string "__defineSetter__", Object (native_function "__defineSetter__"));
    (list_ascii_of_string "hasOwnProperty", Object (native_function "hasOwnProperty"));
    (list_ascii_of_string "__lookupGetter__", Object (native_function "__lookupGetter__"));
    (list_ascii_of_string "__lookupSetter__", Object (native_function "__lookupSetter__"));
    (list_ascii_of_string "isPrototypeOf", Object (native_function "isPrototypeOf"));
    (list_ascii_of_string "propertyIsEnumerable",
     Object (native_function "propertyIsEnumerable"));
    (list_ascii_of_string "toString", Object (native_function "toString"));
    (list_ascii_of_string "valueOf", Object (native_function "valueOf"));
    (list_ascii_of_string "__proto__", Object (list_ascii_of_string "[object Object]"));
    (list_ascii_of_string "toLocaleString", Object (native_function "toLocaleString")) ].

Fixpoint drop_while {A} (p : A -> bool) (s : list A) : list A :=
  match s with
  | [] => []
  | c :: s' => if p c then drop_while p s' else s
  end.

(** [String.prototype.trim] *)
Definition trim (s : str) : str :=
  rev (drop_while is_space (rev (drop_while is_space s))).

(** [String.prototype.startsWith] *)
Fixpoint startsWith (s pre : str) {struct pre} : bool :=
  match pre, s with
  | [], _ => true
  | a :: pre', c :: s' => Ascii.eqb a c && startsWith s' pre'
  | _ :: _, [] => false
  end.

(** [String.prototype.indexOf] on a one-character needle; [-1] when absent. *)
Fixpoint indexOf_from (c : ascii) (s : str) (i : Z) : Z :=
  match s with
  | [] => (-1)%Z
  | x :: s' => if Ascii.eqb x c then i else indexOf_from c s' (i + 1)%Z
  end.
Definition indexOf (s : str) (c : ascii) : Z := indexOf_from c s 0.

(** [String.prototype.slice] with a start that is not negative. *)
Definition slice (s : str) (start : Z) : str := drop (Z.to_nat start) s.

(** [s.split('\n')]: the pieces between the separators; never empty. *)
Fixpoint split (sep : ascii) (s : str) : list str :=
  match s with
  | [] => [[]]
  | c :: s' =>
      if Ascii.eqb c sep then [] :: split sep s'
      else match split sep s' with
           | [] => [[c]]
           | piece :: pieces => (c :: piece) :: pieces
           end
  end.

(** [a.join('\n')] *)
Fixpoint join (sep : ascii) (pieces : list str) : str :=
  match pieces with
  | [] => []
  | [piece] => piece
  | piece :: rest => piece ++ sep :: join sep rest
  end.

(** [s.split(/(?:\r\n|\r|\n)/)]: a CR LF pair, a CR or a LF ends a piece. *)
Fixpoint split_lines (s : str) : list str :=
  match s with
  | [] => [[]]
  | c :: s' =>
      if code c =? 13 then
        match s' with
        | d :: s'' => [] :: (if code d =? 10 then split_lines s'' else split_lines s')
        | [] => [] :: split_lines s'
        end
      else if code c =? 10 then [] :: split_lines s'
      else match split_lines s' with
           | [] => [[c]]
           | piece :: pieces => (c :: piece) :: pieces
           end
  end.

(** [s.replace(/\\/g, '/')] *)
Definition backslashes_to_slashes (s : str) : str :=
  map (fun c => if code c =? 92 then "/"%char else c) s.

(** ** Numbers *)

Fixpoint uint_chars (d : Decimal.uint) : str :=
  match d with
  | Decimal.Nil => []
  | Decimal.D0 d => "0"%char :: uint_chars d
  | Decimal.D1 d => "1"%char :: uint_chars d
  | Decimal.D2 d => "2"%char :: uint_chars d
  | Decimal.D3 d => "3"%char :: uint_chars d
  | Decimal.D4 d => "4"%char :: uint_chars d
  | Decimal.D5 d => "5"%char :: uint_chars d
  | Decimal.D6 d => "6"%char :: uint_chars d
  | Decimal.D7 d => "7"%char :: uint_chars d
  | Decimal.D8 d => "8"%char :: uint_chars d
  | Decimal.D9 d => "9"%char :: uint_chars d
  end.

Fixpoint chars_uint (s : str) : Decimal.uint :=
  match s with
  | [] => Decimal.Nil
  | c :: s' =>
      match code c - 48 with
      | 0 => Decimal.D0 (chars_uint s')
      | 1 => Decimal.D1 (chars_uint s')
      | 2 => Decimal.D2 (chars_uint s')
      | 3 => Decimal.D3 (chars_uint s')
      | 4 => Decimal.D4 (chars_uint s')
      | 5 => Decimal.D5 (chars_uint s')
      | 6 => Decimal.D6 (chars_uint s')
      | 7 => Decimal.D7 (chars_uint s')
      | 8 => Decimal.D8 (chars_uint s')
      | _ => Decimal.D9 (chars_uint s')
      end
  end.

(** Unary [+] on a string that a [(\d+)] group captured. *)
Definition toNumber (digits : str) : Z := Z.of_N (N.of_uint (chars_uint digits)).

(** A number in a template literal: [`${n}`], for an integer [n]. *)
Definition numberToString (n : Z) : str :=
  match n with
  | Z0 => lit "0"
  | Zpos p => uint_chars (Pos.to_uint p)
  | Zneg p => "-"%char :: uint_chars (Pos.to_uint p)
  end.

End Js.

(* ================================================================== *)
(** * Regular expressions

    The constructs the program's patterns use, and a backtracking matcher
    with JavaScript's priorities: alternatives left to right, quantifiers
    greedy.  A quantifier of the source always stands on a one-character
    atom, except the optional group of [/file:\/\/\/(\w:)?/]. *)
(* ================================================================== *)

Module Regex.

Inductive regex : Type :=
| Eps                          (* the empty pattern *)
| Chr (a : ascii)              (* a literal character *)
| Cls (p : ascii -> bool)      (* a character class, [.] included *)
| Seq (r1 r2 : regex)
| Alt (r1 r2 : regex)          (* r1|r2 *)
| Star (p : ascii -> bool)     (* c* on a one-character atom *)
| Plus (p : ascii -> bool)     (* c+ on a one-character atom *)
| Opt (r : regex)              (* r? *)
| Grp (n : nat) (r : regex)    (* the n-th capture group *)
| Bol                          (* ^ without the m flag *)
| Eol (multiline : bool).      (* $ without or with the m flag *)

(** A literal string. *)
Fixpoint Lit (s : str) : regex :=
  match s with
  | [] => Eps
  | a :: s' => Seq (Chr a) (Lit s')
  end.
Definition Str (s : string) : regex := Lit (lit s).

(** [r{n}] *)
Fixpoint Times (n : nat) (r : regex) : regex :=
  match n with
  | 0 => Eps
  | S n' => Seq r (Times n' r)
  end.

Fixpoint seq (rs : list regex) : regex :=
  match rs with
  | [] => Eps
  | [r] => r
  | r :: rs' => Seq r (seq rs')
  end.

(** The number of capture groups. *)
Fixpoint ngroups (r : regex) : nat :=
  match r with
  | Seq r1 r2 | Alt r1 r2 => Nat.max (ngroups r1) (ngroups r2)
  | Opt r => ngroups r
  | Grp n r => Nat.max n (ngroups r)
  | _ => 0
  end.

(** [groups !! n] is the n-th capture; [None] is JavaScript's [undefined]
    of a group that took no part in the match. Entry 0 is the whole match. *)
Abbreviation caps := (list (option str)).

Record MatchResult : Type := mkMatch {
  index : nat;        (* where the match starts *)
  lastIndex : nat;    (* where it ends *)
  groups : caps
}.

(** [m[n]] as a string-or-undefined. *)
Definition group (m : MatchResult) (n : nat) : option str :=
  default None (groups m !! n).

Section Matcher.
Context {R : Type}.

(** What remains to be matched: position, rest of the input, captures. *)
Definition cont : Type := nat -> str -> caps -> option R.

Fixpoint star (p : ascii -> bool) (i : nat) (s : str) (c : caps) (k : cont)
  : option R :=
  match s with
  | x :: s' =>
      if p x then
        match star p (S i) s' c k with
        | Some r => Some r
        | None => k i s c
        end
      else k i s c
  | [] => k i s c
  end.

Fixpoint matcher (r : regex) (i : nat) (s : str) (c : caps) (k : cont)
  : option R :=
  match r with
  | Eps => k i s c
  | Chr a =>
      match s with
      | x :: s' => if Ascii.eqb a x then k (S i) s' c else None
      | [] => None
      end
  | Cls p =>
      match s with
      | x :: s' => if p x then k (S i) s' c else None
      | [] => None
      end
  | Seq r1 r2 => matcher r1 i s c (fun i' s' c' => matcher r2 i' s' c' k)
  | Alt r1 r2 =>
      match matcher r1 i s c k with
      | Some res => Some res
      | None => matcher r2 i s c k
      end
  | Star p => star p i s c k
  | Plus p =>
      match s with
      | x :: s' => if p x then star p (S i) s' c k else None
      | [] => None
      end
  | Opt r =>
      match matcher r i s c k with
      | Some res => Some res
      | None => k i s c
      end
  | Grp n r =>
      matcher r i s c (fun i' s' c' => k i' s' (<[n := Some (take (i' - i) s)]> c'))
  | Bol => if i =? 0 then k i s c else None
  | Eol multiline =>
      match s with
      | [] => k i s c
      | x :: _ => if multiline && Js.is_line_terminator x then k i s c else None
      end
  end.
End Matcher.

(** A match of [r] that starts exactly at position [i], where [s] is the
    input from [i] on. *)
Definition match_at (r : regex) (i : nat) (s : str) : option MatchResult :=
  matcher r i s (replicate (S (ngroups r)) None)
    (fun j _ c => Some (mkMatch i j (<[0 := Some (take (j - i) s)]> c))).

(** The leftmost match at or after position [i]. *)
Fixpoint search (r : regex) (i : nat) (s : str) : option MatchResult :=
  match match_at r i s with
  | Some res => Some res
  | None =>
      match s with
      | [] => None
      | _ :: s' => search r (S i) s'
      end
  end.

(** [re.exec(s)] for a pattern without the g flag, and [re.test(s)]. *)
Definition exec (r : regex) (s : str) : option MatchResult := search r 0 s.
Definition test (r : regex) (s : str) : bool := bool_decide (is_Some (exec r s)).

(** [re.exec(s)] for a pattern with the g flag whose [lastIndex] is [from]. *)
Definition exec_from (r : regex) (from : nat) (s : str) : option MatchResult :=
  if from <=? length s then search r from (drop from s) else None.

(** What a successful run of [r] does: from position [i] on the input [s]
    with the captures [c] it consumes a prefix of [s], ends at position [i']
    with [s'] left, and leaves the captures [c']. *)
Fixpoint Matches (r : regex) (i : nat) (s : str) (c : caps)
    (i' : nat) (s' : str) (c' : caps) : Prop :=
  match r with
  | Eps => i' = i /\ s' = s /\ c' = c
  | Chr a => s = a :: s' /\ i' = S i /\ c' = c
  | Cls p => exists x, p x = true /\ s = x :: s' /\ i' = S i /\ c' = c
  | Seq r1 r2 =>
      exists i1 s1 c1, Matches r1 i s c i1 s1 c1 /\ Matches r2 i1 s1 c1 i' s' c'
  | Alt r1 r2 => Matches r1 i s c i' s' c' \/ Matches r2 i s c i' s' c'
  | Star p =>
      exists u, forallb p u = true /\ s = u ++ s' /\ i' = i + length u /\ c' = c
  | Plus p =>
      exists u, u <> [] /\ forallb p u = true /\ s = u ++ s'
                /\ i' = i + length u /\ c' = c
  | Opt r => Matches r i s c i' s' c' \/ (i' = i /\ s' = s /\ c' = c)
  | Grp n r =>
      exists c1, Matches r i s c i' s' c1
                 /\ c' = <[n := Some (take (i' - i) s)]> c1
  | Bol => i = 0 /\ i' = i /\ s' = s /\ c' = c
  | Eol multiline =>
      i' = i /\ s' = s /\ c' = c
      /\ (s = [] \/ (multiline = true
                     /\ exists x t, s = x :: t /\ Js.is_line_terminator x = true))
  end.

End Regex.

(* ================================================================== *)
(** * The patterns of the program *)
(* ================================================================== *)

Module Pat.
Import Regex.

Definition double_quote : ascii := ascii_of_nat 34.

Definition not_char (a : ascii) (c : ascii) : bool := negb (Js.is_char a c).

(** [[@#]] *)
Definition at_or_hash (c : ascii) : bool :=
  Js.is_char "@" c || Js.is_char "#" c.

(** The class of the line-comment URL: not [\s], not a quote. *)
Definition url_char (c : ascii) : bool :=
  negb (Js.is_space c || Js.is_char "'" c || Js.is_char double_quote c).

(** The class of the block-comment URL: not [\s], not [*], not a quote. *)
Definition url_char_block (c : ascii) : bool :=
  negb (Js.is_space c || Js.is_char "*" c || Js.is_char "'" c
        || Js.is_char double_quote c).

(** [reSourceMap = /^data:application\/json[^,]+base64,/] (line 39) *)
Definition reSourceMap : regex :=
  seq [Bol; Str "data:application/json"; Plus (not_char ","); Str "base64,"].

(** [/^file:/] (line 66) *)
Definition re_file : regex := seq [Bol; Str "file:"].

(** [/file:\/\/\/(\w:)?/] (line 68) *)
Definition re_file_scheme : regex :=
  seq [Str "file:///"; Opt (Grp 1 (seq [Cls Js.is_word; Chr ":"]))].

(** [/^\w+:\/\/[^/]*/] (line 96) *)
Definition re_protocol : regex :=
  seq [Bol; Plus Js.is_word; Str "://"; Star (not_char "/")].

(** [/^\/\w:/] (line 99) *)
Definition re_drive : regex := seq [Bol; Chr "/"; Cls Js.is_word; Chr ":"].

(** The pattern of line 110, flags [mg]: a line comment with group 1, or a
    block comment with group 2, each up to the end of a line. The first
    alternative is [\/\/[@#][\s]*sourceMappingURL=(G1)[\s]*$] and the second
    [\/\*[@#][\s]*sourceMappingURL=(G2)[\s]*(?:\*\/)[\s]*$], where [G1] is
    one or more characters that are neither [\s] nor a single or double
    quote, and [G2] one or more that are also not an asterisk. *)
Definition re_sourceMappingURL : regex :=
  Alt
    (seq [Str "//"; Cls at_or_hash; Star Js.is_space; Str "sourceMappingURL=";
          Grp 1 (Plus url_char); Star Js.is_space; Eol true])
    (seq [Str "/*"; Cls at_or_hash; Star Js.is_space; Str "sourceMappingURL=";
          Grp 2 (Plus url_char_block); Star Js.is_space; Str "*/";
          Star Js.is_space; Eol true]).

(** [/^eval at ([^(]+) \((.+):(\d+):(\d+)\)$/] (line 214) *)
Definition re_eval : regex :=
  seq [Bol; Str "eval at "; Grp 1 (Plus (not_char "(")); Str " (";
       Grp 2 (Plus Js.is_dot); Chr ":"; Grp 3 (Plus Js.is_digit); Chr ":";
       Grp 4 (Plus Js.is_digit); Chr ")"; Eol false].

(** [/^eval at ([^(]+) \((.+)\)$/] (line 225) *)
Definition re_eval_nested : regex :=
  seq [Bol; Str "eval at "; Grp 1 (Plus (not_char "(")); Str " (";
       Grp 2 (Plus Js.is_dot); Chr ")"; Eol false].

(** [/^ {3}at (.+) \(([^(]+)\)$/] (line 274) *)
Definition re_frame : regex :=
  seq [Bol; Times 3 (Chr " "); Str "at "; Grp 1 (Plus Js.is_dot); Str " (";
       Grp 2 (Plus (not_char "(")); Chr ")"; Eol false].

(** [/^(.+):(\d+):(\d+)$/] (line 284) *)
Definition re_source : regex :=
  seq [Bol; Grp 1 (Plus Js.is_dot); Chr ":"; Grp 2 (Plus Js.is_digit); Chr ":";
       Grp 3 (Plus Js.is_digit); Eol false].

(** Line 321: a line feed, three spaces, [at ], [[^(]+], a space and an
    opening parenthesis, group 1 on [.*], a colon, group 2 on [\d+], a
    colon, group 3 on [\d+], a closing parenthesis. No anchor. *)
Definition re_first_frame : regex :=
  seq [Chr (ascii_of_nat 10); Times 3 (Chr " "); Str "at "; Plus (not_char "(");
       Str " ("; Grp 1 (Star Js.is_dot); Chr ":"; Grp 2 (Plus Js.is_digit);
       Chr ":"; Grp 3 (Plus Js.is_digit); Chr ")"].

End Pat.

(* ================================================================== *)
(** * The host, the store and the monad *)
(* ================================================================== *)

(** [interface Position] (lines 153-157) *)
Record Position : Type := mkPosition {
  source : str;
  line : Z;
  column : Z
}.

(** What a call of the host can do: return a value or throw. *)
Inductive outcome (A : Type) : Type :=
| Returns (a : A)
| Throws.
Arguments Returns {A} a.
Arguments Throws {A}.

(** What [originalPositionFor] returns: [source] is [null] when the map has
    no mapping for the position. *)
Record MappedPosition : Type := mkMapped {
  mapped_source : option str;
  mapped_line : Z;
  mapped_column : Z
}.

(** The part of a [SourceMapConsumer] of the [source-map] package that the
    program uses. *)
Record SourceMapConsumer : Type := mkConsumer {
  sources : list str;
  sourceContentFor : str -> outcome (option str);
  originalPositionFor : Position -> outcome MappedPosition
}.

(** The host: the modules [fs], [path] and [Buffer], the [source-map]
    decoder, which takes a string or an object, and the length of the
    longest string the engine makes. *)
Class Host : Type := mkHost {
  fs_existsSync : str -> bool;
  fs_readFileSync : str -> outcome str;
  path_dirname : str -> str;
  path_resolve : str -> str -> str;
  Buffer_from_base64_toString : str -> str;
  SourceMapConsumer_new : Js.value -> outcome SourceMapConsumer;
  max_string_length : Z
}.

(** [interface UrlAndMap] (lines 12-15). The interface declares [map] a
    string; the handler of line 126 puts there what [retrieveFile] returns. *)
Record UrlAndMap : Type := mkUrlAndMap {
  um_url : option str;
  um_map : Js.value
}.

(** [interface SourceMapConsumerMap] (lines 24-27) *)
Record SourceMapConsumerMap : Type := mkEntry {
  cm_url : option str;
  cm_map : option SourceMapConsumer
}.

(** [interface StackState] (lines 7-10) *)
Record StackState : Type := mkStackState {
  nextPosition : option Position;
  curPosition : option Position
}.

(** [interface FrameInfo] (lines 239-242) *)
Record FrameInfo : Type := mkFrameInfo {
  stackLine : str;
  internal : bool
}.

(** Instrumentation: the calls of the source-map retrieval handler and of
    the file system. *)
Inductive Event : Type :=
| RetrieveSourceMap (src : str)
| ExistsSync (path : str)
| ReadFileSync (path : str).

(** The module's state: the two caches (lines 33 and 36), and the calls made
    so far, the newest first. Each cache is an object literal; its map
    holds what a lookup in the object finds under a name, which is a
    property the program stored or else a member inherited from
    [Object.prototype]. Of a value of [sourceMapCache] the program reads
    [url] and [map], so an inherited member, which has neither, stands there
    as the entry whose [url] and [map] are undefined. *)
Record Store : Type := mkStore {
  fileContentsCache : gmap str Js.value;
  sourceMapCache : gmap str SourceMapConsumerMap;
  trace : list Event
}.

(** The state of the module when it is loaded: the caches hold nothing of
    their own, only what they inherit. *)
Definition empty_store : Store :=
  mkStore (list_to_map Js.object_prototype)
          (list_to_map (map (fun member => (member.1, mkEntry None None))
                            Js.object_prototype))
          [].

Inductive Res (A : Type) : Type :=
| Ok (a : A) (st : Store)
| Throw (st : Store).
Arguments Ok {A} a st.
Arguments Throw {A} st.

Definition M (A : Type) : Type := Store -> Res A.

Definition ret {A} (a : A) : M A := fun st => Ok a st.

Definition bind {A B} (m : M A) (f : A -> M B) : M B :=
  fun st =>
    match m st with
    | Ok a st' => f a st'
    | Throw st' => Throw st'
    end.

Notation "'let!' x ':=' m 'in' k" := (bind m (fun x => k))
  (at level 10, x name, m at level 100, k at level 200,
   format "'[v' 'let!'  x  :=  m  'in' '/' k ']'").
Notation "'let!' ' p ':=' m 'in' k" := (bind m (fun p => k))
  (at level 10, p pattern, m at level 100, k at level 200,
   format "'[v' 'let!'  ' p  :=  m  'in' '/' k ']'").

(** A call of the host whose exception nothing catches. *)
Definition call {A} (o : outcome A) : M A :=
  fun st => match o with Returns a => Ok a st | Throws => Throw st end.

Definition log (e : Event) : M unit :=
  fun st => Ok tt (mkStore (fileContentsCache st) (sourceMapCache st) (e :: trace st)).

(** [fileContentsCache[path] = contents] for a string [contents]: the
    object gets a property of its own, which hides an inherited member of
    that name; only where the object inherits the accessor [__proto__] its
    setter takes the assignment and, the value being a string, does
    nothing. *)
Definition set_fileContents (path contents : str) : M unit :=
  fun st =>
    match fileContentsCache st !! path with
    | Some (Js.Object _) =>
        if Js.str_eqb path (lit "__proto__") then Ok tt st
        else Ok tt (mkStore (<[path := Js.Text contents]> (fileContentsCache st))
                            (sourceMapCache st) (trace st))
    | _ => Ok tt (mkStore (<[path := Js.Text contents]> (fileContentsCache st))
                          (sourceMapCache st) (trace st))
    end.

Definition set_sourceMap (src : str) (e : SourceMapConsumerMap) : M unit :=
  fun st => Ok tt (mkStore (fileContentsCache st)
                           (<[src := e]> (sourceMapCache st)) (trace st)).

Definition value_of {A} (r : Res A) : option A :=
  match r with Ok a _ => Some a | Throw _ => None end.

Definition store_of {A} (r : Res A) : Store :=
  match r with Ok _ st => st | Throw st => st end.

(* ================================================================== *)
(** * The program *)
(* ================================================================== *)

Section Program.
Context `{host : Host}.

(** The capture [m[n]] of a group that took part in the match. *)
Definition capture (m : Regex.MatchResult) (n : nat) : str :=
  default [] (Regex.group m n).

(** [handlerExec] (lines 49-59): the first truthy result, else [null]. *)
Fixpoint handlerExec {T R : Type} (truthy : R -> bool) (list : list (T -> M R))
    (arg : T) : M (option R) :=
  match list with
  | [] => ret None
  | handler :: rest =>
      let! r := handler arg in
      if truthy r then ret (Some r) else handlerExec truthy rest arg
  end.

(** [s.replace(re, f)] for a pattern without the g flag. *)
Definition replace_first (re : Regex.regex) (s : str)
    (f : Regex.MatchResult -> str) : str :=
  match Regex.exec re s with
  | None => s
  | Some m => take (Regex.index m) s ++ f m ++ drop (Regex.lastIndex m) s
  end.

(** The path under which the file handler caches (lines 65-73). *)
Definition normalize_path (path : str) : str :=
  let path := Js.trim path in
  if Regex.test Pat.re_file path then
    replace_first Pat.re_file_scheme path
      (fun m => match Regex.group m 1 with
                | Some (_ :: _) => []
                | _ => lit "/"
                end)
  else path.

(** The handler pushed on [retrieveFileHandlers] (lines 63-89). The calls
    of [fs] are recorded in the trace. A [readFileSync] that throws is
    caught (line 84) and leaves the empty string. [path in
    fileContentsCache] holds of every name a lookup finds, so for the name
    of an inherited member the handler returns that member. *)
Definition retrieveFileHandler (path : str) : M Js.value :=
  let path := normalize_path path in
  fun st =>
    match fileContentsCache st !! path with
    | Some contents => Ok contents st
    | None =>
        (let! _ := log (ExistsSync path) in
         let! contents :=
           if fs_existsSync path then
             let! _ := log (ReadFileSync path) in
             match fs_readFileSync path with
             | Returns data => ret data
             | Throws => ret []
             end
           else ret [] in
         let! _ := set_fileContents path contents in
         ret (Js.Text contents)) st
    end.

Definition retrieveFileHandlers : list (str -> M Js.value) := [retrieveFileHandler].

(** [retrieveFile] (line 61) *)
Definition retrieveFile : str -> M (option Js.value) :=
  handlerExec Js.truthy_value retrieveFileHandlers.

(** [supportRelativeURL] (lines 93-105); [file] may be [null]. *)
Definition supportRelativeURL (file : option str) (url : str) : str :=
  match file with
  | None | Some [] => url
  | Some file =>
      let dir := path_dirname file in
      let protocol :=
        match Regex.exec Pat.re_protocol dir with
        | Some m => capture m 0
        | None => []
        end in
      let startPath := drop (length protocol) dir in
      if Js.truthy protocol && Regex.test Pat.re_drive startPath then
        let protocol := protocol ++ lit "/" in
        protocol
          ++ Js.backslashes_to_slashes (path_resolve (drop (length protocol) dir) url)
      else protocol ++ path_resolve (drop (length protocol) dir) url
  end.

(** The loop of line 115: [exec] until it fails, keeping the last match.
    Every match of the pattern is at least twenty characters long, so
    [length fileData + 1] rounds are enough. *)
Fixpoint lastMatch_loop (fuel : nat) (fileData : str) (lastIndex : nat)
    (lastMatch : option Regex.MatchResult) : option Regex.MatchResult :=
  match fuel with
  | 0 => lastMatch
  | S fuel' =>
      match Regex.exec_from Pat.re_sourceMappingURL lastIndex fileData with
      | None => lastMatch
      | Some m => lastMatch_loop fuel' fileData (Regex.lastIndex m) (Some m)
      end
  end.

(** [retrieveSourceMapURL] (lines 107-118). [exec] turns a [null]
    [fileData] into the string [null]; the result is [lastMatch[1]], which
    is [undefined] ([None]) when group 1 took no part in the last match. *)
Definition retrieveSourceMapURL (src : str) : M (option str) :=
  let! fileData := retrieveFile src in
  let fileData :=
    match fileData with
    | Some fileData => Js.toString fileData
    | None => lit "null"
    end in
  match lastMatch_loop (S (length fileData)) fileData 0 None with
  | None => ret None
  | Some lastMatch => ret (Regex.group lastMatch 1)
  end.

(** The handler pushed on [retrieveMapHandlers] (lines 126-151). Its first
    step records the call in the trace. *)
Definition retrieveMapHandler (src : str) : M (option UrlAndMap) :=
  let! _ := log (RetrieveSourceMap src) in
  let! sourceMappingURL := retrieveSourceMapURL src in
  match sourceMappingURL with
  | None | Some [] => ret None
  | Some sourceMappingURL =>
      let! '(sourceMappingURL, sourceMapData) :=
        if Regex.test Pat.reSourceMap sourceMappingURL then
          let rawData :=
            Js.slice sourceMappingURL (Js.indexOf sourceMappingURL "," + 1) in
          ret (src, Some (Js.Text (Buffer_from_base64_toString rawData)))
        else
          let sourceMappingURL := supportRelativeURL (Some src) sourceMappingURL in
          let! data := retrieveFile sourceMappingURL in
          ret (sourceMappingURL, data) in
      match sourceMapData with
      | None | Some (Js.Text []) => ret None
      | Some sourceMapData => ret (Some (mkUrlAndMap (Some sourceMappingURL) sourceMapData))
      end
  end.

Definition retrieveMapHandlers : list (str -> M (option UrlAndMap)) :=
  [retrieveMapHandler].

(** [retrieveSourceMap] (line 125) *)
Definition retrieveSourceMap (src : str) : M (option UrlAndMap) :=
  let! r := handlerExec (fun r : option UrlAndMap => bool_decide (is_Some r))
              retrieveMapHandlers src in
  ret (mjoin r).

(** The [forEach] of lines 174-180: the sources a map carries inline go to
    the file cache. *)
Fixpoint cache_inline_sources (sourceMap : SourceMapConsumerMap)
    (consumer : SourceMapConsumer) (srcs : list str) : M unit :=
  match srcs with
  | [] => ret tt
  | src :: rest =>
      let! contents := call (sourceContentFor consumer src) in
      let! _ :=
        match contents with
        | Some (c :: cs) =>
            set_fileContents (supportRelativeURL (cm_url sourceMap) src) (c :: cs)
        | _ => ret tt
        end in
      cache_inline_sources sourceMap consumer rest
  end.

(** Lines 160-188 of [mapSourcePosition]: the cache entry of a source,
    retrieved and stored when the cache has none. *)
Definition sourceMap_for (src : str) : M SourceMapConsumerMap :=
  fun st =>
    match sourceMapCache st !! src with
    | Some sourceMap => Ok sourceMap st
    | None =>
        (let! urlAndMap := retrieveSourceMap src in
         match urlAndMap with
         | Some urlAndMap =>
             let! consumer := call (SourceMapConsumer_new (um_map urlAndMap)) in
             let sourceMap := mkEntry (um_url urlAndMap) (Some consumer) in
             let! _ := set_sourceMap src sourceMap in
             let! _ := cache_inline_sources sourceMap consumer (sources consumer) in
             ret sourceMap
         | None =>
             let sourceMap := mkEntry None None in
             let! _ := set_sourceMap src sourceMap in
             ret sourceMap
         end) st
    end.

(** [mapSourcePosition] (lines 159-208) *)
Definition mapSourcePosition (position : Position) : M Position :=
  let! sourceMap := sourceMap_for (source position) in
  match cm_map sourceMap with
  | Some consumer =>
      let! originalPosition := call (originalPositionFor consumer position) in
      match mapped_source originalPosition with
      | Some original =>
          ret (mkPosition (supportRelativeURL (cm_url sourceMap) original)
                          (mapped_line originalPosition)
                          (mapped_column originalPosition))
      | None => ret position
      end
  | None => ret position
  end.

(** [mapEvalOrigin] (lines 212-232). The recursion is on the second group
    of the nested pattern; [fuel] bounds its depth, and [None] is fuel
    exhausted. *)
Fixpoint mapEvalOrigin_fuel (fuel : nat) (origin : str) : Store -> option (Res str) :=
  fun st =>
    match Regex.exec Pat.re_eval origin with
    | Some m =>
        Some ((let! position :=
                 mapSourcePosition
                   (mkPosition (capture m 2) (Js.toNumber (capture m 3))
                               (Js.toNumber (capture m 4) - 1)) in
               ret (lit "eval at " ++ capture m 1 ++ lit " ("
                      ++ source position ++ lit ":"
                      ++ Js.numberToString (line position) ++ lit ":"
                      ++ Js.numberToString (column position + 1) ++ lit ")")) st)
    | None =>
        match Regex.exec Pat.re_eval_nested origin with
        | Some m =>
            match fuel with
            | 0 => None
            | S fuel' =>
                match mapEvalOrigin_fuel fuel' (capture m 2) st with
                | Some (Ok inner st') =>
                    Some (Ok (lit "eval at " ++ capture m 1 ++ lit " ("
                                ++ inner ++ lit ")") st')
                | Some (Throw st') => Some (Throw st')
                | None => None
                end
            end
        | None => Some (Ok origin st)
        end
    end.

Definition mapEvalOrigin (origin : str) : Store -> option (Res str) :=
  mapEvalOrigin_fuel (length origin) origin.

(** [remapStackLine] (lines 272-306). The [state] object is passed in and
    handed back with the frame; a caller that passes none passes
    [initial_state]. *)
Definition remapStackLine (stackLine : str) (state : StackState)
    : M (FrameInfo * StackState) :=
  match Regex.exec Pat.re_frame stackLine with
  | None => ret (mkFrameInfo stackLine false, state)
  | Some matched =>
      let fnname := capture matched 1 in
      let src := capture matched 2 in
      if Js.str_eqb src (lit "native code") || Js.str_eqb src (lit "native code:0:0")
      then ret (mkFrameInfo stackLine false, mkStackState (nextPosition state) None)
      else
        match Regex.exec Pat.re_source src with
        | None => ret (mkFrameInfo stackLine false, state)
        | Some srcmatched =>
            let isEval := Js.str_eqb fnname (lit "eval code") in
            if isEval then ret (mkFrameInfo stackLine false, state)
            else
              let file := capture srcmatched 1 in
              let! position :=
                mapSourcePosition
                  (mkPosition file (Js.toNumber (capture srcmatched 2))
                              (Js.toNumber (capture srcmatched 3) - 1)) in
              ret (mkFrameInfo
                     (lit "   at " ++ fnname ++ lit " (" ++ source position
                        ++ lit ":" ++ Js.numberToString (line position)
                        ++ lit ":" ++ Js.numberToString (column position + 1)
                        ++ lit ")")
                     (Js.startsWith (source position) (lit "internal/")),
                   mkStackState (nextPosition state) (Some position))
        end
  end.

Definition initial_state : StackState := mkStackState None None.

(** [frames[i]]; [i] is always below [frames.length] where the program
    reads it. *)
Definition frame_at (frames : list str) (i : nat) : str :=
  default [] (frames !! i).

Definition advance (state : StackState) : StackState :=
  mkStackState (curPosition state) (curPosition state).

(** The first loop of [remapStack] (lines 253-260), from index [i] down to
    1. It hands back the index at which it stopped: the [break] leaves
    that of the first frame that is not internal, falling off the end of
    the loop leaves 0. *)
Fixpoint trim_loop (i : nat) (frames : list str) (state : StackState)
    : M (nat * list str * StackState) :=
  match i with
  | 0 => ret (0, frames, state)
  | S i' =>
      let! '(frame, state) := remapStackLine (frame_at frames i) state in
      if internal frame then trim_loop i' frames state
      else
        let frames := take (i + 1) frames in
        let frames := <[i := stackLine frame]> frames in
        ret (i, frames, advance state)
  end.

(** The second loop (lines 261-265), from index [i] down to 1. *)
Fixpoint remap_loop (i : nat) (frames : list str) (state : StackState)
    : M (list str * StackState) :=
  match i with
  | 0 => ret (frames, state)
  | S i' =>
      let! '(frame, state) := remapStackLine (frame_at frames i) state in
      let frames := <[i := stackLine frame]> frames in
      remap_loop i' frames (advance state)
  end.

Definition newline : ascii := ascii_of_nat 10.

(** [remapStack] (lines 247-267) *)
Definition remapStack (stack : option str) : M (option str) :=
  match stack with
  | None => ret None
  | Some stack =>
      let state := initial_state in
      let frames := Js.split newline stack in
      let i := length frames - 1 in
      let! '(i, frames, state) := trim_loop i frames state in
      let! '(frames, _) := remap_loop i frames state in
      ret (Some (Js.join newline frames))
  end.

(** [remapError] (lines 234-237), on the error's [stack]. *)
Definition remapError (stack : option str) : M (option str) := remapStack stack.

(** [new Array(column).join(' ')]: [new Array] throws a [RangeError] from
    2^32 on, and [join] throws one when the string of [column - 1] spaces
    would be longer than the engine makes a string. *)
Definition caret_indent (column : Z) : outcome str :=
  if (2 ^ 32 <=? column)%Z then Throws
  else if (max_string_length <? column - 1)%Z then Throws
  else Returns (replicate (Z.to_nat column - 1) " "%char).

(** A string that the engine builds: a [RangeError] when it would be
    longer than the engine makes a string. *)
Definition build_string (s : str) : outcome str :=
  if (max_string_length <? Z.of_nat (length s))%Z then Throws else Returns s.

(** [a[i]] for a number [i]. *)
Definition array_get {A} (a : list A) (i : Z) : option A :=
  if (i <? 0)%Z then None else a !! Z.to_nat i.

(** The contents [getErrorSource] works with (lines 328-337): what the
    lookup in the cache finds, or the file's contents when that is
    undefined or the empty string. *)
Definition errorSource_contents (src : str) : M (option Js.value) :=
  fun st =>
    let contents := fileContentsCache st !! src in
    match contents with
    | Some (Js.Text (_ :: _)) | Some (Js.Object _) => Ok contents st
    | _ =>
        (let! _ := log (ExistsSync src) in
         if fs_existsSync src then
           let! _ := log (ReadFileSync src) in
           match fs_readFileSync src with
           | Returns data => ret (Some (Js.Text data))
           | Throws => ret (Some (Js.Text []))
           end
         else ret contents) st
    end.

(** [getErrorSource] (lines 320-348), on the error's [stack]. Contents
    that are an inherited member of the cache are truthy and have no
    [split]: line 341 throws a [TypeError]. *)
Definition getErrorSource (stack : str) : M (option str) :=
  match Regex.exec Pat.re_first_frame stack with
  | Some m =>
      let src := capture m 1 in
      let line := Js.toNumber (capture m 2) in
      let column := Js.toNumber (capture m 3) in
      let! contents := errorSource_contents src in
      match contents with
      | Some (Js.Text (c :: cs)) =>
          match array_get (Js.split_lines (c :: cs)) (line - 1) with
          | Some (d :: ds) =>
              let! indent := call (caret_indent column) in
              let! text :=
                call (build_string
                        (src ++ lit ":" ++ Js.numberToString line ++ [newline]
                           ++ (d :: ds) ++ [newline] ++ indent ++ lit "^")) in
              ret (Some text)
          | _ => ret None
          end
      | Some (Js.Object _) => call Throws
      | _ => ret None
      end
  | None => ret None
  end.

End Program.

(* ================================================================== *)
(** * The vocabulary of the statements *)
(* ================================================================== *)

Section Vocabulary.
Context `{host : Host}.

(** What the file handler reads from the disk: the file's contents, or the
    empty string when there is no such file or reading it fails. *)
Definition disk_contents (path : str) : str :=
  if fs_existsSync path then
    match fs_readFileSync path with
    | Returns data => data
    | Throws => []
    end
  else [].

(** The contents of a path as the file handler sees them: the cached ones,
    else those on the disk. *)
Definition view (st : Store) (path : str) : Js.value :=
  default (Js.Text (disk_contents path)) (fileContentsCache st !! path).

(** The negative cache entry of line 183. *)
Definition negative_entry : SourceMapConsumerMap := mkEntry None None.

(** How often the retrieval handler ran for [src]. *)
Definition is_retrieval (src : str) (e : Event) : bool :=
  match e with
  | RetrieveSourceMap s => Js.str_eqb s src
  | _ => false
  end.

Definition retrievals (src : str) (st : Store) : nat :=
  length (filter (fun e => is_retrieval src e = true) (trace st)).

(** What a retrieval for [src] may do to the store: the files look the same
    afterwards, the source-map cache is untouched, and the calls it adds to
    the trace are file-system calls and runs of the handler for [src]. *)
Definition retrieval_step (src : str) (st st1 : Store) : Prop :=
  (forall p, view st1 p = view st p)
  /\ sourceMapCache st1 = sourceMapCache st
  /\ exists events,
      trace st1 = events ++ trace st
      /\ Forall (fun e => forall s, s <> src -> is_retrieval s e = false) events.

(** A computation that only retrieves for [src]: it never throws, it takes
    a retrieval step, and its value depends on the view of the files only. *)
Definition retrieves {A} (src : str) (m : M A) : Prop :=
  forall st,
    exists a st1,
      m st = Ok a st1
      /\ retrieval_step src st st1
      /\ forall st', (forall p, view st' p = view st p) -> value_of (m st') = Some a.

(** A source has no source map: the cache says so, or the cache is silent
    and the retrieval handlers return [null]. *)
Definition no_source_map (st : Store) (src : str) : Prop :=
  match sourceMapCache st !! src with
  | Some sourceMap => cm_map sourceMap = None
  | None => value_of (retrieveSourceMap src st) = Some None
  end.

(** The frame grammar: three spaces, [at], a function name, and in
    parentheses a file, a line number and a column number. *)
Definition is_frame (stackLine fnname file lineno colno : str) : Prop :=
  stackLine = lit "   at " ++ fnname ++ lit " (" ++ file ++ lit ":" ++ lineno
                ++ lit ":" ++ colno ++ lit ")"
  /\ fnname <> [] /\ forallb Js.is_dot fnname = true
  /\ file <> [] /\ forallb Js.is_dot file = true
  /\ forallb (Pat.not_char "(") file = true
  /\ lineno <> [] /\ forallb Js.is_digit lineno = true
  /\ colno <> [] /\ forallb Js.is_digit colno = true.

(** The source text of a frame: file, line and column. *)
Definition source_text (file lineno colno : str) : str :=
  file ++ lit ":" ++ lineno ++ lit ":" ++ colno.

(** The two special cases that [remapStackLine] passes through. *)
Definition is_special (fnname file lineno colno : str) : Prop :=
  fnname = lit "eval code"
  \/ (file = lit "native code" /\ lineno = lit "0" /\ colno = lit "0").

(** The frame parser: the function name and the position of a line that
    [remapStackLine] hands to [mapSourcePosition]. *)
Definition parse_frame (stackLine : str) : option (str * Position) :=
  match Regex.exec Pat.re_frame stackLine with
  | None => None
  | Some matched =>
      let fnname := capture matched 1 in
      let src := capture matched 2 in
      if Js.str_eqb src (lit "native code") || Js.str_eqb src (lit "native code:0:0")
      then None
      else
        match Regex.exec Pat.re_source src with
        | None => None
        | Some srcmatched =>
            if Js.str_eqb fnname (lit "eval code") then None
            else Some (fnname,
                       mkPosition (capture srcmatched 1)
                                  (Js.toNumber (capture srcmatched 2))
                                  (Js.toNumber (capture srcmatched 3) - 1))
        end
  end.

(** The text [remapStackLine] builds from a function name and a position. *)
Definition render_frame (fnname : str) (position : Position) : str :=
  lit "   at " ++ fnname ++ lit " (" ++ source position ++ lit ":"
    ++ Js.numberToString (line position) ++ lit ":"
    ++ Js.numberToString (column position + 1) ++ lit ")".

(** A frame line as [remapStackLine] leaves it when its source has no map. *)
Definition rerender (stackLine : str) : str :=
  match parse_frame stackLine with
  | Some (fnname, position) => render_frame fnname position
  | None => stackLine
  end.

(** Whether [remapStackLine] calls such a line internal. *)
Definition internal_unmapped (stackLine : str) : bool :=
  match parse_frame stackLine with
  | Some (_, position) => Js.startsWith (source position) (lit "internal/")
  | None => false
  end.

(** The frame lines [remapStack] keeps when no source has a map: all of
    them when every one is internal, else those up to the last one that is
    not internal. *)
Definition trim_internal (frames : list str) : list str :=
  rev (Js.drop_while internal_unmapped (rev frames)).

Definition remapped_unmapped (frames : list str) : list str :=
  if forallb internal_unmapped frames then frames
  else map rerender (trim_internal frames).

(** The frame lines of a stack: all lines but the first. *)
Definition frame_lines (stack : str) : list str := tail (Js.split newline stack).

(** Every frame line is classified internal, bottom-up, by the calls that
    the first loop of [remapStack] makes. *)
Fixpoint all_internal (bottom_up : list str) (state : StackState) (st : Store)
    : bool :=
  match bottom_up with
  | [] => true
  | stackLine :: rest =>
      match remapStackLine stackLine state st with
      | Ok (frame, state') st' => internal frame && all_internal rest state' st'
      | Throw _ => false
      end
  end.

(** Every source that [remapStackLine] would look up for the line has no
    source map. *)
Definition unmapped_frame (st : Store) (stackLine : str) : Prop :=
  forall fnname position,
    parse_frame stackLine = Some (fnname, position) ->
    no_source_map st (source position).

(** The line and column numbers of a frame line are written the way
    JavaScript prints them: no leading zeros, and below 2^53, where a
    number is printed digit for digit. *)
Definition canonical_numbers (stackLine : str) : Prop :=
  forall fnname file lineno colno,
    is_frame stackLine fnname file lineno colno ->
    Js.numberToString (Js.toNumber lineno) = lineno
    /\ Js.numberToString (Js.toNumber colno) = colno
    /\ (Js.toNumber lineno < 2 ^ 53)%Z
    /\ (Js.toNumber colno < 2 ^ 53)%Z.

(** Nothing for [remapStack] to drop: every frame line is internal, or the
    last one is not. *)
Definition nothing_to_trim (frames : list str) : Prop :=
  forallb internal_unmapped frames = true
  \/ exists stackLine, last frames = Some stackLine
                       /\ internal_unmapped stackLine = false.

(** The frames that [remapStackLine] returns for the lines of a stack,
    taken from the last line up, each call in the store the one before
    left. *)
Fixpoint scan (bottom_up : list str) (state : StackState) (st : Store)
    : list FrameInfo :=
  match bottom_up with
  | [] => []
  | stackLine :: rest =>
      match remapStackLine stackLine state st with
      | Ok (frame, state') st' => frame :: scan rest state' st'
      | Throw _ => []
      end
  end.

(** A handler that computes its result without the store. *)
Definition pure_handler {T R : Type} (f : T -> R) : T -> M R :=
  fun arg => ret (f arg).

(** Every entry of the source-map cache of [st] is an entry of [st']. *)
Definition sourceMaps_kept (st st' : Store) : Prop :=
  forall src sourceMap,
    sourceMapCache st !! src = Some sourceMap ->
    sourceMapCache st' !! src = Some sourceMap.

(** The number of lines of a text: a line terminator at the very end ends
    the last line and starts no further one, so the text [a], the text [a]
    with a line feed after it and the text of [a], a line feed and [b] have
    one, one and two lines; the empty text has none. *)
Definition line_count (contents : str) : nat :=
  let pieces := Js.split_lines contents in
  match last pieces with
  | Some [] => length pieces - 1
  | _ => length pieces
  end.

(** The line and column numbers of a frame line are below 2^53, where a
    number is what its digits say. *)
Definition exact_numbers (stackLine : str) : Prop :=
  forall fnname file lineno colno,
    is_frame stackLine fnname file lineno colno ->
    (Js.toNumber lineno < 2 ^ 53)%Z /\ (Js.toNumber colno < 2 ^ 53)%Z.

(** A call of the file system, as the trace records it. *)
Definition is_fs_call (e : Event) : bool :=
  match e with
  | ExistsSync _ | ReadFileSync _ => true
  | RetrieveSourceMap _ => false
  end.

(** No line feed of [s] has a slash after it. *)
Fixpoint no_slash_after_newline (s : str) : bool :=
  match s with
  | x :: s' =>
      match s' with
      | y :: _ => negb (Ascii.eqb x newline && Ascii.eqb y "/")
      | [] => true
      end && no_slash_after_newline s'
  | [] => true
  end.

(** The text [getErrorSource] makes of a source, the digits of a line and
    of a column number, and a line of code: the source and the line number,
    the code, and a caret under the column. *)
Definition snippet (src lineno colno code : str) : str :=
  src ++ lit ":" ++ Js.numberToString (Js.toNumber lineno) ++ [newline]
    ++ code ++ [newline]
    ++ replicate (Z.to_nat (Js.toNumber colno) - 1) " "%char ++ lit "^".

(** A stack whose first line feed starts a frame: a header without a line
    feed, then [at], a function name, and in parentheses a source without a
    closing parenthesis, a line number and a column number, up to the end
    of the line. *)
Definition is_first_frame (stack header fnname src lineno colno rest : str) : Prop :=
  stack = header ++ [newline] ++ lit "   at " ++ fnname ++ lit " (" ++ src ++ lit ":"
            ++ lineno ++ lit ":" ++ colno ++ lit ")" ++ rest
  /\ ~ In newline header
  /\ fnname <> [] /\ forallb (Pat.not_char "(") fnname = true
  /\ forallb Js.is_dot src = true /\ ~ In ")"%char src
  /\ lineno <> [] /\ forallb Js.is_digit lineno = true
  /\ colno <> [] /\ forallb Js.is_digit colno = true
  /\ (rest = [] \/ exists r, rest = newline :: r).

End Vocabulary.

(* ================================================================== *)
(** * Concrete hosts

    Small hosts on which the program can be run: a file system given as a
    list of files, POSIX paths, and decoders that answer every query with
    one fixed original position. *)
(* ================================================================== *)

Module Scenario.

(** [path.dirname] on a POSIX path without a trailing slash. *)
Definition dirname (p : str) : str :=
  match Js.drop_while (Pat.not_char "/") (rev p) with
  | [] => lit "."
  | [_] => lit "/"
  | _ :: parent => rev parent
  end.

(** [path.resolve(dir, url)] for an absolute [dir] and a [url] without
    [.] and [..] segments. *)
Definition resolve (dir url : str) : str :=
  if Js.startsWith url (lit "/") then url else dir ++ lit "/" ++ url.

Fixpoint read (files : list (str * str)) (path : str) : option str :=
  match files with
  | [] => None
  | (name, contents) :: rest =>
      if Js.str_eqb name path then Some contents else read rest path
  end.

(** A decoded map with one source and no inline contents, which sends
    every position to [original]. *)
Definition consumer_to (original : Position) : SourceMapConsumer :=
  mkConsumer [source original]
    (fun _ => Returns None)
    (fun _ => Returns (mkMapped (Some (source original)) (line original)
                                (column original))).

(** A host with the given files and a decoder of map texts; the decoder
    rejects a map that is no text but a function or a prototype object, and
    the longest string has 2^29 - 24 characters. *)
Definition host_of (files : list (str * str))
    (decode : str -> outcome SourceMapConsumer) : Host :=
  mkHost
    (fun path => bool_decide (is_Some (read files path)))
    (fun path => match read files path with
                 | Some contents => Returns contents
                 | None => Throws
                 end)
    dirname resolve
    (fun data => data)
    (fun map => match map with
                | Js.Text data => decode data
                | Js.Object _ => Throws
                end)
    (2 ^ 29 - 24).

(** No file at all. *)
Definition bare_host : Host := host_of [] (fun _ => Throws).

Definition lines (ls : list string) : str :=
  Js.join newline (map lit ls).

(** A bundle whose map leads to [/app/a.js], which has a map of its own
    that leads to [a.ts]. *)
Definition chain_files : list (str * str) :=
  [ (lit "/app/bundle.js", lines ["bundled()"; "//# sourceMappingURL=bundle.js.map"]);
    (lit "/app/bundle.js.map", lit "MAP-OF-BUNDLE");
    (lit "/app/a.js", lines ["compiled()"; "//# sourceMappingURL=a.js.map"]);
    (lit "/app/a.js.map", lit "MAP-OF-A") ].

Definition chain_decode (data : str) : outcome SourceMapConsumer :=
  if Js.str_eqb data (lit "MAP-OF-BUNDLE") then
    Returns (consumer_to (mkPosition (lit "a.js") 10 0))
  else if Js.str_eqb data (lit "MAP-OF-A") then
    Returns (consumer_to (mkPosition (lit "a.ts") 20 0))
  else Throws.

Definition chain_host : Host := host_of chain_files chain_decode.

(** A generated file whose only [sourceMappingURL] comment is a block
    comment, beside its map. *)
Definition block_files : list (str * str) :=
  [ (lit "/app/b.js", lines ["generated()"; "/*# sourceMappingURL=b.js.map */"]);
    (lit "/app/b.js.map", lit "MAP-OF-B") ].

Definition block_host : Host :=
  host_of block_files
    (fun _ => Returns (consumer_to (mkPosition (lit "b.ts") 1 0))).

(** The same file with the comment in line form. *)
Definition line_files : list (str * str) :=
  [ (lit "/app/b.js", lines ["generated()"; "//# sourceMappingURL=b.js.map"]);
    (lit "/app/b.js.map", lit "MAP-OF-B") ].

Definition line_host : Host :=
  host_of line_files
    (fun _ => Returns (consumer_to (mkPosition (lit "b.ts") 1 0))).

(** A source of three lines. *)
Definition short_files : list (str * str) :=
  [ (lit "/app/short.js", lines ["one();"; "two();"; "three();"]) ].

Definition short_host : Host := host_of short_files (fun _ => Throws).

(** A generated file with a map that has no mapping for any position. *)
Definition silent_files : list (str * str) :=
  [ (lit "/app/c.js", lines ["generated()"; "//# sourceMappingURL=c.js.map"]);
    (lit "/app/c.js.map", lit "MAP-OF-C") ].

Definition silent_consumer : SourceMapConsumer :=
  mkConsumer [] (fun _ => Returns None) (fun _ => Returns (mkMapped None 0 0)).

Definition silent_host : Host :=
  host_of silent_files (fun _ => Returns silent_consumer).

(** A generated file with two [sourceMappingURL] comments, the first one
    inside a string. *)
Definition twice_files : list (str * str) :=
  [ (lit "/app/d.js",
     lines ["var s = 'x';"; "//# sourceMappingURL=first.map";
            "//# sourceMappingURL=last.map"]) ].

Definition twice_host : Host := host_of twice_files (fun _ => Throws).

(** The stacks of the examples. *)
Definition chain_stack : str :=
  lines ["Error: boom"; "   at f (/app/bundle.js:1:1)";
         "   at g (internal/x.js:1:1)"; "   at h (internal/y.js:2:2)"].

Definition trimmed_stack : str :=
  lines ["Error: boom"; "   at f (a.js:1:1)"; "   at g (internal/b.js:1:1)"].

Definition padded_stack : str :=
  lines ["Error: boom"; "   at f (a.js:01:1)"].

Definition plain_stack : str :=
  lines ["Error: boom"; "   at g (internal/a.js:1:1)"; "   at f (b.js:2:3)"].

Definition internal_stack : str :=
  lines ["Error: boom"; "   at g (internal/a.js:1:1)"; "   at h (internal/b.js:2:2)"].

Definition short_stack : str :=
  lines ["Error: boom"; "   at f (/app/short.js:7:3)"].

(** The file of [line_files] beside a map that the decoder rejects. *)
Definition broken_host : Host := host_of line_files (fun _ => Throws).

(** A decoded map whose position query throws. *)
Definition failing_consumer : SourceMapConsumer :=
  mkConsumer [] (fun _ => Returns None) (fun _ => Throws).

Definition failing_host : Host :=
  host_of line_files (fun _ => Returns failing_consumer).

(** A generated file whose map is a data URL, and a decoded map that
    carries one of its two sources inline. *)
Definition inline_files : list (str * str) :=
  [ (lit "/app/e.js",
     lines ["generated()"; "//# sourceMappingURL=data:application/json;base64,TUFQ"]) ].

Definition inline_consumer : SourceMapConsumer :=
  mkConsumer [lit "e.ts"; lit "lib.ts"]
    (fun src => if Js.str_eqb src (lit "e.ts") then Returns (Some (lit "original()"))
                else Returns None)
    (fun _ => Returns (mkMapped (Some (lit "e.ts")) 1 0)).

Definition inline_host : Host :=
  host_of inline_files (fun _ => Returns inline_consumer).

Definition snippet_stack : str :=
  lines ["Error: boom"; "   at f (/app/short.js:2:3)"].

(** A file of one line whose name is that of a member of
    [Object.prototype], and a stack with a frame in it. *)
Definition inherited_files : list (str * str) :=
  [ (lit "toString", lines ["one();"]) ].

Definition inherited_host : Host := host_of inherited_files (fun _ => Throws).

Definition inherited_stack : str :=
  lines ["Error: boom"; "   at f (toString:5:1)"].

(** A source of two lines, the second one ended by a line feed, and a stack
    with a frame in a third line. *)
Definition ended_files : list (str * str) :=
  [ (lit "/app/ended.js", lines ["one();"; "two();"; ""]) ].

Definition ended_host : Host := host_of ended_files (fun _ => Throws).

Definition ended_stack : str :=
  lines ["Error: boom"; "   at f (/app/ended.js:3:1)"].

(** A generated file whose name is that of a member of [Object.prototype],
    with a [sourceMappingURL] comment on its last line. *)
Definition commented_files : list (str * str) :=
  [ (lit "toString", lines ["generated()"; "//# sourceMappingURL=b.js.map"]) ].

Definition commented_host : Host := host_of commented_files (fun _ => Throws).

(** A decoded map that carries the contents of a source named
    [__proto__] inline. *)
Definition proto_consumer : SourceMapConsumer :=
  mkConsumer [lit "__proto__"] (fun _ => Returns (Some (lit "original()")))
    (fun _ => Returns (mkMapped None 0 0)).

(** A stack with a frame in the file of [line_files]. *)
Definition mapped_stack : str :=
  lines ["Error: boom"; "   at f (/app/b.js:3:7)"].

(** A frame in column 600000000 of the second line of a source. *)
Definition wide_stack : str :=
  lines ["Error: boom"; "   at f (/app/short.js:2:600000000)"].

End Scenario.

(* ================================================================== *)
(** * Facts about strings and numbers *)
(* ================================================================== *)

Module JsFacts.
Import Js.

Lemma split_not_nil sep s : split sep s <> [].
Proof.
  destruct s as [|c s]; simpl; [discriminate|].
  destruct (Ascii.eqb c sep); [discriminate|].
  destruct (split sep s); discriminate.
Qed.

(** [s.split(sep).join(sep)] is [s]. *)
Lemma join_split sep s : join sep (split sep s) = s.
Proof.
  induction s as [|c s IH]; simpl; [reflexivity|].
  destruct (Ascii.eqb_spec c sep) as [->|Hne].
  - pose proof (split_not_nil sep s) as Hnil.
    destruct (split sep s) as [|piece pieces]; [contradiction|].
    simpl in *. now rewrite IH.
  - pose proof (split_not_nil sep s) as Hnil.
    destruct (split sep s) as [|piece pieces]; [contradiction|].
    destruct pieces; simpl in *; now rewrite <- IH.
Qed.

Lemma length_split_pos sep s : 0 < length (split sep s).
Proof.
  pose proof (split_not_nil sep s). destruct (split sep s); simpl; [contradiction|lia].
Qed.

Lemma chars_uint_chars d : chars_uint (uint_chars d) = d.
Proof. induction d; simpl; congruence. Qed.

(** Reading back a number that was printed. *)
Lemma toNumber_numberToString n :
  (0 <= n)%Z -> toNumber (numberToString n) = n.
Proof.
  intros Hn. destruct n as [|p|p]; [reflexivity| |lia].
  unfold toNumber, numberToString. rewrite chars_uint_chars.
  unfold N.of_uint. now rewrite DecimalPos.Unsigned.of_to.
Qed.

Lemma toNumber_nonneg s : (0 <= toNumber s)%Z.
Proof. unfold toNumber. lia. Qed.

(** Printing is idempotent through reading. *)
Lemma numberToString_toNumber_idem s :
  numberToString (toNumber (numberToString (toNumber s))) = numberToString (toNumber s).
Proof. now rewrite toNumber_numberToString by apply toNumber_nonneg. Qed.

Lemma startsWith_app pre s : startsWith (pre ++ s) pre = true.
Proof.
  induction pre as [|a pre IH]; simpl; [reflexivity|].
  now rewrite Ascii.eqb_refl, IH.
Qed.

Lemma str_eqb_eq a b : str_eqb a b = true <-> a = b.
Proof. unfold str_eqb. apply bool_decide_eq_true. Qed.

Lemma str_eqb_neq a b : str_eqb a b = false <-> a <> b.
Proof. unfold str_eqb. apply bool_decide_eq_false. Qed.

End JsFacts.

(* ================================================================== *)
(** * Facts about the matcher

    The matcher is sound for [Matches], and complete in that it finds a
    match whenever there is one. *)
(* ================================================================== *)

Module RegexFacts.
Import Regex.

(** A match consumes a prefix of the input. *)
Lemma Matches_consumes r :
  forall i s c i' s' c',
    Matches r i s c i' s' c' -> exists u, s = u ++ s' /\ i' = i + length u.
Proof.
  induction r as [|a|p|r1 IH1 r2 IH2|r1 IH1 r2 IH2|p|p|r IH|n r IH| |ml];
    simpl; intros i s c i' s' c' H.
  - destruct H as (-> & -> & _). exists []. split; [reflexivity|simpl; lia].
  - destruct H as (-> & -> & _). exists [a]. split; [reflexivity|simpl; lia].
  - destruct H as (x & _ & -> & -> & _). exists [x]. split; [reflexivity|simpl; lia].
  - destruct H as (i1 & s1 & c1 & H1 & H2).
    apply IH1 in H1 as (u1 & -> & ->). apply IH2 in H2 as (u2 & -> & ->).
    exists (u1 ++ u2). rewrite <- app_assoc, length_app. split; [reflexivity|lia].
  - destruct H as [H|H]; eauto.
  - destruct H as (u & _ & -> & -> & _). eauto.
  - destruct H as (u & _ & _ & -> & -> & _). eauto.
  - destruct H as [H|(-> & -> & _)]; eauto.
    exists []. split; [reflexivity|simpl; lia].
  - destruct H as (c1 & H & _). eauto.
  - destruct H as (_ & -> & -> & _). exists []. split; [reflexivity|simpl; lia].
  - destruct H as (-> & -> & _). exists []. split; [reflexivity|simpl; lia].
Qed.

Section Matcher.
Context {R : Type}.
Implicit Types k : @cont R.

Lemma star_sound p k :
  forall s i c res,
    star p i s c k = Some res ->
    exists u s', forallb p u = true /\ s = u ++ s'
                 /\ k (i + length u) s' c = Some res.
Proof.
  induction s as [|x s IH]; simpl; intros i c res H.
  - exists [], []. simpl. rewrite Nat.add_0_r. auto.
  - destruct (p x) eqn:Hpx.
    + destruct (star p (S i) s c k) as [res'|] eqn:Hstar.
      * injection H as ->. apply IH in Hstar as (u & s' & Hu & -> & Hk).
        exists (x :: u), s'. simpl. rewrite Hpx, Hu.
        rewrite Nat.add_succ_r. auto.
      * exists [], (x :: s). simpl. rewrite Nat.add_0_r. auto.
    + exists [], (x :: s). simpl. rewrite Nat.add_0_r. auto.
Qed.

Lemma star_fallback p k s i c res :
  k i s c = Some res -> is_Some (star p i s c k).
Proof.
  intros Hk. destruct s as [|x s]; simpl; [eauto|].
  destruct (p x); [|eauto].
  destruct (star p (S i) s c k); eauto.
Qed.

Lemma star_complete p k u :
  forall s' i c res,
    forallb p u = true ->
    k (i + length u) s' c = Some res ->
    is_Some (star p i (u ++ s') c k).
Proof.
  induction u as [|x u IH]; simpl; intros s' i c res Hu Hk.
  - rewrite Nat.add_0_r in Hk. eapply star_fallback; eauto.
  - apply andb_true_iff in Hu as [Hx Hu]. rewrite Hx.
    rewrite Nat.add_succ_r in Hk.
    destruct (IH s' (S i) c res Hu Hk) as [res' ->]. eauto.
Qed.

(** The matcher is sound: what it finds is a match. *)
Lemma matcher_sound r :
  forall i s c k res,
    matcher r i s c k = Some res ->
    exists i' s' c', Matches r i s c i' s' c' /\ k i' s' c' = Some res.
Proof.
  induction r as [|a|p|r1 IH1 r2 IH2|r1 IH1 r2 IH2|p|p|r IH|n r IH| |ml];
    simpl; intros i s c k res H.
  - eauto 10.
  - destruct s as [|x s]; [discriminate|].
    destruct (Ascii.eqb_spec a x) as [->|]; [|discriminate]. eauto 10.
  - destruct s as [|x s]; [discriminate|].
    destruct (p x) eqn:Hpx; [|discriminate]. eauto 12.
  - apply IH1 in H as (i1 & s1 & c1 & H1 & H).
    apply IH2 in H as (i2 & s2 & c2 & H2 & H). eauto 12.
  - destruct (matcher r1 i s c k) as [res'|] eqn:H1.
    + injection H as ->. apply IH1 in H1 as (i' & s' & c' & ? & ?). eauto 10.
    + apply IH2 in H as (i' & s' & c' & ? & ?). eauto 10.
  - apply star_sound in H as (u & s' & Hu & -> & Hk). eauto 12.
  - destruct s as [|x s]; [discriminate|].
    destruct (p x) eqn:Hpx; [|discriminate].
    apply star_sound in H as (u & s' & Hu & -> & Hk).
    exists (S i + length u), s', c. split; [|exact Hk].
    exists (x :: u). simpl. rewrite Hpx, Hu. repeat split; auto; discriminate.
  - destruct (matcher r i s c k) as [res'|] eqn:H1.
    + injection H as ->. apply IH in H1 as (i' & s' & c' & ? & ?). eauto 10.
    + eauto 12.
  - apply IH in H as (i' & s' & c' & H1 & H). eauto 12.
  - destruct (Nat.eqb_spec i 0) as [->|]; [|discriminate]. eauto 12.
  - destruct s as [|x s]; [eauto 12|].
    destruct ml; simpl in H; [|discriminate].
    destruct (Js.is_line_terminator x) eqn:Hx; [|discriminate].
    exists i, (x :: s), c. split; [|exact H].
    repeat split; auto. right. eauto.
Qed.

(** The matcher is complete: where there is a match that the
    continuation accepts, it finds one. *)
Lemma matcher_complete r :
  forall i s c i' s' c' k res,
    Matches r i s c i' s' c' ->
    k i' s' c' = Some res ->
    is_Some (matcher r i s c k).
Proof.
  induction r as [|a|p|r1 IH1 r2 IH2|r1 IH1 r2 IH2|p|p|r IH|n r IH| |ml];
    simpl; intros i s c i' s' c' k res H Hk.
  - destruct H as (-> & -> & ->). eauto.
  - destruct H as (-> & -> & ->). rewrite Ascii.eqb_refl. eauto.
  - destruct H as (x & Hx & -> & -> & ->). rewrite Hx. eauto.
  - destruct H as (i1 & s1 & c1 & H1 & H2).
    destruct (IH2 _ _ _ _ _ _ _ _ H2 Hk) as [res2 Hres2].
    eapply IH1; eauto.
  - destruct H as [H|H].
    + destruct (IH1 _ _ _ _ _ _ _ _ H Hk) as [res1 ->]. eauto.
    + destruct (matcher r1 i s c k); eauto.
  - destruct H as (u & Hu & -> & -> & ->). eapply star_complete; eauto.
  - destruct H as (u & Hne & Hu & -> & -> & ->).
    destruct u as [|x u]; [contradiction|]. simpl in *.
    apply andb_true_iff in Hu as [Hx Hu]. rewrite Hx.
    rewrite Nat.add_succ_r in Hk. eapply star_complete; eauto.
  - destruct H as [H|(-> & -> & ->)].
    + destruct (IH _ _ _ _ _ _ _ _ H Hk) as [res1 ->]. eauto.
    + destruct (matcher r i s c k); eauto.
  - destruct H as (c1 & H & ->). eapply IH; eauto.
  - destruct H as (-> & -> & -> & ->). simpl. eauto.
  - destruct H as (-> & -> & -> & [->|(-> & x & t & -> & Hx)]); [eauto|].
    simpl. rewrite Hx. eauto.
Qed.
End Matcher.

End RegexFacts.

(* ================================================================== *)
(** * Facts about [exec] and about the patterns of the program *)
(* ================================================================== *)

Module SearchFacts.
Import Regex RegexFacts.

Lemma match_at_sound r i s m :
  match_at r i s = Some m ->
  exists i' s' c',
    Matches r i s (replicate (S (ngroups r)) None) i' s' c'
    /\ m = mkMatch i i' (<[0 := Some (take (i' - i) s)]> c').
Proof.
  unfold match_at. intros H.
  apply matcher_sound in H as (i' & s' & c' & HM & H).
  injection H as <-. eauto.
Qed.

Lemma match_at_complete r i s i' s' c' :
  Matches r i s (replicate (S (ngroups r)) None) i' s' c' ->
  is_Some (match_at r i s).
Proof. intros H. unfold match_at. eapply matcher_complete; eauto. Qed.

(** A pattern that starts with [^] matches at position 0 only. *)
Lemma search_Bol r s : forall i, 0 < i -> search (Seq Bol r) i s = None.
Proof.
  induction s as [|x s IH]; intros i Hi; simpl; unfold match_at; simpl;
    destruct (Nat.eqb_spec i 0); try lia; [reflexivity|].
  apply IH. lia.
Qed.

Lemma exec_anchored r s : exec (Seq Bol r) s = match_at (Seq Bol r) 0 s.
Proof.
  unfold exec. destruct s as [|x s]; simpl.
  - destruct (match_at (Seq Bol r) 0 []); reflexivity.
  - destruct (match_at (Seq Bol r) 0 (x :: s)); [reflexivity|].
    apply search_Bol. lia.
Qed.

(** The leftmost match is a match somewhere at or after the start. *)
Lemma search_sound r s :
  forall i m,
    search r i s = Some m ->
    exists pre t, s = pre ++ t /\ match_at r (i + length pre) t = Some m.
Proof.
  induction s as [|x s IH]; intros i m; simpl.
  - destruct (match_at r i []) eqn:H; [|discriminate].
    intros [= <-]. exists [], []. simpl. rewrite Nat.add_0_r. auto.
  - destruct (match_at r i (x :: s)) eqn:H.
    + intros [= <-]. exists [], (x :: s). simpl. rewrite Nat.add_0_r. auto.
    + intros Hs. apply IH in Hs as (pre & t & -> & Hm).
      exists (x :: pre), t. simpl. rewrite Nat.add_succ_r. auto.
Qed.

Lemma take_prefix (u s : str) n : n = length u -> take n (u ++ s) = u.
Proof. intros ->. now rewrite take_app_length. Qed.

(** Where the last occurrence of a character is. *)
Lemma split_last_unique (p : ascii -> bool) a :
  p a = false ->
  forall u v u' v' : str,
    forallb p v = true -> forallb p v' = true ->
    u ++ a :: v = u' ++ a :: v' -> u = u' /\ v = v'.
Proof.
  intros Ha. induction u as [|x u IH]; intros v u' v' Hv Hv' Heq.
  - destruct u' as [|y u']; simpl in Heq.
    + injection Heq as ->. auto.
    + injection Heq as <- ->.
      rewrite forallb_app in Hv. simpl in Hv. rewrite Ha in Hv.
      rewrite andb_false_r in Hv. discriminate.
  - destruct u' as [|y u']; simpl in Heq.
    + injection Heq as -> <-.
      rewrite forallb_app in Hv'. simpl in Hv'. rewrite Ha in Hv'.
      rewrite andb_false_r in Hv'. discriminate.
    + injection Heq as -> Heq. destruct (IH _ _ _ Hv Hv' Heq) as [-> ->]. auto.
Qed.

Ltac break_match :=
  repeat match goal with
         | H : exists _, _ |- _ => destruct H
         | H : _ /\ _ |- _ => destruct H
         end.

Ltac unfold_pattern H :=
  cbn [Matches seq Str Lit Times lit list_ascii_of_string] in H; break_match; subst.

Ltac solve_capture :=
  unfold capture, group; cbn;
  first [ apply take_prefix; simpl; lia | apply take_ge; simpl; lia ].

End SearchFacts.

Module PatFacts.
Import Regex RegexFacts SearchFacts.

(** What [re_frame] accepts, and what its groups are. *)
Lemma re_frame_inv s m :
  exec Pat.re_frame s = Some m ->
  exists fn src,
    s = lit "   at " ++ fn ++ lit " (" ++ src ++ lit ")"
    /\ fn <> [] /\ forallb Js.is_dot fn = true
    /\ src <> [] /\ forallb (Pat.not_char "(") src = true
    /\ capture m 1 = fn /\ capture m 2 = src.
Proof.
  unfold Pat.re_frame. cbn [seq]. rewrite exec_anchored. intros H.
  apply match_at_sound in H as (i' & s' & c' & HM & ->).
  unfold_pattern HM.
  match goal with H : _ \/ _ |- _ => destruct H as [->|(? & _)]; [|discriminate] end.
  match goal with
  | H1 : forallb Js.is_dot ?fn = true, H2 : forallb (Pat.not_char "(") ?src = true |- _ =>
      exists fn, src
  end.
  repeat split; auto; solve_capture.
Qed.

Lemma re_frame_intro fn src :
  fn <> [] -> forallb Js.is_dot fn = true ->
  src <> [] -> forallb (Pat.not_char "(") src = true ->
  exists m,
    exec Pat.re_frame (lit "   at " ++ fn ++ lit " (" ++ src ++ lit ")") = Some m
    /\ capture m 1 = fn /\ capture m 2 = src.
Proof.
  intros Hfn Hdot Hsrc Hpar.
  assert (Hsome : is_Some (exec Pat.re_frame
                             (lit "   at " ++ fn ++ lit " (" ++ src ++ lit ")"))).
  { unfold Pat.re_frame. cbn [seq]. rewrite exec_anchored.
    eapply match_at_complete.
    cbn [Matches seq Str Lit Times lit list_ascii_of_string app].
    repeat (eexists || split); eauto. }
  destruct Hsome as [m Hm]. exists m. split; [exact Hm|].
  apply re_frame_inv in Hm as (fn' & src' & Heq & _ & _ & _ & Hpar' & <- & <-).
  cbn [lit list_ascii_of_string app] in Heq.
  injection Heq as Heq.
  assert (Heq' : (fn ++ [" "%char]) ++ "("%char :: (src ++ [")"%char])
                 = (capture m 1 ++ [" "%char]) ++ "("%char :: (capture m 2 ++ [")"%char])).
  { rewrite <- !app_assoc. exact Heq. }
  apply (split_last_unique (Pat.not_char "(")) in Heq' as [H1 H2];
    [| reflexivity | rewrite forallb_app, Hpar; reflexivity
     | rewrite forallb_app, Hpar'; reflexivity].
  apply app_inv_tail in H1. apply app_inv_tail in H2. auto.
Qed.

(** What [re_source] accepts, and what its groups are. *)
Lemma re_source_inv s m :
  exec Pat.re_source s = Some m ->
  exists file l c,
    s = file ++ lit ":" ++ l ++ lit ":" ++ c
    /\ file <> [] /\ forallb Js.is_dot file = true
    /\ l <> [] /\ forallb Js.is_digit l = true
    /\ c <> [] /\ forallb Js.is_digit c = true
    /\ capture m 1 = file /\ capture m 2 = l /\ capture m 3 = c.
Proof.
  unfold Pat.re_source. cbn [seq]. rewrite exec_anchored. intros H.
  apply match_at_sound in H as (i' & s' & c' & HM & ->).
  unfold_pattern HM.
  match goal with H : _ \/ _ |- _ => destruct H as [->|(? & _)]; [|discriminate] end.
  match goal with
  | H1 : forallb Js.is_dot ?file = true,
    H2 : forallb Js.is_digit ?l = true |- context [?l ++ ":"%char :: ?c] =>
      exists file, l, c
  end.
  rewrite app_nil_r.
  repeat split; auto; solve_capture.
Qed.

Lemma digits_no_colon d :
  forallb Js.is_digit d = true -> forallb (Pat.not_char ":") d = true.
Proof.
  induction d as [|x d IH]; simpl; [reflexivity|].
  intros [Hx Hd]%andb_true_iff. rewrite IH by assumption.
  rewrite andb_true_r. unfold Pat.not_char, Js.is_char.
  destruct (Ascii.eqb_spec ":" x) as [<-|]; [discriminate|reflexivity].
Qed.

Lemma re_source_intro file l c :
  file <> [] -> forallb Js.is_dot file = true ->
  l <> [] -> forallb Js.is_digit l = true ->
  c <> [] -> forallb Js.is_digit c = true ->
  exists m,
    exec Pat.re_source (file ++ lit ":" ++ l ++ lit ":" ++ c) = Some m
    /\ capture m 1 = file /\ capture m 2 = l /\ capture m 3 = c.
Proof.
  intros Hfile Hdot Hl Hld Hc Hcd.
  assert (Hsome : is_Some (exec Pat.re_source (file ++ lit ":" ++ l ++ lit ":" ++ c))).
  { unfold Pat.re_source. cbn [seq]. rewrite exec_anchored.
    eapply match_at_complete.
    cbn [Matches seq Str Lit Times lit list_ascii_of_string app].
    exists 0, (file ++ ":"%char :: l ++ ":"%char :: c), (replicate 4 None).
    split; [repeat split|].
    repeat (eexists || split); eauto; rewrite ?app_nil_r; eauto. }
  destruct Hsome as [m Hm]. exists m. split; [exact Hm|].
  apply re_source_inv in Hm
    as (file' & l' & c' & Heq & _ & _ & _ & Hld' & _ & Hcd' & <- & <- & <-).
  cbn [lit list_ascii_of_string app] in Heq.
  assert (Heq' : (file ++ ":"%char :: l) ++ ":"%char :: c
                 = (capture m 1 ++ ":"%char :: capture m 2) ++ ":"%char :: capture m 3).
  { rewrite <- !app_assoc. exact Heq. }
  apply (split_last_unique (Pat.not_char ":")) in Heq' as [H1 H2];
    [| reflexivity | now apply digits_no_colon | now apply digits_no_colon].
  apply (split_last_unique (Pat.not_char ":")) in H1 as [H1 H3];
    [| reflexivity | now apply digits_no_colon | now apply digits_no_colon].
  auto.
Qed.

(** The second group of the nested eval pattern is shorter than the input. *)
Lemma re_eval_nested_inv s m :
  exec Pat.re_eval_nested s = Some m ->
  exists fn inner,
    s = lit "eval at " ++ fn ++ lit " (" ++ inner ++ lit ")"
    /\ fn <> [] /\ forallb (Pat.not_char "(") fn = true
    /\ inner <> [] /\ forallb Js.is_dot inner = true
    /\ capture m 1 = fn /\ capture m 2 = inner.
Proof.
  unfold Pat.re_eval_nested. cbn [seq]. rewrite exec_anchored. intros H.
  apply match_at_sound in H as (i' & s' & c' & HM & ->).
  unfold_pattern HM.
  match goal with H : _ \/ _ |- _ => destruct H as [->|(? & _)]; [|discriminate] end.
  match goal with
  | H1 : forallb Js.is_dot ?inner = true, H2 : forallb (Pat.not_char "(") ?fn = true |- _ =>
      exists fn, inner
  end.
  repeat split; auto; solve_capture.
Qed.

Lemma re_eval_nested_shorter s m :
  exec Pat.re_eval_nested s = Some m -> length (capture m 2) < length s.
Proof.
  intros H. apply re_eval_nested_inv in H as (fn & inner & -> & _ & _ & _ & _ & _ & ->).
  rewrite !length_app. simpl. lia.
Qed.

(** A match of the [sourceMappingURL] pattern is not empty and lies in the
    input. *)
Lemma re_sourceMappingURL_progress from s m :
  exec_from Pat.re_sourceMappingURL from s = Some m ->
  from < lastIndex m <= length s.
Proof.
  unfold exec_from. destruct (Nat.leb_spec from (length s)) as [Hle|]; [|discriminate].
  intros H. apply search_sound in H as (pre & t & Hs & H).
  apply match_at_sound in H as (i' & s' & c' & HM & ->).
  pose proof (Matches_consumes _ _ _ _ _ _ _ HM) as (u & Hu & Hi').
  assert (Hlen : length (drop from s) = length s - from) by apply length_drop.
  rewrite Hs, Hu, !length_app in Hlen. simpl.
  assert (from + length pre < i').
  { unfold Pat.re_sourceMappingURL in HM.
    destruct HM as [HM|HM];
      cbn [Matches seq Str Lit Times lit list_ascii_of_string] in HM;
      break_match; lia. }
  lia.
Qed.

End PatFacts.

(* ================================================================== *)
(** * Facts about lists of lines *)
(* ================================================================== *)

Module ListFacts.

Lemma drop_while_all {A} (p : A -> bool) (u v : list A) :
  forallb p u = true -> Js.drop_while p (u ++ v) = Js.drop_while p v.
Proof.
  induction u as [|x u IH]; simpl; [reflexivity|].
  intros [Hx Hu]%andb_true_iff. rewrite Hx. auto.
Qed.

Lemma forallb_rev {A} (p : A -> bool) (l : list A) :
  forallb p (rev l) = forallb p l.
Proof.
  induction l as [|x l IH]; simpl; [reflexivity|].
  rewrite forallb_app, IH. simpl. rewrite andb_true_r. apply andb_comm.
Qed.

(** The last element that fails a test, and what follows it. *)
Lemma last_failing {A} (p : A -> bool) (l : list A) :
  forallb p l = false ->
  exists a x b, l = a ++ x :: b /\ p x = false /\ forallb p b = true.
Proof.
  induction l as [|y l IH]; simpl; [discriminate|]. intros H.
  destruct (forallb p l) eqn:Hl.
  - rewrite andb_true_r in H. exists [], y, l. auto.
  - destruct (IH eq_refl) as (a & x & b & -> & Hx & Hb).
    exists (y :: a), x, b. auto.
Qed.

Lemma insert_at_end {A} (a : list A) (x v : A) :
  <[length a := v]> (a ++ [x]) = a ++ [v].
Proof. induction a as [|y a IH]; simpl; [reflexivity|]. now rewrite IH. Qed.

(** Splitting what was joined. *)
Lemma split_cons_free sep (piece s : str) :
  ~ In sep piece ->
  Js.split sep (piece ++ sep :: s) = piece :: Js.split sep s.
Proof.
  induction piece as [|c piece IH]; simpl; intros Hfree.
  - now rewrite Ascii.eqb_refl.
  - destruct (Ascii.eqb_spec c sep) as [->|Hne]; [tauto|].
    rewrite IH by tauto. reflexivity.
Qed.

Lemma split_free sep (piece : str) :
  ~ In sep piece -> Js.split sep piece = [piece].
Proof.
  induction piece as [|c piece IH]; simpl; intros Hfree; [reflexivity|].
  destruct (Ascii.eqb_spec c sep) as [->|Hne]; [tauto|].
  rewrite IH by tauto. reflexivity.
Qed.

Lemma split_join sep (pieces : list str) :
  pieces <> [] ->
  Forall (fun piece => ~ In sep piece) pieces ->
  Js.split sep (Js.join sep pieces) = pieces.
Proof.
  induction pieces as [|piece pieces IH]; [contradiction|].
  intros _ Hfree. inversion Hfree as [|? ? Hpiece Hrest]; subst.
  destruct pieces as [|piece' pieces]; simpl.
  - now apply split_free.
  - rewrite split_cons_free by assumption. f_equal. apply IH; [discriminate|assumption].
Qed.

Lemma split_pieces_free sep (s : str) :
  Forall (fun piece => ~ In sep piece) (Js.split sep s).
Proof.
  induction s as [|c s IH]; simpl; [repeat constructor; tauto|].
  destruct (Ascii.eqb_spec c sep) as [->|Hne].
  - constructor; [tauto|assumption].
  - destruct (Js.split sep s) as [|piece pieces]; [repeat constructor; simpl; tauto|].
    inversion IH; subst. constructor; [simpl; tauto|assumption].
Qed.

End ListFacts.

(* ================================================================== *)
(** * Facts about the program *)
(* ================================================================== *)

Import Regex RegexFacts SearchFacts PatFacts ListFacts.

Section ProgramFacts.
Context `{host : Host}.

Lemma bind_Ok {A B} (m : M A) (f : A -> M B) st a st' :
  m st = Ok a st' -> bind m f st = f a st'.
Proof. unfold bind. now intros ->. Qed.

Lemma bind_Throw {A B} (m : M A) (f : A -> M B) st st' :
  m st = Throw st' -> bind m f st = Throw st'.
Proof. unfold bind. now intros ->. Qed.

Lemma bind_Ok_inv {A B} (m : M A) (f : A -> M B) st b st2 :
  bind m f st = Ok b st2 -> exists a st1, m st = Ok a st1 /\ f a st1 = Ok b st2.
Proof. unfold bind. destruct (m st); [eauto|discriminate]. Qed.

Lemma store_of_bind_ret {A B} (m : M A) (b : B) st :
  store_of (bind m (fun _ => ret b) st) = store_of (m st).
Proof. unfold bind. destruct (m st); reflexivity. Qed.

(** ** The file handler *)

Lemma retrieveFileHandler_hit path st contents :
  fileContentsCache st !! normalize_path path = Some contents ->
  retrieveFileHandler path st = Ok contents st.
Proof. unfold retrieveFileHandler. now intros ->. Qed.

Lemma retrieveFileHandler_miss path st :
  fileContentsCache st !! normalize_path path = None ->
  exists events,
    retrieveFileHandler path st
    = Ok (Js.Text (disk_contents (normalize_path path)))
         (mkStore (<[normalize_path path := Js.Text (disk_contents (normalize_path path))]>
                     (fileContentsCache st))
                  (sourceMapCache st) (events ++ trace st))
    /\ Forall (fun e => forall src, is_retrieval src e = false) events.
Proof.
  unfold retrieveFileHandler, disk_contents. intros Hc. rewrite Hc.
  unfold bind, log, set_fileContents, ret. simpl.
  destruct (fs_existsSync (normalize_path path)); simpl.
  - destruct (fs_readFileSync (normalize_path path)); simpl; rewrite Hc;
      exists [ReadFileSync (normalize_path path); ExistsSync (normalize_path path)];
      (split; [reflexivity|repeat constructor]).
  - rewrite Hc. exists [ExistsSync (normalize_path path)].
    split; [reflexivity|repeat constructor].
Qed.


(** ** Computations that only retrieve *)

Lemma retrieval_step_refl src st : retrieval_step src st st.
Proof. repeat split; auto. exists []. split; [reflexivity|constructor]. Qed.

Lemma retrieval_step_trans src st1 st2 st3 :
  retrieval_step src st1 st2 -> retrieval_step src st2 st3 ->
  retrieval_step src st1 st3.
Proof.
  intros (Hv1 & Hc1 & e1 & Ht1 & He1) (Hv2 & Hc2 & e2 & Ht2 & He2).
  repeat split.
  - intros p. now rewrite Hv2, Hv1.
  - congruence.
  - exists (e2 ++ e1). split; [rewrite Ht2, Ht1; now rewrite app_assoc|].
    apply Forall_app; auto.
Qed.

Lemma retrieves_ret {A} src (a : A) : retrieves src (ret a).
Proof.
  intros st. exists a, st. split; [reflexivity|]. split; [apply retrieval_step_refl|].
  reflexivity.
Qed.

Lemma retrieves_bind {A B} src (m : M A) (f : A -> M B) :
  retrieves src m -> (forall a, retrieves src (f a)) -> retrieves src (bind m f).
Proof.
  intros Hm Hf st.
  destruct (Hm st) as (a & st1 & Hrun & Hstep & Hdet).
  destruct (Hf a st1) as (b & st2 & Hrun2 & Hstep2 & Hdet2).
  exists b, st2. split; [now rewrite (bind_Ok _ _ _ _ _ Hrun)|].
  split; [eapply retrieval_step_trans; eauto|].
  intros st' Hview.
  destruct (Hm st') as (a' & st1' & Hrun' & Hstep' & _).
  pose proof (Hdet st' Hview) as Ha. rewrite Hrun' in Ha. injection Ha as ->.
  rewrite (bind_Ok _ _ _ _ _ Hrun'). apply Hdet2.
  intros p. destruct Hstep' as (Hv' & _), Hstep as (Hv & _).
  now rewrite Hv', Hview, Hv.
Qed.

Lemma retrieves_log src e :
  (forall s, s <> src -> is_retrieval s e = false) -> retrieves src (log e).
Proof.
  intros He st. eexists tt, _. split; [reflexivity|]. split; [|reflexivity].
  repeat split. exists [e]. split; [reflexivity|]. repeat constructor. exact He.
Qed.

Lemma view_insert_same st p :
  fileContentsCache st !! p = None ->
  forall q, default (Js.Text (disk_contents q))
              (<[p := Js.Text (disk_contents p)]> (fileContentsCache st) !! q)
            = view st q.
Proof.
  intros Hp q. unfold view. destruct (decide (p = q)) as [->|Hne].
  - now rewrite lookup_insert_eq, Hp.
  - now rewrite lookup_insert_ne.
Qed.

Lemma retrieveFileHandler_view src path st :
  exists st1,
    retrieveFileHandler path st = Ok (view st (normalize_path path)) st1
    /\ retrieval_step src st st1.
Proof.
  destruct (fileContentsCache st !! normalize_path path) as [contents|] eqn:Hc.
  - exists st. rewrite (retrieveFileHandler_hit _ _ _ Hc). unfold view. rewrite Hc.
    split; [reflexivity|apply retrieval_step_refl].
  - destruct (retrieveFileHandler_miss _ _ Hc) as (events & -> & Hev).
    eexists. unfold view at 1. rewrite Hc. split; [reflexivity|].
    repeat split.
    + intros q. unfold view at 1. simpl. now apply view_insert_same.
    + exists events. split; [reflexivity|].
      eapply Forall_impl; [exact Hev|]. auto.
Qed.

Lemma retrieves_retrieveFileHandler src path : retrieves src (retrieveFileHandler path).
Proof.
  intros st. destruct (retrieveFileHandler_view src path st) as (st1 & Hrun & Hstep).
  eexists _, st1. split; [exact Hrun|]. split; [exact Hstep|].
  intros st' Hview. destruct (retrieveFileHandler_view src path st') as (st1' & -> & _).
  simpl. now rewrite Hview.
Qed.

Lemma retrieves_retrieveFile src path : retrieves src (retrieveFile path).
Proof.
  unfold retrieveFile, retrieveFileHandlers. simpl.
  apply retrieves_bind; [apply retrieves_retrieveFileHandler|].
  intros contents. destruct (Js.truthy_value contents); apply retrieves_ret.
Qed.

Lemma retrieves_retrieveSourceMapURL src s : retrieves src (retrieveSourceMapURL s).
Proof.
  unfold retrieveSourceMapURL.
  apply retrieves_bind; [apply retrieves_retrieveFile|].
  intros fileData.
  destruct (lastMatch_loop _ _ _ _); apply retrieves_ret.
Qed.

Lemma is_retrieval_other s src : s <> src -> is_retrieval s (RetrieveSourceMap src) = false.
Proof.
  intros Hne. simpl. apply JsFacts.str_eqb_neq. congruence.
Qed.

Lemma retrieves_retrieveMapHandler src : retrieves src (retrieveMapHandler src).
Proof.
  unfold retrieveMapHandler.
  apply retrieves_bind; [apply retrieves_log; intros; now apply is_retrieval_other|].
  intros _. apply retrieves_bind; [apply retrieves_retrieveSourceMapURL|].
  intros [[|c url]|]; try apply retrieves_ret.
  apply retrieves_bind.
  - destruct (Regex.test _ _); [apply retrieves_ret|].
    apply retrieves_bind; [apply retrieves_retrieveFile|]. intros; apply retrieves_ret.
  - intros [url' [[[|d data]|text]|]]; apply retrieves_ret.
Qed.

(** [retrieveSourceMap] never throws; it leaves the view of the files and
    the source-map cache as they are; its result depends on the view only;
    and it runs the retrieval handler for its argument only. *)
Lemma retrieves_retrieveSourceMap src : retrieves src (retrieveSourceMap src).
Proof.
  unfold retrieveSourceMap, retrieveMapHandlers. simpl.
  apply retrieves_bind; [|intros; apply retrieves_ret].
  apply retrieves_bind; [apply retrieves_retrieveMapHandler|].
  intros r. destruct (bool_decide _); apply retrieves_ret.
Qed.


(** ** The source-map cache *)

Lemma retrievals_step src s st st1 :
  retrieval_step src st st1 -> s <> src -> retrievals s st1 = retrievals s st.
Proof.
  intros (_ & _ & events & Ht & Hev) Hne. unfold retrievals. rewrite Ht.
  rewrite filter_app, length_app.
  assert (Hnil : filter (fun e => is_retrieval s e = true) events = []).
  { clear Ht. induction Hev as [|e events He _ IH]; [reflexivity|].
    rewrite filter_cons, (He s Hne). simpl. exact IH. }
  now rewrite Hnil.
Qed.

Lemma sourceMap_for_cached src st sourceMap :
  sourceMapCache st !! src = Some sourceMap ->
  sourceMap_for src st = Ok sourceMap st.
Proof. unfold sourceMap_for. now intros ->. Qed.

Lemma sourceMap_for_negative src st st1 :
  sourceMapCache st !! src = None ->
  retrieveSourceMap src st = Ok None st1 ->
  sourceMap_for src st
  = Ok negative_entry
       (mkStore (fileContentsCache st1)
                (<[src := negative_entry]> (sourceMapCache st1)) (trace st1)).
Proof.
  unfold sourceMap_for. intros -> Hr.
  rewrite (bind_Ok _ _ _ _ _ Hr). reflexivity.
Qed.

(** An assignment to the file cache returns, and touches the file cache
    only. *)
Lemma set_fileContents_store path contents st :
  exists files,
    set_fileContents path contents st
    = Ok tt (mkStore files (sourceMapCache st) (trace st)).
Proof.
  unfold set_fileContents. destruct st as [files maps events]. simpl.
  destruct (files !! path) as [[text|text]|]; try destruct (Js.str_eqb _ _); eauto.
Qed.

(** What the assignment leaves in the file cache: the other names as they
    were, and the text under the assigned name unless that is
    [__proto__]. *)
Lemma set_fileContents_spec path contents st :
  exists st1,
    set_fileContents path contents st = Ok tt st1
    /\ (forall other, other <> path ->
          fileContentsCache st1 !! other = fileContentsCache st !! other)
    /\ (path <> lit "__proto__" ->
        fileContentsCache st1 !! path = Some (Js.Text contents)).
Proof.
  unfold set_fileContents.
  destruct (fileContentsCache st !! path) as [[text|text]|];
    try destruct (Js.str_eqb path (lit "__proto__")) eqn:Hproto;
    eexists; (split; [reflexivity|]); simpl; split;
    try (intros other Hne; now rewrite lookup_insert_ne by congruence);
    try (intros _; now rewrite lookup_insert_eq).
  - reflexivity.
  - intros Hne. now apply JsFacts.str_eqb_eq in Hproto.
Qed.

Lemma cache_inline_sources_store sourceMap consumer srcs :
  forall st,
    sourceMapCache (store_of (cache_inline_sources sourceMap consumer srcs st))
    = sourceMapCache st
    /\ trace (store_of (cache_inline_sources sourceMap consumer srcs st)) = trace st.
Proof.
  induction srcs as [|src srcs IH]; intros st; simpl; [auto|].
  unfold bind, call. destruct (sourceContentFor consumer src) as [[[|c cs]|]|];
    simpl; try apply IH; auto.
  destruct (set_fileContents_store (supportRelativeURL (cm_url sourceMap) src)
                                   (c :: cs) st) as (files & ->).
  destruct (IH (mkStore files (sourceMapCache st) (trace st))) as [H1 H2].
  simpl in *. auto.
Qed.

(** What looking a source up can do to the store: the entries of the other
    sources stay, no handler runs for another source, and nothing happens
    at all when the source has an entry. *)
Lemma sourceMap_for_store src st :
  (forall s, s <> src ->
     sourceMapCache (store_of (sourceMap_for src st)) !! s = sourceMapCache st !! s)
  /\ (forall sourceMap, sourceMapCache st !! src = Some sourceMap ->
       store_of (sourceMap_for src st) = st)
  /\ (forall s, s <> src ->
       retrievals s (store_of (sourceMap_for src st)) = retrievals s st).
Proof.
  split; [|split].
  - intros s Hne. unfold sourceMap_for.
    destruct (sourceMapCache st !! src) eqn:Hc; [reflexivity|].
    destruct (retrieves_retrieveSourceMap src st) as (r & st1 & Hrun & (_ & Hsm & _) & _).
    rewrite (bind_Ok _ _ _ _ _ Hrun). destruct r as [urlAndMap|].
    + unfold bind at 1, call. destruct (SourceMapConsumer_new _) as [consumer|];
        simpl; [|now rewrite Hsm].
      unfold bind at 1, set_sourceMap; cbv beta iota.
      pose proof (cache_inline_sources_store
                    (mkEntry (um_url urlAndMap) (Some consumer)) consumer
                    (sources consumer)
                    (mkStore (fileContentsCache st1)
                             (<[src := mkEntry (um_url urlAndMap) (Some consumer)]>
                                (sourceMapCache st1)) (trace st1))) as [H1 _].
      rewrite store_of_bind_ret, H1. simpl.
      rewrite lookup_insert_ne, Hsm by congruence. reflexivity.
    + simpl. rewrite lookup_insert_ne, Hsm by congruence. reflexivity.
  - intros sourceMap Hc. now rewrite (sourceMap_for_cached _ _ _ Hc).
  - intros s Hne. unfold sourceMap_for.
    destruct (sourceMapCache st !! src) eqn:Hc; [reflexivity|].
    destruct (retrieves_retrieveSourceMap src st) as (r & st1 & Hrun & Hstep & _).
    pose proof (retrievals_step _ _ _ _ Hstep Hne) as Hcount.
    rewrite (bind_Ok _ _ _ _ _ Hrun). destruct r as [urlAndMap|].
    + unfold bind at 1, call. destruct (SourceMapConsumer_new _) as [consumer|];
        simpl; [|exact Hcount].
      unfold bind at 1, set_sourceMap; cbv beta iota.
      pose proof (cache_inline_sources_store
                    (mkEntry (um_url urlAndMap) (Some consumer)) consumer
                    (sources consumer)
                    (mkStore (fileContentsCache st1)
                             (<[src := mkEntry (um_url urlAndMap) (Some consumer)]>
                                (sourceMapCache st1)) (trace st1))) as [_ H2].
      rewrite store_of_bind_ret. unfold retrievals in *. rewrite H2. exact Hcount.
    + simpl. exact Hcount.
Qed.

Lemma mapSourcePosition_store position st :
  store_of (mapSourcePosition position st)
  = store_of (sourceMap_for (source position) st).
Proof.
  unfold mapSourcePosition, bind.
  destruct (sourceMap_for (source position) st) as [sourceMap st1|st1]; [|reflexivity].
  destruct (cm_map sourceMap) as [consumer|]; [|reflexivity].
  unfold call. destruct (originalPositionFor consumer position) as [original|];
    [|reflexivity].
  simpl. destruct (mapped_source original); reflexivity.
Qed.

(** ** The claims about the caches *)

(** The file handler, the default strategy of the Content Store, never
    throws. For a path under whose normal form a lookup in the cache object
    finds nothing and whose file does not exist or cannot be read, it
    caches the empty string and returns it (and the dispatcher
    [retrieveFile] makes [null] of it); for a path under whose normal form
    a lookup finds a value, stored or inherited, it returns that value and
    leaves the store, the trace of file-system calls included, as it is. *)
Lemma retrieveFileHandler_never_throws (path : str) (st : Store) :
  (exists contents st', retrieveFileHandler path st = Ok contents st')
  /\ (exists result st', retrieveFile path st = Ok result st')
  /\ (fileContentsCache st !! normalize_path path = None ->
      fs_existsSync (normalize_path path) = false
      \/ fs_readFileSync (normalize_path path) = Throws ->
      exists st',
        retrieveFileHandler path st = Ok (Js.Text []) st'
        /\ fileContentsCache st'
           = <[normalize_path path := Js.Text []]> (fileContentsCache st)
        /\ retrieveFile path st = Ok None st')
  /\ (forall contents,
        fileContentsCache st !! normalize_path path = Some contents ->
        retrieveFileHandler path st = Ok contents st).
Proof.
  split; [|split; [|split]].
  - destruct (retrieveFileHandler_view [] path st) as (st1 & H & _). eauto.
  - destruct (retrieves_retrieveFile [] path st) as (r & st1 & H & _). eauto.
  - intros Hmiss Hfail.
    destruct (retrieveFileHandler_miss _ _ Hmiss) as (events & Hrun & _).
    assert (Hdisk : disk_contents (normalize_path path) = []).
    { unfold disk_contents. destruct Hfail as [->| ->]; [reflexivity|].
      destruct (fs_existsSync _); reflexivity. }
    rewrite Hdisk in Hrun. eexists. split; [exact Hrun|]. split; [reflexivity|].
    unfold retrieveFile, retrieveFileHandlers. simpl.
    rewrite (bind_Ok _ _ _ _ _ Hrun). reflexivity.
  - intros contents Hhit. now apply retrieveFileHandler_hit.
Qed.

(** C3: when the cache has no entry for a source and the retrieval handlers
    return [null], [mapSourcePosition] stores the negative entry
    [{url: null, map: null}] for it; a call for a source with the negative
    entry returns its argument and leaves the store as it is, so it runs no
    handler; and no call, whatever its position and its outcome, removes
    the entry or runs a handler for that source. *)
Theorem negative_entry_is_terminal (src : str) (st : Store) :
  (forall position st1,
     source position = src ->
     sourceMapCache st !! src = None ->
     retrieveSourceMap src st = Ok None st1 ->
     mapSourcePosition position st
     = Ok position
          (mkStore (fileContentsCache st1)
                   (<[src := negative_entry]> (sourceMapCache st1)) (trace st1)))
  /\ (forall position,
       source position = src ->
       sourceMapCache st !! src = Some negative_entry ->
       mapSourcePosition position st = Ok position st)
  /\ (forall position,
       sourceMapCache st !! src = Some negative_entry ->
       sourceMapCache (store_of (mapSourcePosition position st)) !! src
       = Some negative_entry
       /\ retrievals src (store_of (mapSourcePosition position st))
          = retrievals src st).
Proof.
  split; [|split].
  - intros position st1 <- Hc Hr. unfold mapSourcePosition.
    rewrite (bind_Ok _ _ _ _ _ (sourceMap_for_negative _ _ _ Hc Hr)). reflexivity.
  - intros position <- Hc. unfold mapSourcePosition.
    rewrite (bind_Ok _ _ _ _ _ (sourceMap_for_cached _ _ _ Hc)). reflexivity.
  - intros position Hc. rewrite mapSourcePosition_store.
    destruct (sourceMap_for_store (source position) st) as (Hother & Hsame & Hcount).
    destruct (decide (src = source position)) as [->|Hne].
    + rewrite (Hsame _ Hc). auto.
    + rewrite Hother, Hcount by exact Hne. auto.
Qed.

(** C4: when the source of a position has no source map (its cache entry,
    found or just made, has no decoded map), or the decoded map answers the
    query with a [null] source, [mapSourcePosition] returns the position it
    was given. *)
Theorem mapSourcePosition_unchanged (position : Position) (st st1 : Store)
    (sourceMap : SourceMapConsumerMap) :
  sourceMap_for (source position) st = Ok sourceMap st1 ->
  cm_map sourceMap = None
  \/ (exists consumer original,
        cm_map sourceMap = Some consumer
        /\ originalPositionFor consumer position = Returns original
        /\ mapped_source original = None) ->
  mapSourcePosition position st = Ok position st1.
Proof.
  intros Hfor Hcase. unfold mapSourcePosition. rewrite (bind_Ok _ _ _ _ _ Hfor).
  destruct Hcase as [->|(consumer & original & -> & Horig & Hnull)]; [reflexivity|].
  unfold bind, call. rewrite Horig, Hnull. reflexivity.
Qed.


(** ** The frame parser *)

Lemma forallb_not_char_In a (s : str) :
  forallb (Pat.not_char a) s = true -> ~ In a s.
Proof.
  induction s as [|x s IH]; simpl; [tauto|].
  intros [Hx Hs]%andb_true_iff [->|Hin]; [|now apply IH].
  unfold Pat.not_char, Js.is_char in Hx. now rewrite Ascii.eqb_refl in Hx.
Qed.

Lemma digits_no_paren d :
  forallb Js.is_digit d = true -> forallb (Pat.not_char "(") d = true.
Proof.
  induction d as [|x d IH]; simpl; [reflexivity|].
  intros [Hx Hd]%andb_true_iff. rewrite IH by assumption.
  rewrite andb_true_r. unfold Pat.not_char, Js.is_char.
  destruct (Ascii.eqb_spec "(" x) as [<-|]; [discriminate|reflexivity].
Qed.

Lemma digits_dot d :
  forallb Js.is_digit d = true -> forallb Js.is_dot d = true.
Proof.
  induction d as [|x d IH]; simpl; [reflexivity|].
  intros [Hx Hd]%andb_true_iff. rewrite IH by assumption.
  rewrite andb_true_r. unfold Js.is_digit, Js.is_dot, Js.is_line_terminator in *.
  apply andb_true_iff in Hx as [H1 H2].
  apply Nat.leb_le in H1.
  destruct (Nat.eqb_spec (Js.code x) 10); [lia|].
  destruct (Nat.eqb_spec (Js.code x) 13); [lia|]. reflexivity.
Qed.

Lemma is_frame_shape stackLine fnname file lineno colno :
  is_frame stackLine fnname file lineno colno ->
  stackLine = lit "   at " ++ fnname ++ lit " (" ++ source_text file lineno colno ++ lit ")"
  /\ source_text file lineno colno <> []
  /\ forallb (Pat.not_char "(") (source_text file lineno colno) = true.
Proof.
  intros (-> & _ & _ & Hfile & _ & Hpar & _ & Hl & _ & Hc).
  unfold source_text. split; [now rewrite <- !app_assoc|]. split.
  - destruct file; [contradiction|discriminate].
  - rewrite !forallb_app, Hpar, (digits_no_paren _ Hl), (digits_no_paren _ Hc).
    reflexivity.
Qed.

Lemma source_text_inj file lineno colno file' lineno' colno' :
  forallb Js.is_digit lineno = true -> forallb Js.is_digit colno = true ->
  forallb Js.is_digit lineno' = true -> forallb Js.is_digit colno' = true ->
  source_text file lineno colno = source_text file' lineno' colno' ->
  file = file' /\ lineno = lineno' /\ colno = colno'.
Proof.
  intros Hl Hc Hl' Hc' Heq. unfold source_text in Heq.
  cbn [lit list_ascii_of_string app] in Heq.
  assert (Heq' : (file ++ ":"%char :: lineno) ++ ":"%char :: colno
                 = (file' ++ ":"%char :: lineno') ++ ":"%char :: colno').
  { rewrite <- !app_assoc. exact Heq. }
  apply (split_last_unique (Pat.not_char ":")) in Heq' as [H1 H2];
    [| reflexivity | now apply digits_no_colon | now apply digits_no_colon].
  apply (split_last_unique (Pat.not_char ":")) in H1 as [H1 H3];
    [| reflexivity | now apply digits_no_colon | now apply digits_no_colon].
  auto.
Qed.

(** The parser accepts the frame grammar less the special cases. *)
Lemma parse_frame_sound stackLine fnname position :
  parse_frame stackLine = Some (fnname, position) ->
  exists lineno colno,
    is_frame stackLine fnname (source position) lineno colno
    /\ ~ is_special fnname (source position) lineno colno
    /\ line position = Js.toNumber lineno
    /\ column position = (Js.toNumber colno - 1)%Z.
Proof.
  unfold parse_frame.
  destruct (exec Pat.re_frame stackLine) as [matched|] eqn:Hframe; [|discriminate].
  cbv zeta.
  apply re_frame_inv in Hframe as (fn & src & -> & Hfn & Hdot & Hsrc & Hpar & <- & <-).
  destruct (Js.str_eqb (capture matched 2) (lit "native code")
            || Js.str_eqb (capture matched 2) (lit "native code:0:0")) eqn:Hnative;
    cbv iota; [discriminate|].
  apply orb_false_iff in Hnative as [_ Hnative]. apply JsFacts.str_eqb_neq in Hnative.
  destruct (exec Pat.re_source (capture matched 2)) as [srcmatched|] eqn:Hsource;
    [|discriminate].
  apply re_source_inv in Hsource
    as (file & l & c & Hs & Hfile & Hfdot & Hl & Hld & Hc & Hcd & <- & <- & <-).
  destruct (Js.str_eqb (capture matched 1) (lit "eval code")) eqn:Heval;
    cbv iota; [discriminate|].
  apply JsFacts.str_eqb_neq in Heval.
  intros [= <- <-]. simpl. exists (capture srcmatched 2), (capture srcmatched 3).
  rewrite Hs in Hpar, Hnative |- *. rewrite !forallb_app in Hpar.
  apply andb_true_iff in Hpar as [Hp1 _].
  split; [|split; [|auto]].
  - unfold is_frame. rewrite <- !app_assoc. repeat split; auto.
  - intros [Hev|(Hf & Hlz & Hcz)]; [contradiction|].
    apply Hnative. rewrite Hf, Hlz, Hcz. reflexivity.
Qed.

Lemma parse_frame_complete stackLine fnname file lineno colno :
  is_frame stackLine fnname file lineno colno ->
  ~ is_special fnname file lineno colno ->
  parse_frame stackLine
  = Some (fnname, mkPosition file (Js.toNumber lineno) (Js.toNumber colno - 1)).
Proof.
  intros Hframe Hspecial.
  destruct (is_frame_shape _ _ _ _ _ Hframe) as (-> & Hne & Hpar).
  destruct Hframe as (_ & Hfn & Hdot & Hfile & Hfdot & _ & Hl & Hld & Hc & Hcd).
  destruct (re_frame_intro fnname (source_text file lineno colno) Hfn Hdot Hne Hpar)
    as (matched & Hexec & H1 & H2).
  unfold parse_frame. rewrite Hexec. cbv zeta. rewrite H1, H2.
  destruct (Js.str_eqb (source_text file lineno colno) (lit "native code")) eqn:Hn1.
  { apply JsFacts.str_eqb_eq in Hn1. exfalso.
    assert (Hin : In ":"%char (lit "native code")).
    { rewrite <- Hn1. unfold source_text. apply in_or_app. right. now left. }
    simpl in Hin. intuition discriminate. }
  destruct (Js.str_eqb (source_text file lineno colno) (lit "native code:0:0")) eqn:Hn2.
  { apply JsFacts.str_eqb_eq in Hn2. exfalso. apply Hspecial. right.
    change (lit "native code:0:0") with (source_text (lit "native code") (lit "0") (lit "0"))
      in Hn2.
    apply source_text_inj in Hn2; auto. }
  cbn [orb].
  destruct (re_source_intro file lineno colno Hfile Hfdot Hl Hld Hc Hcd)
    as (srcmatched & Hexec2 & H3 & H4 & H5).
  unfold source_text. rewrite Hexec2, H3, H4, H5.
  destruct (Js.str_eqb fnname (lit "eval code")) eqn:Heval; [|reflexivity].
  apply JsFacts.str_eqb_eq in Heval. exfalso. apply Hspecial. now left.
Qed.

(** A line has at most one reading as a frame. *)
Lemma is_frame_unique stackLine fnname file lineno colno fnname' file' lineno' colno' :
  is_frame stackLine fnname file lineno colno ->
  is_frame stackLine fnname' file' lineno' colno' ->
  fnname = fnname' /\ file = file' /\ lineno = lineno' /\ colno = colno'.
Proof.
  intros H H'.
  destruct (is_frame_shape _ _ _ _ _ H) as (Hs & Hne & Hpar).
  destruct (is_frame_shape _ _ _ _ _ H') as (Hs' & Hne' & Hpar').
  destruct H as (_ & Hfn & Hdot & _ & _ & _ & _ & Hld & _ & Hcd).
  destruct H' as (_ & Hfn' & Hdot' & _ & _ & _ & _ & Hld' & _ & Hcd').
  destruct (re_frame_intro _ _ Hfn Hdot Hne Hpar) as (m & Hexec & H1 & H2).
  destruct (re_frame_intro _ _ Hfn' Hdot' Hne' Hpar') as (m' & Hexec' & H1' & H2').
  rewrite <- Hs in Hexec. rewrite <- Hs', Hexec in Hexec'. injection Hexec' as <-.
  rewrite H1 in H1'. rewrite H2 in H2'.
  apply source_text_inj in H2'; [tauto|auto..].
Qed.

(** A special frame is not parsed. *)
Lemma parse_frame_special stackLine fnname file lineno colno :
  is_frame stackLine fnname file lineno colno ->
  is_special fnname file lineno colno ->
  parse_frame stackLine = None.
Proof.
  intros Hframe Hspecial.
  destruct (parse_frame stackLine) as [[fn position]|] eqn:Hparse; [|reflexivity].
  apply parse_frame_sound in Hparse as (l & c & Hframe' & Hns & _).
  destruct (is_frame_unique _ _ _ _ _ _ _ _ _ Hframe Hframe') as (-> & -> & -> & ->).
  contradiction.
Qed.

(** [remapStackLine] in terms of the parser. *)
Lemma remapStackLine_unparsed stackLine state st :
  parse_frame stackLine = None ->
  exists state',
    remapStackLine stackLine state st = Ok (mkFrameInfo stackLine false, state') st.
Proof.
  unfold parse_frame, remapStackLine. cbv zeta.
  destruct (exec Pat.re_frame stackLine) as [matched|]; [|eauto].
  destruct (_ || _); cbv iota; [eauto|].
  destruct (exec Pat.re_source _) as [srcmatched|]; [|eauto].
  destruct (Js.str_eqb _ _); cbv iota; [eauto|discriminate].
Qed.

Lemma remapStackLine_parsed stackLine state fnname position :
  parse_frame stackLine = Some (fnname, position) ->
  remapStackLine stackLine state
  = (let! mapped := mapSourcePosition position in
     ret (mkFrameInfo (render_frame fnname mapped)
                      (Js.startsWith (source mapped) (lit "internal/")),
          mkStackState (nextPosition state) (Some mapped))).
Proof.
  unfold parse_frame, remapStackLine. cbv zeta.
  destruct (exec Pat.re_frame stackLine) as [matched|]; [|discriminate].
  destruct (_ || _); cbv iota; [discriminate|].
  destruct (exec Pat.re_source _) as [srcmatched|]; [|discriminate].
  destruct (Js.str_eqb _ _); cbv iota; [discriminate|].
  intros [= <- <-]. reflexivity.
Qed.

(** C5: a line that is not a frame of the grammar
    [   at <fn> (<source>:<line>:<column>)], or is one of its two special
    cases (an [eval code] frame, a [native code:0:0] frame), comes back
    from [remapStackLine] as it is, with [internal = false], and the caches
    stay as they are. *)
Theorem remapStackLine_passthrough (stackLine : str) (state : StackState)
    (st : Store) :
  (forall fnname file lineno colno,
     is_frame stackLine fnname file lineno colno ->
     is_special fnname file lineno colno) ->
  exists state',
    remapStackLine stackLine state st = Ok (mkFrameInfo stackLine false, state') st.
Proof.
  intros Hnot. apply remapStackLine_unparsed.
  destruct (parse_frame stackLine) as [[fnname position]|] eqn:Hparse; [|reflexivity].
  apply parse_frame_sound in Hparse as (l & c & Hframe & Hns & _).
  exfalso. eauto.
Qed.


(** ** The snippet of an error *)

(** A line number beyond the lines of a text addresses no piece of the
    split text, or the empty piece after a line terminator at its end. *)
Lemma line_beyond_count contents (i : nat) :
  line_count contents <= i ->
  Js.split_lines contents !! i = None \/ Js.split_lines contents !! i = Some [].
Proof.
  unfold line_count. cbv zeta. rewrite last_lookup.
  destruct (Js.split_lines contents !! pred (length (Js.split_lines contents)))
    as [[|c piece]|] eqn:Hlast; intros Hi.
  - destruct (decide (i = pred (length (Js.split_lines contents)))) as [->|Hne].
    + now right.
    + left. apply lookup_ge_None_2. lia.
  - left. apply lookup_ge_None_2. lia.
  - left. apply lookup_ge_None_2. lia.
Qed.

(** When the first frame that [getErrorSource] finds in the stack names a
    source whose contents, cached or read from the disk, are a text, and the
    frame's line number is greater than the number of lines of the text, the
    result is [null]; the line after a final line terminator counts as
    beyond the text. *)
Lemma getErrorSource_line_beyond_contents (stack : str) (st st1 : Store)
    (m : MatchResult) (contents : str) :
  exec Pat.re_first_frame stack = Some m ->
  errorSource_contents (capture m 1) st = Ok (Some (Js.Text contents)) st1 ->
  (Z.of_nat (line_count contents) < Js.toNumber (capture m 2))%Z ->
  getErrorSource stack st = Ok None st1.
Proof.
  intros Hexec Hcontents Hlines. unfold getErrorSource. rewrite Hexec.
  cbv zeta. rewrite (bind_Ok _ _ _ _ _ Hcontents).
  destruct contents as [|c cs]; [reflexivity|].
  unfold array_get.
  destruct (Z.ltb_spec (Js.toNumber (capture m 2) - 1) 0) as [|Hpos]; [reflexivity|].
  destruct (line_beyond_count (c :: cs) (Z.to_nat (Js.toNumber (capture m 2) - 1)))
    as [-> | ->]; [lia|reflexivity..].
Qed.

(** ** The eval origin *)

Lemma mapEvalOrigin_fuel_unfold fuel origin st :
  mapEvalOrigin_fuel fuel origin st
  = match exec Pat.re_eval origin with
    | Some m =>
        Some ((let! position :=
                 mapSourcePosition
                   (mkPosition (capture m 2) (Js.toNumber (capture m 3))
                               (Js.toNumber (capture m 4) - 1)) in
               ret (lit "eval at " ++ capture m 1 ++ lit " ("
                      ++ source position ++ lit ":"
                      ++ Js.numberToString (line position) ++ lit ":"
                      ++ Js.numberToString (column position + 1) ++ lit ")")) st)
    | None =>
        match exec Pat.re_eval_nested origin with
        | Some m =>
            match fuel with
            | 0 => None
            | S fuel' =>
                match mapEvalOrigin_fuel fuel' (capture m 2) st with
                | Some (Ok inner st') =>
                    Some (Ok (lit "eval at " ++ capture m 1 ++ lit " ("
                                ++ inner ++ lit ")") st')
                | Some (Throw st') => Some (Throw st')
                | None => None
                end
            end
        | None => Some (Ok origin st)
        end
    end.
Proof. destruct fuel; reflexivity. Qed.

(** Fuel of the length of the origin is enough, and more changes nothing. *)
Lemma mapEvalOrigin_fuel_enough fuel :
  forall fuel' origin st,
    length origin <= fuel -> length origin <= fuel' ->
    is_Some (mapEvalOrigin_fuel fuel origin st)
    /\ mapEvalOrigin_fuel fuel' origin st = mapEvalOrigin_fuel fuel origin st.
Proof.
  induction fuel as [|fuel IH]; intros fuel' origin st Hfuel Hfuel';
    rewrite (mapEvalOrigin_fuel_unfold fuel'), (mapEvalOrigin_fuel_unfold _ origin);
    destruct (exec Pat.re_eval origin) as [m|]; eauto;
    destruct (exec Pat.re_eval_nested origin) as [m|] eqn:Hnested; eauto;
    apply re_eval_nested_shorter in Hnested.
  - lia.
  - destruct fuel' as [|fuel']; [lia|].
    destruct (IH fuel' (capture m 2) st) as [[r Hr] Heq]; [lia..|].
    rewrite Heq, Hr. destruct r; eauto.
Qed.

Lemma exec_eval_doubly_nested :
  exec Pat.re_eval (lit "eval at f (eval at g (file.js:10:5))") = None
  /\ exec Pat.re_eval_nested (lit "eval at f (eval at g (file.js:10:5))")
     = Some (mkMatch 0 36 [Some (lit "eval at f (eval at g (file.js:10:5))");
                           Some (lit "f"); Some (lit "eval at g (file.js:10:5)")])
  /\ exec Pat.re_eval (lit "eval at g (file.js:10:5)")
     = Some (mkMatch 0 24 [Some (lit "eval at g (file.js:10:5)"); Some (lit "g");
                           Some (lit "file.js"); Some (lit "10"); Some (lit "5")]).
Proof. repeat split; vm_compute; reflexivity. Qed.

(** C7: [mapEvalOrigin] terminates on every input: fuel of the length of
    the input is enough for the recursion on the nested form, and more fuel
    gives the same result. Input that matches neither form comes back
    unchanged. On the doubly nested [eval at f (eval at g (file.js:10:5))]
    the innermost position, line 10 and column 5 - 1 of [file.js], goes
    through [mapSourcePosition], and the text around it keeps both
    levels. *)
Theorem mapEvalOrigin_terminates (origin : str) (st : Store) :
  (exists result, mapEvalOrigin origin st = Some result)
  /\ (forall fuel, length origin <= fuel ->
        mapEvalOrigin_fuel fuel origin st = mapEvalOrigin origin st)
  /\ (exec Pat.re_eval origin = None ->
      exec Pat.re_eval_nested origin = None ->
      mapEvalOrigin origin st = Some (Ok origin st))
  /\ mapEvalOrigin (lit "eval at f (eval at g (file.js:10:5))") st
     = Some ((let! position := mapSourcePosition (mkPosition (lit "file.js") 10 4) in
              ret (lit "eval at f (eval at g (" ++ source position ++ lit ":"
                     ++ Js.numberToString (line position) ++ lit ":"
                     ++ Js.numberToString (column position + 1) ++ lit "))")) st).
Proof.
  split; [|split; [|split]].
  - apply (mapEvalOrigin_fuel_enough (length origin) (length origin)); lia.
  - intros fuel Hfuel.
    apply (mapEvalOrigin_fuel_enough (length origin) fuel); lia.
  - intros H1 H2. unfold mapEvalOrigin. now rewrite mapEvalOrigin_fuel_unfold, H1, H2.
  - destruct exec_eval_doubly_nested as (H1 & H2 & H3).
    unfold mapEvalOrigin.
    change (length (lit "eval at f (eval at g (file.js:10:5))")) with 36.
    rewrite mapEvalOrigin_fuel_unfold, H1, H2. cbv iota.
    change (capture _ 2) with (lit "eval at g (file.js:10:5)").
    rewrite mapEvalOrigin_fuel_unfold, H3.
    change (capture _ 1) with (lit "g") at 1.
    unfold bind.
    destruct (mapSourcePosition _ st) as [position st1|st1]; [|reflexivity].
    unfold ret. simpl. repeat (rewrite <- app_assoc; simpl). reflexivity.
Qed.

(** ** Sources without a source map *)

Lemma no_source_map_step src' st st1 src :
  retrieval_step src' st st1 -> no_source_map st src -> no_source_map st1 src.
Proof.
  intros (Hview & Hsm & _). unfold no_source_map. rewrite Hsm.
  destruct (sourceMapCache st !! src); [auto|]. intros Hnone.
  destruct (retrieves_retrieveSourceMap src st) as (r & st' & Hrun & _ & Hdet).
  rewrite Hrun in Hnone. injection Hnone as ->. apply Hdet, Hview.
Qed.

(** For a source without a source map, [mapSourcePosition] returns its
    argument, and the sources without a source map stay so. *)
Lemma mapSourcePosition_unmapped position st :
  no_source_map st (source position) ->
  exists st1,
    mapSourcePosition position st = Ok position st1
    /\ forall src, no_source_map st src -> no_source_map st1 src.
Proof.
  intros Hno. unfold no_source_map in Hno.
  destruct (sourceMapCache st !! source position) as [sourceMap|] eqn:Hc.
  - exists st. split; [|auto].
    unfold mapSourcePosition.
    rewrite (bind_Ok _ _ _ _ _ (sourceMap_for_cached _ _ _ Hc)), Hno. reflexivity.
  - destruct (retrieves_retrieveSourceMap (source position) st)
      as (r & st0 & Hrun & Hstep & _).
    rewrite Hrun in Hno. injection Hno as ->.
    eexists. split.
    + unfold mapSourcePosition.
      rewrite (bind_Ok _ _ _ _ _ (sourceMap_for_negative _ _ _ Hc Hrun)). reflexivity.
    + intros src Hsrc. apply (no_source_map_step _ _ _ _ Hstep) in Hsrc.
      unfold no_source_map in *. simpl.
      destruct (decide (source position = src)) as [->|Hne].
      * now rewrite lookup_insert_eq.
      * rewrite lookup_insert_ne by exact Hne.
        destruct (sourceMapCache st0 !! src); [exact Hsrc|].
        destruct (retrieves_retrieveSourceMap src st0) as (r & st' & Hrun' & _ & Hdet).
        rewrite Hrun' in Hsrc. injection Hsrc as ->. apply Hdet. reflexivity.
Qed.

(** A line whose source has no source map: [remapStackLine] prints it
    again, and calls it internal by its own file. *)
Lemma remapStackLine_unmapped stackLine state st :
  unmapped_frame st stackLine ->
  exists state' st1,
    remapStackLine stackLine state st
    = Ok (mkFrameInfo (rerender stackLine) (internal_unmapped stackLine), state') st1
    /\ forall src, no_source_map st src -> no_source_map st1 src.
Proof.
  intros Hno. unfold rerender, internal_unmapped.
  destruct (parse_frame stackLine) as [[fnname position]|] eqn:Hparse.
  - destruct (mapSourcePosition_unmapped position st (Hno _ _ Hparse))
      as (st1 & Hmap & Hkeep).
    rewrite (remapStackLine_parsed _ state _ _ Hparse), (bind_Ok _ _ _ _ _ Hmap).
    eauto.
  - destruct (remapStackLine_unparsed _ state st Hparse) as (state' & ->). eauto.
Qed.

(** ** Printing a frame again *)

Lemma uint_chars_digits d : forallb Js.is_digit (Js.uint_chars d) = true.
Proof. induction d; simpl; auto. Qed.

Lemma numberToString_digits n :
  (0 <= n)%Z ->
  Js.numberToString n <> [] /\ forallb Js.is_digit (Js.numberToString n) = true.
Proof.
  intros Hn. destruct n as [|p|p]; [split; [discriminate|reflexivity]| |lia].
  simpl. split; [|apply uint_chars_digits].
  pose proof (Unsigned.to_uint_nonnil p) as Hnil.
  destruct (Pos.to_uint p); [contradiction|discriminate..].
Qed.

(** What a parsed line is printed as, and how that reads. *)
Lemma rerender_parsed stackLine fnname position :
  parse_frame stackLine = Some (fnname, position) ->
  exists lineno colno,
    rerender stackLine = render_frame fnname position
    /\ is_frame (rerender stackLine) fnname (source position) lineno colno
    /\ Js.toNumber lineno = line position
    /\ (Js.toNumber colno - 1)%Z = column position.
Proof.
  intros Hparse. unfold rerender. rewrite Hparse.
  apply parse_frame_sound in Hparse
    as (l & c & (_ & Hfn & Hdot & Hfile & Hfdot & Hpar & _) & _ & Hline & Hcol).
  destruct (numberToString_digits (line position)) as [Hl1 Hl2];
    [rewrite Hline; apply JsFacts.toNumber_nonneg|].
  destruct (numberToString_digits (column position + 1)) as [Hc1 Hc2];
    [rewrite Hcol; pose proof (JsFacts.toNumber_nonneg c); lia|].
  exists (Js.numberToString (line position)), (Js.numberToString (column position + 1)).
  split; [reflexivity|]. split; [|split].
  - unfold is_frame, render_frame. repeat split; auto.
  - rewrite JsFacts.toNumber_numberToString; [reflexivity|].
    rewrite Hline; apply JsFacts.toNumber_nonneg.
  - rewrite JsFacts.toNumber_numberToString; [lia|].
    rewrite Hcol; pose proof (JsFacts.toNumber_nonneg c); lia.
Qed.

Lemma rerender_unparsed stackLine :
  parse_frame stackLine = None -> rerender stackLine = stackLine.
Proof. unfold rerender. now intros ->. Qed.

(** The printed line is parsed, if at all, as the same position. *)
Lemma parse_frame_rerender stackLine fnname position :
  parse_frame (rerender stackLine) = Some (fnname, position) ->
  parse_frame stackLine = Some (fnname, position).
Proof.
  destruct (parse_frame stackLine) as [[fn pos]|] eqn:Hparse.
  - destruct (rerender_parsed _ _ _ Hparse) as (l & c & _ & Hframe & Hl & Hc).
    intros Hre. apply parse_frame_sound in Hre as (l' & c' & Hframe' & _ & Hl' & Hc').
    destruct (is_frame_unique _ _ _ _ _ _ _ _ _ Hframe Hframe') as (-> & Hs & -> & ->).
    destruct pos, position. simpl in *. congruence.
  - now rewrite (rerender_unparsed _ Hparse), Hparse.
Qed.

(** Printing again is idempotent. *)
Lemma rerender_idem stackLine : rerender (rerender stackLine) = rerender stackLine.
Proof.
  destruct (parse_frame (rerender stackLine)) as [[fn pos]|] eqn:Hre.
  - pose proof (parse_frame_rerender _ _ _ Hre) as Hparse.
    unfold rerender at 1. rewrite Hre. unfold rerender. now rewrite Hparse.
  - now apply rerender_unparsed.
Qed.

Lemma is_special_dec fnname file lineno colno :
  is_special fnname file lineno colno \/ ~ is_special fnname file lineno colno.
Proof.
  unfold is_special.
  destruct (decide (fnname = lit "eval code")); [tauto|].
  destruct (decide (file = lit "native code")); [|tauto].
  destruct (decide (lineno = lit "0")); [|tauto].
  destruct (decide (colno = lit "0")); tauto.
Qed.

Lemma internal_unmapped_rerender stackLine :
  internal_unmapped (rerender stackLine) = internal_unmapped stackLine.
Proof.
  unfold internal_unmapped at 1.
  destruct (parse_frame (rerender stackLine)) as [[fn pos]|] eqn:Hre.
  - apply parse_frame_rerender in Hre. unfold internal_unmapped. now rewrite Hre.
  - unfold internal_unmapped.
    destruct (parse_frame stackLine) as [[fn pos]|] eqn:Hparse; [|reflexivity].
    destruct (rerender_parsed _ _ _ Hparse) as (l & c & _ & Hframe & _).
    pose proof (parse_frame_sound _ _ _ Hparse) as (l0 & c0 & Hframe0 & Hns0 & _).
    destruct (is_special_dec fn (source pos) l c) as [Hsp|Hns].
    + destruct Hsp as [Hev|(Hfile & _)].
      * exfalso. apply Hns0. now left.
      * rewrite Hfile. reflexivity.
    + rewrite (parse_frame_complete _ _ _ _ _ Hframe Hns) in Hre. discriminate.
Qed.

Lemma unmapped_frame_rerender st stackLine :
  unmapped_frame st stackLine -> unmapped_frame st (rerender stackLine).
Proof.
  intros Hno fn pos Hre. apply parse_frame_rerender in Hre. eauto.
Qed.

(** A line with canonical numbers is printed as it is. *)
Lemma rerender_canonical stackLine :
  canonical_numbers stackLine -> rerender stackLine = stackLine.
Proof.
  intros Hcanon. unfold rerender.
  destruct (parse_frame stackLine) as [[fn pos]|] eqn:Hparse; [|reflexivity].
  apply parse_frame_sound in Hparse as (l & c & Hframe & _ & Hline & Hcol).
  destruct (Hcanon _ _ _ _ Hframe) as (Hl & Hc & _).
  destruct Hframe as (-> & _). unfold render_frame.
  rewrite Hline, Hcol, Hl. replace (Js.toNumber c - 1 + 1)%Z with (Js.toNumber c) by lia.
  now rewrite Hc.
Qed.

(** ** The frames that stay *)

Lemma trim_internal_split (a b : list str) (x : str) :
  internal_unmapped x = false ->
  forallb internal_unmapped b = true ->
  trim_internal (a ++ x :: b) = a ++ [x].
Proof.
  intros Hx Hb. unfold trim_internal.
  rewrite rev_app_distr. simpl. rewrite <- app_assoc. simpl.
  rewrite drop_while_all by now rewrite forallb_rev.
  simpl. rewrite Hx. simpl. rewrite rev_involutive. reflexivity.
Qed.

Lemma remapped_unmapped_split (a b : list str) (x : str) :
  internal_unmapped x = false ->
  forallb internal_unmapped b = true ->
  remapped_unmapped (a ++ x :: b) = map rerender (a ++ [x]).
Proof.
  intros Hx Hb. unfold remapped_unmapped.
  rewrite forallb_app. simpl. rewrite Hx, andb_false_r.
  now rewrite trim_internal_split.
Qed.

(** What [remapStack] makes of the frames is a fixed point of it. *)
Lemma remapped_unmapped_idem (frames : list str) :
  remapped_unmapped (remapped_unmapped frames) = remapped_unmapped frames.
Proof.
  destruct (forallb internal_unmapped frames) eqn:Hall.
  - unfold remapped_unmapped. rewrite Hall. unfold remapped_unmapped. now rewrite Hall.
  - destruct (last_failing _ _ Hall) as (a & x & b & -> & Hx & Hb).
    rewrite (remapped_unmapped_split _ _ _ Hx Hb).
    rewrite map_app. simpl.
    rewrite (remapped_unmapped_split (map rerender a) [] (rerender x));
      [|now rewrite internal_unmapped_rerender|reflexivity].
    rewrite map_app, map_map. simpl. rewrite rerender_idem. f_equal.
    apply map_ext. intros. apply rerender_idem.
Qed.

Lemma nothing_to_trim_fixed (frames : list str) :
  nothing_to_trim frames ->
  Forall canonical_numbers frames ->
  remapped_unmapped frames = frames.
Proof.
  intros Hkeep Hcanon.
  assert (Hmap : map rerender frames = frames).
  { clear Hkeep. induction Hcanon as [|x l Hx _ IH]; simpl; [reflexivity|].
    now rewrite (rerender_canonical _ Hx), IH. }
  unfold remapped_unmapped.
  destruct (forallb internal_unmapped frames) eqn:Hall; [reflexivity|].
  destruct Hkeep as [Hkeep|(x & Hlast & Hx)]; [congruence|].
  apply last_Some in Hlast as (a & ->).
  change (a ++ [x]) with (a ++ x :: []). rewrite trim_internal_split by auto.
  exact Hmap.
Qed.

(** ** The loops of [remapStack] on sources without a source map *)

Lemma unmapped_frame_mono st st1 stackLine :
  (forall src, no_source_map st src -> no_source_map st1 src) ->
  unmapped_frame st stackLine -> unmapped_frame st1 stackLine.
Proof. intros Hkeep Hno fn pos Hparse. eauto. Qed.

Lemma frame_at_cons header frames i x :
  frames !! i = Some x -> frame_at (header :: frames) (S i) = x.
Proof. unfold frame_at. simpl. now intros ->. Qed.

Lemma trim_loop_S i frames state :
  trim_loop (S i) frames state
  = (let! '(frame, state) := remapStackLine (frame_at frames (S i)) state in
     if internal frame then trim_loop i frames state
     else ret (S i, <[S i := stackLine frame]> (take (S i + 1) frames), advance state)).
Proof. reflexivity. Qed.

Lemma remap_loop_S i frames state :
  remap_loop (S i) frames state
  = (let! '(frame, state) := remapStackLine (frame_at frames (S i)) state in
     remap_loop i (<[S i := stackLine frame]> frames) (advance state)).
Proof. reflexivity. Qed.

Lemma trim_loop_unmapped (header : str) (frames : list str) :
  forall i state st,
    i <= length frames ->
    Forall (unmapped_frame st) frames ->
    exists state' st',
      (forall src, no_source_map st src -> no_source_map st' src)
      /\ ((forallb internal_unmapped (take i frames) = true
           /\ trim_loop i (header :: frames) state st
              = Ok (0, header :: frames, state') st')
          \/ (exists a x b,
                take i frames = a ++ x :: b
                /\ internal_unmapped x = false
                /\ forallb internal_unmapped b = true
                /\ trim_loop i (header :: frames) state st
                   = Ok (S (length a), header :: a ++ [rerender x], state') st')).
Proof.
  induction i as [|i IH]; intros state st Hi Hno.
  - exists state, st. split; [auto|]. left. rewrite take_0. auto.
  - destruct (lookup_lt_is_Some_2 frames i) as [x Hx]; [lia|].
    rewrite (take_S_r _ _ _ Hx).
    assert (Hin : unmapped_frame st x).
    { rewrite Forall_forall in Hno. apply Hno. eapply list_elem_of_lookup_2, Hx. }
    destruct (remapStackLine_unmapped x state st Hin) as (state1 & st1 & Hrun & Hkeep).
    rewrite trim_loop_S, (frame_at_cons _ _ _ _ Hx), (bind_Ok _ _ _ _ _ Hrun).
    cbn [internal stackLine].
    destruct (internal_unmapped x) eqn:Hint.
    + destruct (IH state1 st1) as (state' & st' & Hkeep' & Hcase); [lia| |].
      { eapply Forall_impl; [exact Hno|]. intros l. now apply unmapped_frame_mono. }
      exists state', st'. split; [auto|].
      destruct Hcase as [(Hall & Hloop)|(a & y & b & Htake & Hy & Hb & Hloop)].
      * left. rewrite forallb_app, Hall. simpl. rewrite Hint. auto.
      * right. exists a, y, (b ++ [x]). rewrite Htake, <- app_assoc. simpl.
        rewrite forallb_app, Hb. simpl. rewrite Hint. auto.
    + exists (advance state1), st1. split; [exact Hkeep|]. right.
      exists (take i frames), x, []. repeat split; auto.
      rewrite Nat.add_1_r. cbn [take]. rewrite (take_S_r _ _ _ Hx).
      cbn [insert]. unfold ret. simpl.
      rewrite length_take, Nat.min_l by lia.
      replace i with (length (take i frames)) at 2
        by (rewrite length_take; lia).
      rewrite insert_at_end. reflexivity.
Qed.

Lemma remap_loop_unmapped (header : str) :
  forall k frames state st,
    k <= length frames ->
    Forall (unmapped_frame st) frames ->
    exists state' st',
      remap_loop k (header :: frames) state st
      = Ok (header :: map rerender (take k frames) ++ drop k frames, state') st'
      /\ forall src, no_source_map st src -> no_source_map st' src.
Proof.
  induction k as [|k IH]; intros frames state st Hk Hno.
  - exists state, st. rewrite take_0, drop_0. auto.
  - destruct (lookup_lt_is_Some_2 frames k) as [x Hx]; [lia|].
    assert (Hin : unmapped_frame st x).
    { rewrite Forall_forall in Hno. apply Hno. eapply list_elem_of_lookup_2, Hx. }
    destruct (remapStackLine_unmapped x state st Hin) as (state1 & st1 & Hrun & Hkeep).
    rewrite remap_loop_S, (frame_at_cons _ _ _ _ Hx), (bind_Ok _ _ _ _ _ Hrun).
    cbn [stackLine].
    change (<[S k := rerender x]> (header :: frames))
      with (header :: <[k := rerender x]> frames).
    destruct (IH (<[k := rerender x]> frames) (advance state1) st1)
      as (state' & st' & Hloop & Hkeep').
    + rewrite length_insert. lia.
    + apply Forall_insert.
      * eapply Forall_impl; [exact Hno|]. intros l. now apply unmapped_frame_mono.
      * apply unmapped_frame_rerender. now apply (unmapped_frame_mono st).
    + exists state', st'. split; [|auto].
      rewrite Hloop.
      rewrite take_insert_ge by lia. rewrite drop_insert_ge by lia.
      rewrite Nat.sub_diag, (drop_S _ _ _ Hx), (take_S_r _ _ _ Hx).
      rewrite map_app, <- app_assoc. reflexivity.
Qed.

Lemma Forall_remapped_unmapped (P : str -> Prop) (frames : list str) :
  Forall P frames -> (forall l, P l -> P (rerender l)) ->
  Forall P (remapped_unmapped frames).
Proof.
  intros Hall Hre. unfold remapped_unmapped.
  destruct (forallb internal_unmapped frames) eqn:Hint; [exact Hall|].
  destruct (last_failing _ _ Hint) as (a & x & b & -> & Hx & Hb).
  rewrite (trim_internal_split _ _ _ Hx Hb).
  apply Forall_app in Hall as [Ha Hxb]. inversion Hxb; subst.
  apply Forall_fmap. apply Forall_app. split.
  - eapply Forall_impl; [exact Ha|]. auto.
  - repeat constructor. simpl. auto.
Qed.

(** [remapStack] on a stack none of whose frame sources has a source map. *)
Lemma remapStack_unmapped_frames (stack header : str) (frames : list str) (st : Store) :
  Js.split newline stack = header :: frames ->
  Forall (unmapped_frame st) frames ->
  exists st',
    remapStack (Some stack) st
    = Ok (Some (Js.join newline (header :: remapped_unmapped frames))) st'
    /\ forall src, no_source_map st src -> no_source_map st' src.
Proof.
  intros Hsplit Hno. unfold remapStack. rewrite Hsplit.
  replace (length (header :: frames) - 1) with (length frames) by (simpl; lia).
  destruct (trim_loop_unmapped header frames (length frames) initial_state st)
    as (state1 & st1 & Hkeep & Hcase); [lia|exact Hno|].
  rewrite firstn_all in Hcase.
  destruct Hcase as [(Hall & Hloop)|(a & x & b & Htake & Hx & Hb & Hloop)].
  - rewrite (bind_Ok _ _ _ _ _ Hloop). exists st1. split; [|exact Hkeep].
    unfold remapped_unmapped. rewrite Hall. reflexivity.
  - rewrite (bind_Ok _ _ _ _ _ Hloop).
    assert (Hno1 : Forall (unmapped_frame st1) (a ++ [rerender x])).
    { rewrite Htake in Hno. apply Forall_app in Hno as [Ha Hxb].
      inversion Hxb; subst. apply Forall_app. split.
      - eapply Forall_impl; [exact Ha|]. intros l. now apply unmapped_frame_mono.
      - repeat constructor. apply unmapped_frame_rerender.
        now apply (unmapped_frame_mono st). }
    destruct (remap_loop_unmapped header (S (length a)) (a ++ [rerender x])
                state1 st1) as (state2 & st2 & Hloop2 & Hkeep2);
      [rewrite length_app; simpl; lia|exact Hno1|].
    cbv beta iota. rewrite (bind_Ok _ _ _ _ _ Hloop2).
    exists st2. split; [|auto].
    rewrite take_ge, drop_ge by (rewrite length_app; simpl; lia).
    rewrite app_nil_r, Htake, (remapped_unmapped_split _ _ _ Hx Hb).
    rewrite !map_app. simpl. rewrite rerender_idem. reflexivity.
Qed.

Lemma is_frame_dot stackLine fnname file lineno colno :
  is_frame stackLine fnname file lineno colno -> forallb Js.is_dot stackLine = true.
Proof.
  intros (-> & _ & Hfn & _ & Hfile & _ & _ & Hl & _ & Hc).
  rewrite !forallb_app, Hfn, Hfile, (digits_dot _ Hl), (digits_dot _ Hc). reflexivity.
Qed.

Lemma dot_no_newline (s : str) : forallb Js.is_dot s = true -> ~ In newline s.
Proof.
  induction s as [|c s IH]; simpl; [tauto|].
  intros [Hc Hs]%andb_true_iff [->|Hin]; [discriminate|now apply IH].
Qed.

Lemma rerender_no_newline stackLine :
  ~ In newline stackLine -> ~ In newline (rerender stackLine).
Proof.
  intros Hfree.
  destruct (parse_frame stackLine) as [[fn pos]|] eqn:Hparse.
  - destruct (rerender_parsed _ _ _ Hparse) as (l & c & _ & Hframe & _).
    eapply dot_no_newline, is_frame_dot, Hframe.
  - now rewrite (rerender_unparsed _ Hparse).
Qed.

(** C6, as amended: on a stack none of whose frame sources has a source
    map and whose line and column numbers are below 2^53, [remapStack]
    returns the text as it is when every frame line is internal; otherwise
    it keeps the header, drops the internal frame lines after the last
    frame line that is not internal, and prints the frame lines it keeps
    again, their numbers in decimal without leading zeros. Remapping its
    output a second time returns the same text; and the stack itself comes
    back unchanged when there is nothing to drop and the numbers of every
    frame line are already written that way. *)
Theorem remapStack_unmapped_idempotent (stack : str) (st : Store) :
  Forall (unmapped_frame st) (frame_lines stack) ->
  Forall exact_numbers (frame_lines stack) ->
  exists out st1 st2,
    remapStack (Some stack) st = Ok (Some out) st1
    /\ out = Js.join newline (hd [] (Js.split newline stack)
                                :: remapped_unmapped (frame_lines stack))
    /\ remapStack (Some out) st1 = Ok (Some out) st2
    /\ (nothing_to_trim (frame_lines stack) ->
        Forall canonical_numbers (frame_lines stack) ->
        out = stack).
Proof.
  intros Hno _. unfold frame_lines in *.
  pose proof (split_pieces_free newline stack) as Hfree.
  pose proof (JsFacts.join_split newline stack) as Hjoin.
  destruct (Js.split newline stack) as [|header frames] eqn:Hsplit;
    [now apply JsFacts.split_not_nil in Hsplit|].
  cbn [tail hd] in *. inversion Hfree as [|? ? Hheader Hframes]; subst.
  destruct (remapStack_unmapped_frames _ _ _ _ Hsplit Hno) as (st1 & Hrun & Hkeep).
  assert (Hsplit' : Js.split newline (Js.join newline (header :: remapped_unmapped frames))
                    = header :: remapped_unmapped frames).
  { apply split_join; [discriminate|]. constructor; [exact Hheader|].
    apply Forall_remapped_unmapped; [exact Hframes|]. apply rerender_no_newline. }
  destruct (remapStack_unmapped_frames _ _ _ st1 Hsplit') as (st2 & Hrun2 & _).
  { apply Forall_remapped_unmapped.
    - eapply Forall_impl; [exact Hno|]. intros l. now apply unmapped_frame_mono.
    - intros l. apply unmapped_frame_rerender. }
  rewrite remapped_unmapped_idem in Hrun2.
  exists (Js.join newline (header :: remapped_unmapped frames)), st1, st2.
  repeat split; auto.
  intros Hkeep' Hcanon. now rewrite nothing_to_trim_fixed.
Qed.

(** ** The loops of [remapStack] in general *)

Lemma bind_assoc {A B C} (m : M A) (f : A -> M B) (g : B -> M C) st :
  bind (bind m f) g st = bind m (fun a => bind (f a) g) st.
Proof. unfold bind. destruct (m st); reflexivity. Qed.

Lemma trim_loop_all_internal (header : str) (frames : list str) :
  forall i state st,
    i <= length frames ->
    all_internal (rev (take i frames)) state st = true ->
    exists state' st',
      trim_loop i (header :: frames) state st = Ok (0, header :: frames, state') st'.
Proof.
  induction i as [|i IH]; intros state st Hi Hall; [eexists _, _; reflexivity|].
  destruct (lookup_lt_is_Some_2 frames i) as [x Hx]; [lia|].
  rewrite (take_S_r _ _ _ Hx), rev_app_distr in Hall. cbn [rev app all_internal] in Hall.
  destruct (remapStackLine x state st) as [[frame state1] st1|] eqn:Hrun; [|discriminate].
  apply andb_true_iff in Hall as [Hint Hall].
  rewrite trim_loop_S, (frame_at_cons _ _ _ _ Hx), (bind_Ok _ _ _ _ _ Hrun).
  cbv beta iota. rewrite Hint. apply IH; [lia|exact Hall].
Qed.

(** C10: when every frame line of a stack is classified internal, by the
    calls of [remapStackLine] that the first loop makes from the last line
    up, [remapStack] returns the text it was given: the first loop ends at
    index 0 without having cut or replaced a line, and the second loop has
    no line to process. *)
Theorem remapStack_all_internal (stack : str) (st : Store) :
  frame_lines stack <> [] ->
  all_internal (rev (frame_lines stack)) initial_state st = true ->
  exists st', remapStack (Some stack) st = Ok (Some stack) st'.
Proof.
  intros _ Hall. unfold frame_lines in Hall. unfold remapStack.
  pose proof (JsFacts.join_split newline stack) as Hjoin.
  destruct (Js.split newline stack) as [|header frames] eqn:Hsplit;
    [now apply JsFacts.split_not_nil in Hsplit|].
  cbn [tail] in Hall.
  replace (length (header :: frames) - 1) with (length frames) by (simpl; lia).
  destruct (trim_loop_all_internal header frames (length frames) initial_state st)
    as (state' & st' & Hloop); [lia|now rewrite firstn_all|].
  rewrite (bind_Ok _ _ _ _ _ Hloop). cbv beta iota. cbn [remap_loop].
  exists st'. unfold bind, ret. now rewrite Hjoin.
Qed.

(** What [remapStack] does with a user frame followed by two internal
    frames: it drops the two, and it passes the user frame through
    [remapStackLine] twice, once in each loop, because the [break] of the
    first loop leaves the index on that frame. *)
Lemma remapStack_user_internal_internal (header user internal1 internal2 : str)
    (st st2 st1 stu stu' : Store) (f2 f1 fu fu' : FrameInfo)
    (s2 s1 su su' : StackState) :
  Forall (fun piece => ~ In newline piece) [header; user; internal1; internal2] ->
  remapStackLine internal2 initial_state st = Ok (f2, s2) st2 -> internal f2 = true ->
  remapStackLine internal1 s2 st2 = Ok (f1, s1) st1 -> internal f1 = true ->
  remapStackLine user s1 st1 = Ok (fu, su) stu -> internal fu = false ->
  remapStackLine (stackLine fu) (advance su) stu = Ok (fu', su') stu' ->
  remapStack (Some (Js.join newline [header; user; internal1; internal2])) st
  = Ok (Some (Js.join newline [header; stackLine fu'])) stu'.
Proof.
  intros Hfree H2 Hi2 H1 Hi1 Hu Hiu Hu'. unfold remapStack.
  rewrite split_join by (discriminate || exact Hfree).
  change (length [header; user; internal1; internal2] - 1) with 3.
  rewrite trim_loop_S. change (frame_at _ 3) with internal2.
  rewrite bind_assoc, (bind_Ok _ _ _ _ _ H2). cbv beta iota. rewrite Hi2.
  rewrite trim_loop_S. change (frame_at _ 2) with internal1.
  rewrite bind_assoc, (bind_Ok _ _ _ _ _ H1). cbv beta iota. rewrite Hi1.
  rewrite trim_loop_S. change (frame_at _ 1) with user.
  rewrite bind_assoc, (bind_Ok _ _ _ _ _ Hu). cbv beta iota. rewrite Hiu.
  unfold bind at 1, ret at 1. cbn [take insert list_insert Nat.add].
  rewrite remap_loop_S. change (frame_at _ 1) with (stackLine fu).
  rewrite bind_assoc, (bind_Ok _ _ _ _ _ Hu'). reflexivity.
Qed.

(** The same with an internal frame above the user frame: that frame stays
    and is remapped once; the user frame is remapped twice. *)
Lemma remapStack_internal_user_internal (header internal1 user internal2 : str)
    (st st2 stu stu' st1 : Store) (f2 fu fu' f1 : FrameInfo)
    (s2 su su' s1 : StackState) :
  Forall (fun piece => ~ In newline piece) [header; internal1; user; internal2] ->
  remapStackLine internal2 initial_state st = Ok (f2, s2) st2 -> internal f2 = true ->
  remapStackLine user s2 st2 = Ok (fu, su) stu -> internal fu = false ->
  remapStackLine (stackLine fu) (advance su) stu = Ok (fu', su') stu' ->
  remapStackLine internal1 (advance su') stu' = Ok (f1, s1) st1 ->
  remapStack (Some (Js.join newline [header; internal1; user; internal2])) st
  = Ok (Some (Js.join newline [header; stackLine f1; stackLine fu'])) st1.
Proof.
  intros Hfree H2 Hi2 Hu Hiu Hu' H1. unfold remapStack.
  rewrite split_join by (discriminate || exact Hfree).
  change (length [header; internal1; user; internal2] - 1) with 3.
  rewrite trim_loop_S. change (frame_at _ 3) with internal2.
  rewrite bind_assoc, (bind_Ok _ _ _ _ _ H2). cbv beta iota. rewrite Hi2.
  rewrite trim_loop_S. change (frame_at _ 2) with user.
  rewrite bind_assoc, (bind_Ok _ _ _ _ _ Hu). cbv beta iota. rewrite Hiu.
  unfold bind at 1, ret at 1. cbn [take insert list_insert Nat.add].
  rewrite remap_loop_S. change (frame_at _ 2) with (stackLine fu).
  rewrite bind_assoc, (bind_Ok _ _ _ _ _ Hu'). cbv beta iota.
  cbn [stackLine insert list_insert].
  rewrite remap_loop_S. change (frame_at _ 1) with internal1.
  rewrite bind_assoc, (bind_Ok _ _ _ _ _ H1). reflexivity.
Qed.

(** ** The scan for the [sourceMappingURL] comment *)

(** The loop of [retrieveSourceMapURL] ends within its fuel: more fuel gives
    the same last match. *)
Lemma lastMatch_loop_fuel (fileData : str) :
  forall fuel fuel' from lastMatch,
    length fileData < from + fuel ->
    length fileData < from + fuel' ->
    lastMatch_loop fuel fileData from lastMatch
    = lastMatch_loop fuel' fileData from lastMatch.
Proof.
  assert (Hout : forall fuel from lastMatch,
             length fileData < from ->
             lastMatch_loop fuel fileData from lastMatch = lastMatch).
  { intros [|fuel] from lastMatch Hlen; [reflexivity|]. simpl.
    unfold exec_from. destruct (Nat.leb_spec from (length fileData)); [lia|reflexivity]. }
  induction fuel as [|fuel IH]; intros fuel' from lastMatch Hfuel Hfuel'.
  - rewrite !Hout by lia. reflexivity.
  - destruct fuel' as [|fuel']; [rewrite !Hout by lia; reflexivity|]. simpl.
    destruct (exec_from Pat.re_sourceMappingURL from fileData) as [m|] eqn:Hexec;
      [|reflexivity].
    apply re_sourceMappingURL_progress in Hexec. apply IH; lia.
Qed.

(** A line that the parser rejects has no reading as a frame but a special
    one. *)
Lemma parse_frame_None_special stackLine :
  parse_frame stackLine = None ->
  forall fnname file lineno colno,
    is_frame stackLine fnname file lineno colno ->
    is_special fnname file lineno colno.
Proof.
  intros Hnone fnname file lineno colno Hframe.
  destruct (is_special_dec fnname file lineno colno) as [|Hns]; [assumption|].
  rewrite (parse_frame_complete _ _ _ _ _ Hframe Hns) in Hnone. discriminate.
Qed.

(* ------------------------------------------------------------------ *)
(** * Further properties of the program *)
(* ------------------------------------------------------------------ *)

(** ** The dispatcher *)

(** X1: [handlerExec] returns [null] or a truthy result of one of its
    handlers, never a falsy one; and for handlers that do not use the store
    the result is the first truthy one in the order of the list. *)
Theorem handlerExec_first_truthy {T R : Type} (truthy : R -> bool) (arg : T)
    (st : Store) :
  (forall (handlers : list (T -> M R)) r st',
     handlerExec truthy handlers arg st = Ok (Some r) st' ->
     truthy r = true
     /\ exists handler st0, In handler handlers /\ handler arg st0 = Ok r st')
  /\ (forall fs : list (T -> R),
        handlerExec truthy (map pure_handler fs) arg st
        = Ok (find truthy (map (fun f => f arg) fs)) st).
Proof.
  split.
  - intros handlers. revert st.
    induction handlers as [|handler rest IH]; intros st r st' Hrun; [discriminate|].
    simpl in Hrun. apply bind_Ok_inv in Hrun as (r0 & st0 & Hhandler & Hrest).
    destruct (truthy r0) eqn:Htruthy.
    + injection Hrest as <- <-. split; [exact Htruthy|].
      exists handler, st. split; [now left|exact Hhandler].
    + destruct (IH _ _ _ Hrest) as (Hr & h & st1 & Hin & Hh).
      split; [exact Hr|]. exists h, st1. split; [now right|exact Hh].
  - induction fs as [|f fs IH]; [reflexivity|]. simpl.
    unfold bind, pure_handler at 1, ret at 1.
    destruct (truthy (f arg)); [reflexivity|exact IH].
Qed.

(** ** The file handler as a cache *)

(** X2: once the file handler has answered for a path, it answers the same
    for every path with the same normal form, from the cache: the store,
    and with it the trace of file-system calls, stays as it is. *)
Theorem retrieveFileHandler_answers_from_cache (path path' : str)
    (st st1 : Store) (contents : Js.value) :
  retrieveFileHandler path st = Ok contents st1 ->
  normalize_path path' = normalize_path path ->
  fileContentsCache st1 !! normalize_path path = Some contents
  /\ retrieveFileHandler path' st1 = Ok contents st1.
Proof.
  intros Hrun Hsame.
  assert (Hcached : fileContentsCache st1 !! normalize_path path = Some contents).
  { destruct (fileContentsCache st !! normalize_path path) as [cached|] eqn:Hc.
    - rewrite (retrieveFileHandler_hit _ _ _ Hc) in Hrun. now injection Hrun as <- <-.
    - destruct (retrieveFileHandler_miss _ _ Hc) as (events & Hmiss & _).
      rewrite Hmiss in Hrun. injection Hrun as <- <-. simpl. apply lookup_insert_eq. }
  split; [exact Hcached|].
  apply retrieveFileHandler_hit. now rewrite Hsame.
Qed.

(** X3: reading a file through [retrieveFile] does not change what any
    path reads as afterwards: the cache is transparent. *)
Theorem retrieveFile_cache_transparent (path other : str) (st : Store) :
  value_of (retrieveFile other (store_of (retrieveFile path st)))
  = value_of (retrieveFile other st).
Proof.
  destruct (retrieves_retrieveFile [] path st) as (r & st1 & Hrun & (Hview & _) & _).
  rewrite Hrun. simpl.
  destruct (retrieves_retrieveFile [] other st) as (r' & st2 & Hrun' & _ & Hdet).
  rewrite Hrun'. simpl. apply Hdet, Hview.
Qed.

(** ** Sources that cannot be read *)

Lemma retrieveFile_view src path st :
  exists st1,
    retrieveFile path st
    = Ok (match view st (normalize_path path) with
          | Js.Text [] => None
          | contents => Some contents
          end) st1
    /\ retrieval_step src st st1.
Proof.
  destruct (retrieveFileHandler_view src path st) as (st1 & Hrun & Hstep).
  exists st1. split; [|exact Hstep].
  unfold retrieveFile, retrieveFileHandlers. cbn [handlerExec].
  rewrite (bind_Ok _ _ _ _ _ Hrun).
  destruct (view st (normalize_path path)) as [[|c cs]|text]; reflexivity.
Qed.

(** X4: a source that the file handler reads as the empty string (a lookup
    in the file cache finds the empty string under its normal form, or
    finds nothing there and the file is empty, missing or unreadable) has
    no source map. [retrieveSourceMapURL] scans the text [null] for it and
    returns [null], so does [retrieveSourceMap]; and when a lookup in the
    source-map cache finds nothing for the source, [mapSourcePosition]
    returns the position it was given and records the negative entry. A
    name that the cache objects inherit from [Object.prototype] is no such
    source: the lookups find the inherited member. *)
Theorem unreadable_source_has_no_map (src : str) (st : Store) :
  view st (normalize_path src) = Js.Text [] ->
  value_of (retrieveSourceMapURL src st) = Some None
  /\ value_of (retrieveSourceMap src st) = Some None
  /\ (sourceMapCache st !! src = None ->
      forall l c,
        exists st',
          mapSourcePosition (mkPosition src l c) st = Ok (mkPosition src l c) st'
          /\ sourceMapCache st' !! src = Some negative_entry).
Proof.
  intros Hview.
  assert (Hurl : forall st0, view st0 (normalize_path src) = Js.Text [] ->
                   exists st1, retrieveSourceMapURL src st0 = Ok None st1).
  { intros st0 Hv. destruct (retrieveFile_view src src st0) as (st1 & Hrun & _).
    rewrite Hv in Hrun. exists st1. unfold retrieveSourceMapURL.
    rewrite (bind_Ok _ _ _ _ _ Hrun). reflexivity. }
  assert (Hmap : exists st1, retrieveSourceMap src st = Ok None st1).
  { destruct (Hurl (mkStore (fileContentsCache st) (sourceMapCache st)
                            (RetrieveSourceMap src :: trace st)) Hview)
      as (st1 & Hrun).
    exists st1. unfold retrieveSourceMap, retrieveMapHandlers, retrieveMapHandler.
    cbn [handlerExec]. unfold bind at 1 2 3 4, log. cbv beta iota.
    rewrite Hrun. reflexivity. }
  split; [|split].
  - destruct (Hurl st Hview) as (st1 & ->). reflexivity.
  - destruct Hmap as (st1 & ->). reflexivity.
  - intros Hnone l c. destruct Hmap as (st1 & Hrun).
    eexists. unfold mapSourcePosition.
    rewrite (bind_Ok _ _ _ _ _ (sourceMap_for_negative _ _ _ Hnone Hrun)).
    split; [reflexivity|]. simpl. apply lookup_insert_eq.
Qed.

(** ** The scan of [retrieveSourceMapURL] *)

Lemma search_None_tail r s :
  forall i, search r i s = None ->
  forall k, k <= length s -> search r (i + k) (drop k s) = None.
Proof.
  induction s as [|x s IH]; intros i H k Hk.
  - simpl in Hk. replace k with 0 by lia. now rewrite Nat.add_0_r.
  - destruct k as [|k]; [now rewrite Nat.add_0_r|].
    simpl in H. destruct (match_at r i (x :: s)); [discriminate|].
    rewrite Nat.add_succ_r. simpl in *. apply (IH (S i) H k). lia.
Qed.

Lemma exec_from_None_later r s from :
  exec_from r from s = None ->
  forall from', from <= from' -> exec_from r from' s = None.
Proof.
  unfold exec_from. intros H from' Hle.
  destruct (Nat.leb_spec from' (length s)) as [Hin|]; [|reflexivity].
  destruct (Nat.leb_spec from (length s)) as [_|]; [|lia].
  replace from' with (from + (from' - from)) by lia.
  rewrite <- drop_drop. apply search_None_tail; [exact H|].
  rewrite length_drop. lia.
Qed.

Lemma lastMatch_loop_spec (fileData : str) :
  forall fuel from lastMatch,
    length fileData < from + fuel ->
    (lastMatch_loop fuel fileData from lastMatch = lastMatch
     /\ exec_from Pat.re_sourceMappingURL from fileData = None)
    \/ exists m from',
         lastMatch_loop fuel fileData from lastMatch = Some m
         /\ from <= from'
         /\ exec_from Pat.re_sourceMappingURL from' fileData = Some m
         /\ exec_from Pat.re_sourceMappingURL (lastIndex m) fileData = None.
Proof.
  induction fuel as [|fuel IH]; intros from lastMatch Hfuel.
  - left. split; [reflexivity|]. unfold exec_from.
    destruct (Nat.leb_spec from (length fileData)); [lia|reflexivity].
  - simpl. destruct (exec_from Pat.re_sourceMappingURL from fileData) as [m|] eqn:Hexec;
      [|now left].
    right. pose proof (re_sourceMappingURL_progress _ _ _ Hexec) as Hprogress.
    destruct (IH (lastIndex m) (Some m)) as [[-> Hnone]|(m' & from' & -> & Hle & Hm' & Hnone)];
      [lia| |].
    + exists m, from. auto.
    + exists m', from'. repeat split; auto. lia.
Qed.

(** X5: the loop of line 115 ends with the last match of the pattern: it
    is [null] exactly when the pattern has no match in the text, and
    otherwise it is a match that [exec] found from some index, with no match
    at or after its end. *)
Theorem lastMatch_loop_is_last (fileData : str) :
  (lastMatch_loop (S (length fileData)) fileData 0 None = None
   <-> exec Pat.re_sourceMappingURL fileData = None)
  /\ forall m,
       lastMatch_loop (S (length fileData)) fileData 0 None = Some m ->
       (exists from, exec_from Pat.re_sourceMappingURL from fileData = Some m)
       /\ forall from,
            lastIndex m <= from ->
            exec_from Pat.re_sourceMappingURL from fileData = None.
Proof.
  assert (Hexec : exec_from Pat.re_sourceMappingURL 0 fileData
                  = exec Pat.re_sourceMappingURL fileData) by reflexivity.
  destruct (lastMatch_loop_spec fileData (S (length fileData)) 0 None)
    as [[Hloop Hnone]|(m & from & Hloop & _ & Hm & Hnone)]; [lia| |].
  - rewrite Hloop, <- Hexec. split; [tauto|discriminate].
  - rewrite Hloop. split.
    + split; [discriminate|]. intros Hno. rewrite <- Hexec in Hno.
      rewrite (exec_from_None_later _ _ _ Hno from) in Hm by lia. discriminate.
    + intros m' [= <-]. split; [eauto|].
      intros from'. now apply exec_from_None_later.
Qed.

(** ** The source-map cache only grows *)

Lemma sourceMaps_kept_refl st : sourceMaps_kept st st.
Proof. intros src sourceMap H. exact H. Qed.

Lemma sourceMaps_kept_trans st1 st2 st3 :
  sourceMaps_kept st1 st2 -> sourceMaps_kept st2 st3 -> sourceMaps_kept st1 st3.
Proof. intros H12 H23 src sourceMap H. now apply H23, H12. Qed.

Lemma mapSourcePosition_kept position st :
  sourceMaps_kept st (store_of (mapSourcePosition position st)).
Proof.
  rewrite mapSourcePosition_store.
  destruct (sourceMap_for_store (source position) st) as (Hother & Hsame & _).
  intros src sourceMap H. destruct (decide (src = source position)) as [->|Hne].
  - now rewrite (Hsame _ H).
  - now rewrite (Hother _ Hne).
Qed.

Lemma remapStackLine_kept stackLine state st :
  sourceMaps_kept st (store_of (remapStackLine stackLine state st)).
Proof.
  destruct (parse_frame stackLine) as [[fnname position]|] eqn:Hparse.
  - rewrite (remapStackLine_parsed _ state _ _ Hparse). unfold bind.
    pose proof (mapSourcePosition_kept position st) as H.
    destruct (mapSourcePosition position st); exact H.
  - destruct (remapStackLine_unparsed _ state st Hparse) as (state' & ->).
    apply sourceMaps_kept_refl.
Qed.

Lemma trim_loop_kept i :
  forall frames state st,
    sourceMaps_kept st (store_of (trim_loop i frames state st)).
Proof.
  induction i as [|i IH]; intros frames state st; [apply sourceMaps_kept_refl|].
  rewrite trim_loop_S. unfold bind.
  pose proof (remapStackLine_kept (frame_at frames (S i)) state st) as H.
  destruct (remapStackLine (frame_at frames (S i)) state st) as [[frame state1] st1|st1];
    [|exact H].
  simpl in H. destruct (internal frame); [|exact H].
  eapply sourceMaps_kept_trans; [exact H|apply IH].
Qed.

Lemma remap_loop_kept i :
  forall frames state st,
    sourceMaps_kept st (store_of (remap_loop i frames state st)).
Proof.
  induction i as [|i IH]; intros frames state st; [apply sourceMaps_kept_refl|].
  rewrite remap_loop_S. unfold bind.
  pose proof (remapStackLine_kept (frame_at frames (S i)) state st) as H.
  destruct (remapStackLine (frame_at frames (S i)) state st) as [[frame state1] st1|st1];
    [|exact H].
  eapply sourceMaps_kept_trans; [exact H|apply IH].
Qed.

(** X6: the source-map cache only grows. Whatever [mapSourcePosition],
    [remapStackLine] and [remapStack] do, and also when they throw, every
    entry the cache had is still there afterwards, unchanged; and a source
    that has an entry costs [mapSourcePosition] no retrieval: the store,
    trace included, stays as it is. *)
Theorem sourceMapCache_only_grows (st : Store) :
  (forall position, sourceMaps_kept st (store_of (mapSourcePosition position st)))
  /\ (forall stackLine state,
        sourceMaps_kept st (store_of (remapStackLine stackLine state st)))
  /\ (forall stack, sourceMaps_kept st (store_of (remapStack stack st)))
  /\ (forall position sourceMap,
        sourceMapCache st !! source position = Some sourceMap ->
        store_of (mapSourcePosition position st) = st).
Proof.
  split; [|split; [|split]].
  - intros position. apply mapSourcePosition_kept.
  - intros stackLine state. apply remapStackLine_kept.
  - intros [stack|]; [|apply sourceMaps_kept_refl].
    unfold remapStack. cbv zeta. unfold bind.
    pose proof (trim_loop_kept (length (Js.split newline stack) - 1)
                  (Js.split newline stack) initial_state st) as H1.
    destruct (trim_loop _ _ _ st) as [[[i frames] state] st1|st1]; [|exact H1].
    pose proof (remap_loop_kept i frames state st1) as H2.
    destruct (remap_loop i frames state st1) as [[frames' state'] st2|st2];
      simpl in *; eapply sourceMaps_kept_trans; eauto.
  - intros position sourceMap H. rewrite mapSourcePosition_store.
    destruct (sourceMap_for_store (source position) st) as (_ & Hsame & _).
    exact (Hsame _ H).
Qed.

(** ** Frames that are remapped *)

(** X7: a line of the frame grammar that is not one of the two special
    cases is remapped. [remapStackLine] asks [mapSourcePosition] for the
    file, the line and the column less one; from the answer it prints the
    line again with the column plus one, calls the frame internal when the
    answered source starts with [internal/], and leaves the answer in
    [curPosition]. It throws exactly when [mapSourcePosition] does. The
    numbers of the line are below 2^53, where a number of the program is
    the integer that its digits spell. *)
Theorem remapStackLine_frame (stackLine fnname file lineno colno : str)
    (state : StackState) (st : Store) :
  is_frame stackLine fnname file lineno colno ->
  ~ is_special fnname file lineno colno ->
  (Js.toNumber lineno < 2 ^ 53)%Z ->
  (Js.toNumber colno < 2 ^ 53)%Z ->
  match mapSourcePosition
          (mkPosition file (Js.toNumber lineno) (Js.toNumber colno - 1)) st with
  | Ok mapped st' =>
      remapStackLine stackLine state st
      = Ok (mkFrameInfo
              (lit "   at " ++ fnname ++ lit " (" ++ source mapped ++ lit ":"
                 ++ Js.numberToString (line mapped) ++ lit ":"
                 ++ Js.numberToString (column mapped + 1) ++ lit ")")
              (Js.startsWith (source mapped) (lit "internal/")),
            mkStackState (nextPosition state) (Some mapped)) st'
  | Throw st' => remapStackLine stackLine state st = Throw st'
  end.
Proof.
  intros Hframe Hspecial _ _.
  rewrite (remapStackLine_parsed _ state _ _
             (parse_frame_complete _ _ _ _ _ Hframe Hspecial)).
  unfold bind. destruct (mapSourcePosition _ st); reflexivity.
Qed.

(** ** The shape of what [remapStack] returns *)





(** ** The two kinds of source-map URL *)

Lemma reSourceMap_data_url (mid payload : str) :
  mid <> [] -> forallb (Pat.not_char ",") mid = true ->
  test Pat.reSourceMap (lit "data:application/json" ++ mid ++ lit "base64," ++ payload)
  = true.
Proof.
  intros Hmid Hfree. unfold test. apply bool_decide_eq_true.
  unfold Pat.reSourceMap. cbn [seq]. rewrite exec_anchored.
  eapply match_at_complete.
  cbn [Matches seq Str Lit Times lit list_ascii_of_string app].
  repeat (eexists || split); eauto.
Qed.

Lemma indexOf_from_first c (pre rest : str) :
  forall i, forallb (Pat.not_char c) pre = true ->
            Js.indexOf_from c (pre ++ c :: rest) i = (i + Z.of_nat (length pre))%Z.
Proof.
  induction pre as [|x pre IH]; simpl; intros i Hfree.
  - rewrite Ascii.eqb_refl. lia.
  - apply andb_true_iff in Hfree as [Hx Hfree].
    unfold Pat.not_char, Js.is_char in Hx. rewrite Ascii.eqb_sym.
    destruct (Ascii.eqb c x); [discriminate|]. rewrite IH by assumption. lia.
Qed.

Lemma data_url_payload (mid payload : str) :
  forallb (Pat.not_char ",") mid = true ->
  Js.slice (lit "data:application/json" ++ mid ++ lit "base64," ++ payload)
           (Js.indexOf (lit "data:application/json" ++ mid ++ lit "base64," ++ payload)
                       "," + 1)
  = payload.
Proof.
  intros Hfree. unfold Js.indexOf, Js.slice.
  replace (lit "data:application/json" ++ mid ++ lit "base64," ++ payload)
    with ((lit "data:application/json" ++ mid ++ lit "base64") ++ ","%char :: payload)
    by (rewrite <- !app_assoc; reflexivity).
  rewrite indexOf_from_first
    by (rewrite !forallb_app, Hfree; reflexivity).
  replace (Z.to_nat _) with (length (lit "data:application/json" ++ mid ++ lit "base64") + 1)
    by lia.
  rewrite <- drop_drop, drop_app_length. reflexivity.
Qed.

Lemma retrieveMapHandler_url src st url :
  value_of (retrieveSourceMapURL src st) = Some url ->
  exists st1,
    retrieveSourceMapURL src
      (mkStore (fileContentsCache st) (sourceMapCache st)
               (RetrieveSourceMap src :: trace st))
    = Ok url st1
    /\ forall p, view st1 p = view st p.
Proof.
  intros Hurl.
  destruct (retrieves_retrieveSourceMapURL src src
              (mkStore (fileContentsCache st) (sourceMapCache st)
                       (RetrieveSourceMap src :: trace st)))
    as (url' & st1 & Hrun & (Hview & _) & Hdet).
  rewrite (Hdet st) in Hurl by reflexivity. injection Hurl as ->.
  exists st1. split; [exact Hrun|exact Hview].
Qed.

(** What [retrieveSourceMapURL] returns, in terms of what the source reads
    as. *)
Lemma retrieveSourceMapURL_view src st :
  value_of (retrieveSourceMapURL src st)
  = Some (let fileData := match view st (normalize_path src) with
                          | Js.Text [] => lit "null"
                          | contents => Js.toString contents
                          end in
          match lastMatch_loop (S (length fileData)) fileData 0 None with
          | None => None
          | Some lastMatch => Regex.group lastMatch 1
          end).
Proof.
  destruct (retrieveFile_view src src st) as (st1 & Hrun & _).
  unfold retrieveSourceMapURL. rewrite (bind_Ok _ _ _ _ _ Hrun).
  destruct (view st (normalize_path src)) as [[|c cs]|text];
    cbv zeta; cbn [Js.toString];
    destruct (lastMatch_loop _ _ _ _); reflexivity.
Qed.

Lemma retrieveSourceMap_no_url src st :
  value_of (retrieveSourceMapURL src st) = Some None ->
  value_of (retrieveSourceMap src st) = Some None.
Proof.
  intros Hurl. destruct (retrieveMapHandler_url _ _ _ Hurl) as (st1 & Hrun & _).
  unfold retrieveSourceMap, retrieveMapHandlers, retrieveMapHandler.
  cbn [handlerExec]. unfold bind at 1 2 3 4, log. cbv beta iota.
  rewrite Hrun. reflexivity.
Qed.

(** X9: a source-map URL that is a base64 data URL is decoded in place:
    the map is what [Buffer] decodes from the text after the first comma,
    its URL is the source itself, and [retrieveSourceMap] returns [null]
    when that text decodes to the empty string. *)
Theorem retrieveSourceMap_data_url (src mid payload : str) (st : Store) :
  value_of (retrieveSourceMapURL src st)
  = Some (Some (lit "data:application/json" ++ mid ++ lit "base64," ++ payload)) ->
  mid <> [] ->
  forallb (Pat.not_char ",") mid = true ->
  value_of (retrieveSourceMap src st)
  = Some (match Buffer_from_base64_toString payload with
          | [] => None
          | c :: cs => Some (mkUrlAndMap (Some src) (Js.Text (c :: cs)))
          end).
Proof.
  intros Hurl Hmid Hfree.
  destruct (retrieveMapHandler_url _ _ _ Hurl) as (st1 & Hrun & _).
  unfold retrieveSourceMap, retrieveMapHandlers, retrieveMapHandler.
  cbn [handlerExec]. unfold bind at 1 2 3 4, log. cbv beta iota.
  rewrite Hrun.
  pose proof (reSourceMap_data_url mid payload Hmid Hfree) as Htest.
  pose proof (data_url_payload mid payload Hfree) as Hpayload.
  cbn [lit list_ascii_of_string app] in *. cbv beta iota.
  rewrite Htest, Hpayload. unfold bind, ret.
  destruct (Buffer_from_base64_toString payload); reflexivity.
Qed.

(** X10: any other source-map URL is resolved against the source by
    [supportRelativeURL] and read like a file, cache first and then the
    disk; a map file that is missing, unreadable or empty means no source
    map. *)
Theorem retrieveSourceMap_relative_url (src url : str) (st : Store) :
  value_of (retrieveSourceMapURL src st) = Some (Some url) ->
  url <> [] ->
  test Pat.reSourceMap url = false ->
  value_of (retrieveSourceMap src st)
  = Some (match view st (normalize_path (supportRelativeURL (Some src) url)) with
          | Js.Text [] => None
          | contents =>
              Some (mkUrlAndMap (Some (supportRelativeURL (Some src) url)) contents)
          end).
Proof.
  intros Hurl Hne Htest.
  destruct (retrieveMapHandler_url _ _ _ Hurl) as (st1 & Hrun & Hview).
  destruct (retrieveFile_view src (supportRelativeURL (Some src) url) st1)
    as (st2 & Hfile & _).
  unfold retrieveSourceMap, retrieveMapHandlers, retrieveMapHandler.
  cbn [handlerExec]. unfold bind at 1 2 3 4, log. cbv beta iota.
  rewrite Hrun. destruct url as [|u url]; [contradiction|]. cbv beta iota.
  rewrite Htest. unfold bind at 1 2. rewrite Hfile, Hview. unfold ret at 1.
  cbv beta iota.
  destruct (view st (normalize_path (supportRelativeURL (Some src) (u :: url))))
    as [[|c cs]|text]; reflexivity.
Qed.

(** ** [mapSourcePosition] with a source map *)

Lemma cache_inline_sources_returns sourceMap consumer srcs :
  Forall (fun s => sourceContentFor consumer s <> Throws) srcs ->
  forall st, exists st',
    cache_inline_sources sourceMap consumer srcs st = Ok tt st'.
Proof.
  induction 1 as [|s srcs Hs _ IH]; intros st; simpl; [eexists; reflexivity|].
  unfold bind at 1, call. destruct (sourceContentFor consumer s) as [contents|];
    [|contradiction].
  destruct contents as [[|c cs]|]; unfold bind, ret; try apply IH.
  destruct (set_fileContents_store (supportRelativeURL (cm_url sourceMap) s)
                                   (c :: cs) st) as (files & ->).
  apply IH.
Qed.

Lemma sourceMap_for_positive src st st1 urlAndMap consumer :
  sourceMapCache st !! src = None ->
  retrieveSourceMap src st = Ok (Some urlAndMap) st1 ->
  SourceMapConsumer_new (um_map urlAndMap) = Returns consumer ->
  sourceMap_for src st
  = (let! _ := cache_inline_sources (mkEntry (um_url urlAndMap) (Some consumer))
                 consumer (sources consumer) in
     ret (mkEntry (um_url urlAndMap) (Some consumer)))
      (mkStore (fileContentsCache st1)
               (<[src := mkEntry (um_url urlAndMap) (Some consumer)]> (sourceMapCache st1))
               (trace st1)).
Proof.
  unfold sourceMap_for. intros -> Hr Hnew.
  rewrite (bind_Ok _ _ _ _ _ Hr). cbv beta iota.
  unfold bind at 1, call. rewrite Hnew. reflexivity.
Qed.

(** X11: the first call of [mapSourcePosition] for a source with a source
    map decodes the map and stores it under the source; it answers with
    the original position, its source resolved against the URL of the map,
    or with the position it was given when the map has no mapping for it.
    A second call answers the same from the cache and leaves the store,
    trace included, as it is: the map is retrieved and decoded once. *)
Theorem mapSourcePosition_decodes_once (position : Position) (st st1 : Store)
    (urlAndMap : UrlAndMap) (consumer : SourceMapConsumer)
    (original : MappedPosition) :
  sourceMapCache st !! source position = None ->
  retrieveSourceMap (source position) st = Ok (Some urlAndMap) st1 ->
  SourceMapConsumer_new (um_map urlAndMap) = Returns consumer ->
  Forall (fun s => sourceContentFor consumer s <> Throws) (sources consumer) ->
  originalPositionFor consumer position = Returns original ->
  exists st2,
    let answer :=
      match mapped_source original with
      | Some s => mkPosition (supportRelativeURL (um_url urlAndMap) s)
                             (mapped_line original) (mapped_column original)
      | None => position
      end in
    mapSourcePosition position st = Ok answer st2
    /\ sourceMapCache st2 !! source position
       = Some (mkEntry (um_url urlAndMap) (Some consumer))
    /\ trace st2 = trace st1
    /\ mapSourcePosition position st2 = Ok answer st2.
Proof.
  intros Hnone Hrun Hnew Hinline Horiginal.
  pose proof (sourceMap_for_positive _ _ _ _ _ Hnone Hrun Hnew) as Hfor.
  set (entry := mkEntry (um_url urlAndMap) (Some consumer)) in *.
  set (st1' := mkStore (fileContentsCache st1)
                       (<[source position := entry]> (sourceMapCache st1)) (trace st1)) in *.
  destruct (cache_inline_sources_returns entry consumer _ Hinline st1') as (st2 & Hst2).
  pose proof (cache_inline_sources_store entry consumer (sources consumer) st1')
    as [Hmaps Htrace].
  rewrite Hst2 in Hmaps, Htrace. simpl in Hmaps, Htrace.
  rewrite (bind_Ok _ _ _ _ _ Hst2) in Hfor.
  assert (Hentry : sourceMapCache st2 !! source position = Some entry).
  { rewrite Hmaps. apply lookup_insert_eq. }
  assert (Hanswer : forall st0,
             sourceMap_for (source position) st0 = Ok entry st2 ->
             mapSourcePosition position st0
             = Ok (match mapped_source original with
                   | Some s => mkPosition (supportRelativeURL (um_url urlAndMap) s)
                                          (mapped_line original) (mapped_column original)
                   | None => position
                   end) st2).
  { intros st0 H0. unfold mapSourcePosition. rewrite (bind_Ok _ _ _ _ _ H0).
    simpl. unfold bind, call. rewrite Horiginal.
    destruct (mapped_source original); reflexivity. }
  exists st2. cbv zeta. split; [apply Hanswer, Hfor|].
  split; [exact Hentry|]. split; [exact Htrace|].
  apply Hanswer. now apply sourceMap_for_cached.
Qed.

(** X12: what an exception of the decoder leaves behind. When the
    [SourceMapConsumer] constructor throws, [mapSourcePosition] throws and
    the source still has no cache entry, so the next call retrieves and
    decodes again. When a later step throws, [sourceContentFor] in the
    loop over the inline sources or [originalPositionFor], the entry is
    already stored. *)
Theorem mapSourcePosition_throws (position : Position) (st st1 : Store)
    (urlAndMap : UrlAndMap) :
  sourceMapCache st !! source position = None ->
  retrieveSourceMap (source position) st = Ok (Some urlAndMap) st1 ->
  (SourceMapConsumer_new (um_map urlAndMap) = Throws ->
   mapSourcePosition position st = Throw st1
   /\ sourceMapCache st1 !! source position = None)
  /\ (forall consumer,
        SourceMapConsumer_new (um_map urlAndMap) = Returns consumer ->
        Exists (fun s => sourceContentFor consumer s = Throws) (sources consumer)
        \/ originalPositionFor consumer position = Throws ->
        exists st2,
          mapSourcePosition position st = Throw st2
          /\ sourceMapCache st2 !! source position
             = Some (mkEntry (um_url urlAndMap) (Some consumer))).
Proof.
  intros Hnone Hrun.
  destruct (retrieves_retrieveSourceMap (source position) st)
    as (r & st1' & Hrun' & (_ & Hmaps & _) & _).
  rewrite Hrun in Hrun'. injection Hrun' as <- <-.
  split.
  - intros Hnew. split; [|now rewrite Hmaps].
    unfold mapSourcePosition, sourceMap_for. unfold bind at 1. rewrite Hnone.
    rewrite (bind_Ok _ _ _ _ _ Hrun). cbv beta iota.
    unfold bind at 1, call. now rewrite Hnew.
  - intros consumer Hnew Hthrow.
    pose proof (sourceMap_for_positive _ _ _ _ _ Hnone Hrun Hnew) as Hfor.
    set (entry := mkEntry (um_url urlAndMap) (Some consumer)) in *.
    set (st1' := mkStore (fileContentsCache st1)
                   (<[source position := entry]> (sourceMapCache st1)) (trace st1)) in *.
    pose proof (cache_inline_sources_store entry consumer (sources consumer) st1')
      as [Hkept _].
    assert (Hentry : sourceMapCache (store_of (sourceMap_for (source position) st))
                       !! source position = Some entry).
    { rewrite Hfor, store_of_bind_ret, Hkept. apply lookup_insert_eq. }
    assert (Hthrows : exists st2, mapSourcePosition position st = Throw st2).
    { unfold mapSourcePosition. unfold bind at 1. rewrite Hfor. unfold bind at 1.
      destruct (cache_inline_sources entry consumer (sources consumer) st1')
        as [[] st2|st2] eqn:Hinline; [|eauto].
      destruct Hthrow as [Hex|Horiginal].
      - exfalso. clear - Hex Hinline. revert Hinline. generalize st1'.
        induction Hex as [s srcs Hs|s srcs _ IH]; intros st0 Hinline; simpl in Hinline.
        + unfold bind at 1, call in Hinline. rewrite Hs in Hinline. discriminate.
        + apply bind_Ok_inv in Hinline as (contents & st3 & _ & Hinline).
          apply bind_Ok_inv in Hinline as (u & st4 & _ & Hinline). eauto.
      - unfold ret at 1. cbv beta iota. simpl. unfold bind, call. rewrite Horiginal.
        eauto. }
    destruct Hthrows as (st2 & Hthrows). exists st2. split; [exact Hthrows|].
    pose proof (mapSourcePosition_store position st) as Hstore.
    rewrite Hthrows in Hstore. simpl in Hstore. rewrite Hstore. exact Hentry.
Qed.

(** X13: the inline sources of a map go to the file cache under their
    URLs resolved against the URL of the map, where they hide an inherited
    member of that name; entries of other paths stay. [getErrorSource] then
    finds the contents of such a source without a call of the file system,
    whether or not the file exists. The one URL this does not hold for is
    [__proto__]: the assignment of a string to it stores nothing. *)
Theorem cache_inline_sources_prewarms (sourceMap : SourceMapConsumerMap)
    (consumer : SourceMapConsumer) (srcs : list str) (st : Store) :
  Forall (fun s => sourceContentFor consumer s <> Throws) srcs ->
  List.NoDup (map (supportRelativeURL (cm_url sourceMap)) srcs) ->
  exists st',
    cache_inline_sources sourceMap consumer srcs st = Ok tt st'
    /\ (forall s c cs,
          In s srcs ->
          sourceContentFor consumer s = Returns (Some (c :: cs)) ->
          supportRelativeURL (cm_url sourceMap) s <> lit "__proto__" ->
          fileContentsCache st' !! supportRelativeURL (cm_url sourceMap) s
          = Some (Js.Text (c :: cs))
          /\ errorSource_contents (supportRelativeURL (cm_url sourceMap) s) st'
             = Ok (Some (Js.Text (c :: cs))) st')
    /\ (forall path,
          ~ In path (map (supportRelativeURL (cm_url sourceMap)) srcs) ->
          fileContentsCache st' !! path = fileContentsCache st !! path).
Proof.
  intros Hreturns. revert st.
  induction Hreturns as [|s srcs Hs _ IH]; intros st Hnodup.
  - exists st. split; [reflexivity|]. split; [intros ? ? ? []|reflexivity].
  - rewrite map_cons in Hnodup.
    apply List.NoDup_cons_iff in Hnodup as [Hfresh Hnodup].
    cbn [cache_inline_sources]. unfold bind at 1, call.
    destruct (sourceContentFor consumer s) as [contents|] eqn:Hc; [|contradiction].
    assert (Hstep : exists st1,
               (let! _ := match contents with
                          | Some (c :: cs) =>
                              set_fileContents
                                (supportRelativeURL (cm_url sourceMap) s) (c :: cs)
                          | _ => ret tt
                          end in
                cache_inline_sources sourceMap consumer srcs) st
               = cache_inline_sources sourceMap consumer srcs st1
               /\ (forall other, other <> supportRelativeURL (cm_url sourceMap) s ->
                     fileContentsCache st1 !! other = fileContentsCache st !! other)
               /\ (forall c cs, contents = Some (c :: cs) ->
                     supportRelativeURL (cm_url sourceMap) s <> lit "__proto__" ->
                     fileContentsCache st1 !! supportRelativeURL (cm_url sourceMap) s
                     = Some (Js.Text (c :: cs)))).
    { destruct contents as [[|c cs]|].
      - exists st. split; [reflexivity|]. split; [reflexivity|discriminate].
      - destruct (set_fileContents_spec (supportRelativeURL (cm_url sourceMap) s)
                                        (c :: cs) st) as (st1 & Hset & Hother & Hsame).
        exists st1. split; [unfold bind; now rewrite Hset|]. split; [exact Hother|].
        intros c' cs' [= <- <-]. exact Hsame.
      - exists st. split; [reflexivity|]. split; [reflexivity|discriminate]. }
    destruct Hstep as (st1 & -> & Hother & Hsame).
    destruct (IH st1 Hnodup) as (st' & Hrun & Hin & Hout).
    exists st'. split; [exact Hrun|].
    split.
    + intros s' c cs [<-|Hs'] Hc' Hne; [|now apply Hin].
      rewrite Hc in Hc'. injection Hc' as ->.
      assert (H : fileContentsCache st' !! supportRelativeURL (cm_url sourceMap) s
                  = Some (Js.Text (c :: cs))).
      { rewrite Hout by exact Hfresh. now apply Hsame. }
      split; [exact H|]. unfold errorSource_contents. now rewrite H.
    + intros path Hpath. rewrite map_cons in Hpath.
      apply List.not_in_cons in Hpath as [Hne Hpath]. rewrite Hout by exact Hpath.
      apply Hother. congruence.
Qed.

(** ** [getErrorSource] *)

Lemma re_first_frame_inv s m :
  exec Pat.re_first_frame s = Some m ->
  exists pre fn src l c post,
    s = pre ++ [newline] ++ lit "   at " ++ fn ++ lit " (" ++ src ++ lit ":" ++ l
          ++ lit ":" ++ c ++ lit ")" ++ post
    /\ fn <> [] /\ forallb (Pat.not_char "(") fn = true
    /\ forallb Js.is_dot src = true
    /\ l <> [] /\ forallb Js.is_digit l = true
    /\ c <> [] /\ forallb Js.is_digit c = true
    /\ capture m 1 = src /\ capture m 2 = l /\ capture m 3 = c.
Proof.
  unfold exec. intros H. apply search_sound in H as (pre & t & -> & H).
  apply match_at_sound in H as (i' & s' & c' & HM & ->).
  unfold Pat.re_first_frame in HM. unfold_pattern HM.
  match goal with
  | H1 : forallb Js.is_dot ?src = true,
    H2 : forallb (Pat.not_char "(") ?fn = true,
    H3 : forallb Js.is_digit ?l = true |- context [?l ++ ":"%char :: ?c ++ _] =>
      exists pre, fn, src, l, c, s'
  end.
  repeat split; auto; solve_capture.
Qed.

Lemma errorSource_contents_store src st :
  exists contents events,
    errorSource_contents src st
    = Ok contents (mkStore (fileContentsCache st) (sourceMapCache st)
                           (events ++ trace st))
    /\ length events <= 2
    /\ forallb is_fs_call events = true
    /\ (events = [] <->
        exists found, fileContentsCache st !! src = Some found
                      /\ Js.truthy_value found = true)
    /\ (forall c cs, contents = Some (Js.Text (c :: cs)) ->
          fileContentsCache st !! src = Some (Js.Text (c :: cs))
          \/ (events <> [] /\ fs_existsSync src = true
              /\ fs_readFileSync src = Returns (c :: cs)))
    /\ (forall text, contents = Some (Js.Object text) ->
          fileContentsCache st !! src = Some (Js.Object text)).
Proof.
  unfold errorSource_contents.
  destruct (fileContentsCache st !! src) as [[[|c cs]|text]|] eqn:Hc.
  - unfold bind, log. cbv beta iota. destruct (fs_existsSync src) eqn:Hex.
    + destruct (fs_readFileSync src) as [data|] eqn:Hread; simpl;
        eexists _, [_; _]; (split; [reflexivity|]); simpl;
        (split; [lia|]); (split; [reflexivity|]);
        (split; [split; [discriminate|intros (? & [= <-] & ?); discriminate]|]);
        (split; [|intros ? [= ]]);
        intros c cs [= <-]; try discriminate; right; repeat split; auto; discriminate.
    + simpl. eexists _, [_]. split; [reflexivity|]. simpl. split; [lia|].
      split; [reflexivity|].
      split; [split; [discriminate|intros (? & [= <-] & ?); discriminate]|].
      split; [intros ? ? [= ]|intros ? [= ]].
  - exists (Some (Js.Text (c :: cs))), []. destruct st; simpl in *.
    split; [reflexivity|]. split; [lia|]. split; [reflexivity|].
    split; [split; eauto|]. split; [|intros ? [= ]].
    intros c' cs' [= <- <-]. now left.
  - exists (Some (Js.Object text)), []. destruct st; simpl in *.
    split; [reflexivity|]. split; [lia|]. split; [reflexivity|].
    split; [split; eauto|]. split; [intros ? ? [= ]|].
    intros text' [= <-]. reflexivity.
  - unfold bind, log. cbv beta iota. destruct (fs_existsSync src) eqn:Hex.
    + destruct (fs_readFileSync src) as [data|] eqn:Hread; simpl;
        eexists _, [_; _]; (split; [reflexivity|]); simpl;
        (split; [lia|]); (split; [reflexivity|]);
        (split; [split; [discriminate|intros (? & ? & ?); discriminate]|]);
        (split; [|intros ? [= ]]);
        intros c cs [= <-]; try discriminate; right; repeat split; auto; discriminate.
    + simpl. eexists _, [_]. split; [reflexivity|]. simpl. split; [lia|].
      split; [reflexivity|].
      split; [split; [discriminate|intros (? & ? & ?); discriminate]|].
      split; [intros ? ? [= ]|intros ? [= ]].
Qed.



(** X15: what [getErrorSource] returns is about a frame of the stack.
    When it returns a text, the stack has a line feed, three spaces, [at],
    a function name and, in parentheses, a source, a line number and a
    column number; the contents of that source, cached or else read from
    the disk, have a line of that number, which is not empty; and the text
    is the source and the line number, that line, and a caret under the
    column. *)
Theorem getErrorSource_sound (stack text : str) (st st' : Store) :
  getErrorSource stack st = Ok (Some text) st' ->
  exists pre fnname src lineno colno post contents code,
    stack = pre ++ [newline] ++ lit "   at " ++ fnname ++ lit " (" ++ src
              ++ lit ":" ++ lineno ++ lit ":" ++ colno ++ lit ")" ++ post
    /\ forallb Js.is_digit lineno = true
    /\ forallb Js.is_digit colno = true
    /\ (fileContentsCache st !! src = Some (Js.Text contents)
        \/ (fs_existsSync src = true /\ fs_readFileSync src = Returns contents))
    /\ (1 <= Js.toNumber lineno)%Z
    /\ Js.split_lines contents !! (Z.to_nat (Js.toNumber lineno) - 1) = Some code
    /\ code <> []
    /\ text = src ++ lit ":" ++ Js.numberToString (Js.toNumber lineno) ++ [newline]
                ++ code ++ [newline]
                ++ replicate (Z.to_nat (Js.toNumber colno) - 1) " "%char ++ lit "^".
Proof.
  unfold getErrorSource. intros Hrun.
  destruct (exec Pat.re_first_frame stack) as [m|] eqn:Hexec; [|discriminate].
  apply re_first_frame_inv in Hexec
    as (pre & fn & src & l & c & post & Hstack & _ & _ & _ & _ & Hl & _ & Hc
        & Hsrc & Hline & Hcol).
  cbv zeta in Hrun. rewrite Hsrc, Hline, Hcol in Hrun.
  apply bind_Ok_inv in Hrun as (contents & st1 & Hcontents & Hrun).
  destruct (errorSource_contents_store src st)
    as (contents' & events & Hstore & _ & _ & _ & Hfrom & _).
  rewrite Hstore in Hcontents. injection Hcontents as -> _.
  destruct contents as [[[|x xs]|object]|]; try discriminate.
  destruct (array_get (Js.split_lines (x :: xs)) (Js.toNumber l - 1))
    as [[|d ds]|] eqn:Hget; try discriminate.
  apply bind_Ok_inv in Hrun as (indent & st2 & Hindent & Hrun).
  apply bind_Ok_inv in Hrun as (built & st3 & Hbuilt & Hrun).
  injection Hrun as <- _.
  unfold call, build_string in Hbuilt.
  destruct (max_string_length <? _)%Z; [discriminate|]. injection Hbuilt as <- _.
  unfold call, caret_indent in Hindent.
  destruct (2 ^ 32 <=? Js.toNumber c)%Z; [discriminate|].
  destruct (max_string_length <? _)%Z; [discriminate|]. injection Hindent as <- _.
  unfold array_get in Hget.
  destruct (Z.ltb_spec (Js.toNumber l - 1) 0) as [|Hpos]; [discriminate|].
  exists pre, fn, src, l, c, post, (x :: xs), (d :: ds).
  split; [exact Hstack|]. split; [exact Hl|]. split; [exact Hc|].
  split; [destruct (Hfrom x xs eq_refl) as [|(_ & ? & ?)]; auto|].
  split; [lia|]. split; [|split; [discriminate|reflexivity]].
  rewrite <- Hget. f_equal. lia.
Qed.

(** ** Greedy quantifiers *)

(** A greedy quantifier takes the whole run of characters of its class
    when what follows the quantifier matches after the run. *)
Lemma star_greedy {R : Type} (p : ascii -> bool) (k : @cont R) (u s' : str) :
  forall i c res,
    forallb p u = true ->
    k (i + length u) s' c = Some res ->
    star p i (u ++ s') c k = Some res
    \/ exists x t, s' = x :: t /\ p x = true.
Proof.
  induction u as [|x u IH]; intros i c res Hu Hk.
  - simpl in *. rewrite Nat.add_0_r in Hk. destruct s' as [|y t]; [now left|].
    simpl. destruct (p y) eqn:Hy; [right; eauto|now left].
  - simpl in *. apply andb_true_iff in Hu as [Hx Hu]. rewrite Hx.
    rewrite Nat.add_succ_r in Hk.
    destruct (IH (S i) c res Hu Hk) as [->|?]; auto.
Qed.

Lemma re_protocol_exec (scheme hostname rest : str) :
  scheme <> [] -> forallb Js.is_word scheme = true ->
  forallb (Pat.not_char "/") hostname = true ->
  (rest = [] \/ exists t, rest = "/"%char :: t) ->
  exists m,
    exec Pat.re_protocol (scheme ++ lit "://" ++ hostname ++ rest) = Some m
    /\ capture m 0 = scheme ++ lit "://" ++ hostname.
Proof.
  intros Hne Hword Hhost Hrest.
  unfold Pat.re_protocol. cbn [seq]. rewrite exec_anchored.
  destruct scheme as [|x scheme]; [contradiction|].
  simpl in Hword. apply andb_true_iff in Hword as [Hx Hword].
  unfold match_at. cbn [matcher app Nat.eqb]. rewrite Hx.
  set (c0 := replicate _ None).
  set (input := x :: scheme ++ lit "://" ++ hostname ++ rest).
  set (k2 := fun (j : nat) (_ : str) (c : caps) =>
               Some (mkMatch 0 j (<[0 := Some (take (j - 0) input)]> c))).
  assert (H2 : star (Pat.not_char "/") (S (S (S (1 + length scheme))))
                 (hostname ++ rest) c0 k2
               = k2 (S (S (S (1 + length scheme))) + length hostname) rest c0).
  { destruct (star_greedy (Pat.not_char "/") k2 hostname rest
                (S (S (S (1 + length scheme)))) c0 _ Hhost eq_refl)
      as [H|(y & t & -> & Hy)]; [exact H|].
    destruct Hrest as [|(t' & [= -> ->])]; [discriminate|discriminate]. }
  destruct (star_greedy Js.is_word
              (fun i' s' c' => matcher (Str "://") i' s' c'
                 (fun i'0 s'0 c'0 => star (Pat.not_char "/") i'0 s'0 c'0 k2))
              scheme (lit "://" ++ hostname ++ rest) 1 c0 _ Hword H2)
    as [H|(y & t & [= <- _] & Hy)]; [|discriminate].
  eexists. split; [exact H|].
  unfold capture, group. simpl. f_equal.
  transitivity (take (S (S (S (length scheme + length hostname))))
                  ((scheme ++ lit "://" ++ hostname) ++ rest)).
  - f_equal. rewrite <- !app_assoc. reflexivity.
  - apply take_prefix. rewrite !length_app. simpl. lia.
Qed.

Lemma re_protocol_inv dir m :
  exec Pat.re_protocol dir = Some m ->
  exists scheme t,
    dir = scheme ++ lit "://" ++ t /\ scheme <> [] /\ forallb Js.is_word scheme = true.
Proof.
  unfold Pat.re_protocol. cbn [seq]. rewrite exec_anchored. intros H.
  apply match_at_sound in H as (i' & s' & c' & HM & ->).
  unfold_pattern HM.
  match goal with
  | H1 : forallb Js.is_word ?scheme = true |- context [?scheme ++ ":"%char :: "/"%char :: "/"%char :: ?t] =>
      exists scheme, t
  end.
  auto.
Qed.

Lemma re_drive_test (rest : str) :
  test Pat.re_drive rest = true
  <-> exists d t, rest = "/"%char :: d :: ":"%char :: t /\ Js.is_word d = true.
Proof.
  unfold test. rewrite bool_decide_eq_true.
  unfold Pat.re_drive. cbn [seq]. rewrite exec_anchored. split.
  - intros [m H]. apply match_at_sound in H as (i' & s' & c' & HM & ->).
    unfold_pattern HM. eauto.
  - intros (d & t & -> & Hd). eapply match_at_complete.
    cbn [Matches]. repeat (eexists || split); eauto.
Qed.

(** X16: [supportRelativeURL] resolves a URL against the directory of a
    file and keeps the protocol and the host of the directory out of the
    resolution. For a directory [scheme://host] followed by a path, the
    result is [scheme://host] followed by what [path.resolve] makes of the
    path and the URL; when the path starts with a drive ([/C:]), the slash
    before the drive stays with the prefix and backslashes of the resolved
    path become slashes. A directory without such a prefix is resolved as
    it is. *)
Theorem supportRelativeURL_keeps_protocol (file url : str) :
  file <> [] ->
  (forall scheme hostname rest,
     path_dirname file = scheme ++ lit "://" ++ hostname ++ rest ->
     scheme <> [] -> forallb Js.is_word scheme = true ->
     forallb (Pat.not_char "/") hostname = true ->
     rest = [] \/ (exists t, rest = "/"%char :: t) ->
     (forall d t,
        rest = "/"%char :: d :: ":"%char :: t -> Js.is_word d = true ->
        supportRelativeURL (Some file) url
        = scheme ++ lit "://" ++ hostname ++ lit "/"
            ++ Js.backslashes_to_slashes (path_resolve (d :: ":"%char :: t) url))
     /\ ((forall d t, rest = "/"%char :: d :: ":"%char :: t -> Js.is_word d = false) ->
         supportRelativeURL (Some file) url
         = scheme ++ lit "://" ++ hostname ++ path_resolve rest url))
  /\ ((forall scheme t,
         path_dirname file = scheme ++ lit "://" ++ t -> scheme <> [] ->
         forallb Js.is_word scheme = false) ->
      supportRelativeURL (Some file) url = path_resolve (path_dirname file) url).
Proof.
  intros Hfile. destruct file as [|f file]; [contradiction|]. split.
  - intros scheme hostname rest Hdir Hne Hword Hhost Hrest.
    destruct (re_protocol_exec scheme hostname rest Hne Hword Hhost Hrest)
      as (m & Hexec & Hcap).
    assert (Hstart : forall tail : str,
               drop (length ((scheme ++ lit "://" ++ hostname) ++ tail))
                    (scheme ++ lit "://" ++ hostname ++ rest)
               = drop (length tail) rest).
    { intros tail. rewrite length_app, <- drop_drop.
      replace (scheme ++ lit "://" ++ hostname ++ rest)
        with ((scheme ++ lit "://" ++ hostname) ++ rest)
        by (rewrite <- !app_assoc; reflexivity).
      now rewrite drop_app_length. }
    assert (Htruthy : Js.truthy (scheme ++ lit "://" ++ hostname) = true)
      by (destruct scheme; [contradiction|reflexivity]).
    unfold supportRelativeURL. cbv zeta. rewrite Hdir, Hexec, Hcap, Htruthy.
    pose proof (Hstart []) as Hstart0. rewrite app_nil_r in Hstart0.
    simpl length in Hstart0 at 2. rewrite drop_0 in Hstart0.
    rewrite Hstart0, (Hstart (lit "/")). split.
    + intros d t -> Hd.
      assert (Hdrive : test Pat.re_drive ("/"%char :: d :: ":"%char :: t) = true)
        by (apply re_drive_test; eauto).
      rewrite Hdrive. simpl andb. cbv iota.
      rewrite <- !app_assoc. reflexivity.
    + intros Hnodrive.
      assert (Hdrive : test Pat.re_drive rest = false).
      { apply not_true_is_false. intros (d & t & -> & Hd)%re_drive_test.
        rewrite (Hnodrive d t eq_refl) in Hd. discriminate. }
      rewrite Hdrive. simpl andb. cbv iota. rewrite <- !app_assoc. reflexivity.
  - intros Hnone. unfold supportRelativeURL. cbv zeta.
    destruct (exec Pat.re_protocol (path_dirname (f :: file))) as [m|] eqn:Hexec.
    + apply re_protocol_inv in Hexec as (scheme & t & Hdir & Hne & Hword).
      rewrite (Hnone _ _ Hdir Hne) in Hword. discriminate.
    + reflexivity.
Qed.

(** ** The normal form of a path *)

Lemma re_file_test (path : str) :
  test Pat.re_file path = Js.startsWith path (lit "file:").
Proof.
  unfold test, Pat.re_file. cbn [seq]. rewrite exec_anchored.
  unfold match_at. cbn [matcher Str Lit lit list_ascii_of_string Nat.eqb Js.startsWith].
  repeat (destruct path as [|? path]; [reflexivity|];
          destruct (Ascii.eqb _ _); [|reflexivity]; cbn [andb]).
  reflexivity.
Qed.

(** X17: the path under which the file handler caches and reads. A path
    that, trimmed, does not start with [file:] is only trimmed. A
    [file:///] URL loses that prefix: with a drive letter the drive and its
    colon go as well, so that [file:///C:/dir/file] becomes [/dir/file];
    without one a slash stands for the prefix. *)
Theorem normalize_path_strips_scheme (path : str) :
  (Js.startsWith (Js.trim path) (lit "file:") = false ->
   normalize_path path = Js.trim path)
  /\ (forall d rest,
        Js.trim path = lit "file:///" ++ d :: ":"%char :: rest ->
        Js.is_word d = true ->
        normalize_path path = rest)
  /\ (forall rest,
        Js.trim path = lit "file:///" ++ rest ->
        (forall d t, rest = d :: ":"%char :: t -> Js.is_word d = false) ->
        normalize_path path = "/"%char :: rest).
Proof.
  unfold normalize_path. cbv zeta. rewrite re_file_test. split; [|split].
  - now intros ->.
  - intros d rest -> Hd.
    cbn [Js.startsWith lit list_ascii_of_string app]. simpl andb. cbv iota.
    unfold replace_first, exec, Pat.re_file_scheme. cbn [seq search].
    unfold match_at. cbn [matcher Str Lit lit list_ascii_of_string]. simpl Ascii.eqb.
    cbv iota. rewrite Hd. simpl Ascii.eqb. cbv iota. reflexivity.
  - intros rest -> Hnodrive.
    cbn [Js.startsWith lit list_ascii_of_string app]. simpl andb. cbv iota.
    unfold replace_first, exec, Pat.re_file_scheme. cbn [seq search].
    unfold match_at.
    destruct rest as [|d [|e t]];
      cbn [matcher Str Lit lit list_ascii_of_string].
    + reflexivity.
    + destruct (Js.is_word d); reflexivity.
    + destruct (Js.is_word d) eqn:Hd; destruct (Ascii.eqb ":" e) eqn:He;
        simpl Ascii.eqb; cbv iota; try reflexivity.
      apply Ascii.eqb_eq in He as <-.
      rewrite (Hnodrive d t eq_refl) in Hd. discriminate.
Qed.

(** ** A [sourceMappingURL] comment at the end of a file *)

Lemma no_slash_after_newline_app (a t : str) :
  forallb (fun x => negb (Ascii.eqb x newline)) a = true ->
  no_slash_after_newline (a ++ t) = no_slash_after_newline t.
Proof.
  induction a as [|x a IH]; [reflexivity|].
  cbn [forallb app no_slash_after_newline].
  intros [Hx Ha]%andb_true_iff. rewrite IH by assumption.
  apply negb_true_iff in Hx. rewrite Hx.
  destruct (a ++ t); reflexivity.
Qed.

Lemma no_slash_after_newline_space (ws t : str) :
  forallb Js.is_space ws = true ->
  (forall v, t <> "/"%char :: v) ->
  no_slash_after_newline (ws ++ t) = no_slash_after_newline t.
Proof.
  intros Hws Ht. induction ws as [|x ws IH]; [reflexivity|].
  cbn [forallb] in Hws. apply andb_true_iff in Hws as [Hx Hws].
  cbn [app no_slash_after_newline]. rewrite IH by assumption.
  destruct (ws ++ t) as [|y v] eqn:Heq; [reflexivity|].
  replace (Ascii.eqb y "/") with false; [now rewrite andb_false_r|].
  symmetry. apply Ascii.eqb_neq. intros ->.
  destruct ws as [|z ws]; simpl in Heq.
  - now apply (Ht v).
  - injection Heq as -> _. simpl in Hws. discriminate.
Qed.

Lemma no_slash_after_newline_pair (a v : str) :
  no_slash_after_newline (a ++ newline :: "/"%char :: v) = false.
Proof.
  induction a as [|x a IH]; [reflexivity|].
  cbn [app no_slash_after_newline]. rewrite IH. apply andb_false_r.
Qed.

Lemma url_char_not_newline (g : str) :
  forallb Pat.url_char g = true ->
  forallb (fun x => negb (Ascii.eqb x newline)) g = true.
Proof.
  induction g as [|x g IH]; simpl; [reflexivity|].
  intros [Hx Hg]%andb_true_iff. rewrite IH by assumption.
  destruct (Ascii.eqb_spec x newline) as [->|]; [discriminate|reflexivity].
Qed.

Lemma url_char_block_not_newline (g : str) :
  forallb Pat.url_char_block g = true ->
  forallb (fun x => negb (Ascii.eqb x newline)) g = true.
Proof.
  induction g as [|x g IH]; simpl; [reflexivity|].
  intros [Hx Hg]%andb_true_iff. rewrite IH by assumption.
  destruct (Ascii.eqb_spec x newline) as [->|]; [discriminate|reflexivity].
Qed.

Lemma at_or_hash_not_newline mk :
  Pat.at_or_hash mk = true -> negb (Ascii.eqb mk newline) = true.
Proof.
  intros H. destruct (Ascii.eqb_spec mk newline) as [->|]; [discriminate|reflexivity].
Qed.

Lemma no_slash_after_newline_line_comment mk ws1 g ws2 :
  Pat.at_or_hash mk = true ->
  forallb Js.is_space ws1 = true ->
  forallb Pat.url_char g = true ->
  forallb Js.is_space ws2 = true ->
  no_slash_after_newline
    (lit "//" ++ mk :: ws1 ++ lit "sourceMappingURL=" ++ g ++ ws2) = true.
Proof.
  intros Hmk Hws1 Hg Hws2.
  change (lit "//" ++ mk :: ws1 ++ lit "sourceMappingURL=" ++ g ++ ws2)
    with ([ "/"%char; "/"%char; mk ] ++ ws1 ++ lit "sourceMappingURL=" ++ g ++ ws2).
  rewrite no_slash_after_newline_app
    by (cbn [forallb]; rewrite (at_or_hash_not_newline _ Hmk); reflexivity).
  rewrite no_slash_after_newline_space by (assumption || discriminate).
  rewrite no_slash_after_newline_app by reflexivity.
  rewrite no_slash_after_newline_app by now apply url_char_not_newline.
  rewrite <- (app_nil_r ws2).
  rewrite no_slash_after_newline_space by (assumption || discriminate).
  reflexivity.
Qed.

Lemma no_slash_after_newline_block_comment mk ws1 g ws2 ws3 :
  Pat.at_or_hash mk = true ->
  forallb Js.is_space ws1 = true ->
  forallb Pat.url_char_block g = true ->
  forallb Js.is_space ws2 = true ->
  forallb Js.is_space ws3 = true ->
  no_slash_after_newline
    (lit "/*" ++ mk :: ws1 ++ lit "sourceMappingURL=" ++ g ++ ws2 ++ lit "*/" ++ ws3)
  = true.
Proof.
  intros Hmk Hws1 Hg Hws2 Hws3.
  change (lit "/*" ++ mk :: ws1 ++ lit "sourceMappingURL=" ++ g ++ ws2 ++ lit "*/" ++ ws3)
    with ([ "/"%char; "*"%char; mk ] ++ ws1 ++ lit "sourceMappingURL=" ++ g ++ ws2
            ++ lit "*/" ++ ws3).
  rewrite no_slash_after_newline_app
    by (cbn [forallb]; rewrite (at_or_hash_not_newline _ Hmk); reflexivity).
  rewrite no_slash_after_newline_space by (assumption || discriminate).
  rewrite no_slash_after_newline_app by reflexivity.
  rewrite no_slash_after_newline_app by now apply url_char_block_not_newline.
  rewrite no_slash_after_newline_space by (assumption || discriminate).
  rewrite no_slash_after_newline_app by reflexivity.
  rewrite <- (app_nil_r ws3).
  rewrite no_slash_after_newline_space by (assumption || discriminate).
  reflexivity.
Qed.

(** A match of the pattern of line 110 never runs over a line feed that
    has a slash after it. *)
Lemma sourceMappingURL_match_shape i s m :
  match_at Pat.re_sourceMappingURL i s = Some m ->
  exists u s',
    s = u ++ s' /\ index m = i /\ lastIndex m = i + length u
    /\ no_slash_after_newline u = true.
Proof.
  intros H. apply match_at_sound in H as (i' & s' & c' & HM & ->).
  unfold Pat.re_sourceMappingURL in HM. destruct HM as [HM|HM].
  - unfold_pattern HM.
    match goal with
    | Hg : forallb Pat.url_char ?g = true |- context [?mk :: ?ws1 ++ "s"%char :: _] =>
        match goal with
        | |- context [g ++ ?ws2 ++ ?rest] =>
            exists (lit "//" ++ mk :: ws1 ++ lit "sourceMappingURL=" ++ g ++ ws2), rest
        end
    end.
    split; [cbn [lit list_ascii_of_string app];
            repeat (rewrite <- !app_assoc; cbn [app]); reflexivity|].
    split; [reflexivity|].
    split; [cbn [lastIndex lit list_ascii_of_string app length];
            rewrite !length_app; cbn [length]; rewrite !length_app; lia|].
    now apply no_slash_after_newline_line_comment.
  - unfold_pattern HM.
    match goal with
    | Hg : forallb Pat.url_char_block ?g = true
      |- context [?mk :: ?ws1 ++ "s"%char :: _] =>
        match goal with
        | |- context [g ++ ?ws2 ++ "*"%char :: "/"%char :: ?ws3 ++ ?rest] =>
            exists (lit "/*" ++ mk :: ws1 ++ lit "sourceMappingURL=" ++ g ++ ws2
                      ++ lit "*/" ++ ws3), rest
        end
    end.
    split; [cbn [lit list_ascii_of_string app];
            repeat (rewrite <- !app_assoc; cbn [app]); reflexivity|].
    split; [reflexivity|].
    split; [cbn [lastIndex lit list_ascii_of_string app length];
            rewrite !length_app; cbn [length]; rewrite !length_app;
            cbn [length]; rewrite ?length_app; lia|].
    now apply no_slash_after_newline_block_comment.
Qed.

Lemma match_before_comment (body rest : str) i m :
  i <= length body ->
  match_at Pat.re_sourceMappingURL i
    (drop i (body ++ newline :: "/"%char :: rest)) = Some m ->
  index m = i /\ lastIndex m <= S (length body).
Proof.
  intros Hi H. apply sourceMappingURL_match_shape in H as (u & s' & Hs & Hindex & -> & Hu).
  split; [exact Hindex|].
  destruct (Nat.le_gt_cases (i + length u) (S (length body))) as [|Hlong]; [assumption|].
  exfalso. rewrite drop_app_le in Hs by exact Hi.
  assert (Hu' : u = take (length u) (drop i body ++ newline :: "/"%char :: rest)).
  { rewrite Hs. now rewrite take_app_length. }
  rewrite take_app_ge in Hu' by (rewrite length_drop; lia).
  rewrite length_drop in Hu'.
  destruct (length u - (length body - i)) as [|[|k]] eqn:Hk; try lia.
  cbn [take] in Hu'. rewrite Hu', no_slash_after_newline_pair in Hu. discriminate.
Qed.

Lemma search_first r :
  forall k s i m0,
    k <= length s ->
    match_at r (i + k) (drop k s) = Some m0 ->
    exists j m, j <= k /\ search r i s = Some m
                /\ match_at r (i + j) (drop j s) = Some m.
Proof.
  induction k as [|k IH]; intros s i m0 Hk H.
  - rewrite Nat.add_0_r, drop_0 in H. exists 0, m0. rewrite Nat.add_0_r, drop_0.
    split; [lia|]. split; [|exact H]. destruct s; simpl; now rewrite H.
  - destruct s as [|x s]; [simpl in Hk; lia|].
    destruct (match_at r i (x :: s)) as [m|] eqn:Hhere.
    + exists 0, m. rewrite Nat.add_0_r, drop_0. split; [lia|].
      split; [|exact Hhere]. simpl. now rewrite Hhere.
    + rewrite Nat.add_succ_r in H. cbn [drop] in H.
      destruct (IH s (S i) m0) as (j & m & Hj & Hsearch & Hm);
        [simpl in Hk; lia|exact H|].
      exists (S j), m. split; [lia|]. rewrite Nat.add_succ_r. cbn [drop].
      split; [|exact Hm]. simpl. now rewrite Hhere.
Qed.

Lemma star_greedy_apply {R : Type} (p : ascii -> bool) (k : @cont R) (u s' : str)
    i c res :
  forallb p u = true ->
  (forall x t, s' = x :: t -> p x = false) ->
  k (i + length u) s' c = Some res ->
  star p i (u ++ s') c k = Some res.
Proof.
  intros Hu Hhead Hk.
  destruct (star_greedy p k u s' i c res Hu Hk) as [H|(x & t & -> & Hx)]; [exact H|].
  rewrite (Hhead x t eq_refl) in Hx. discriminate.
Qed.

Lemma space_not_url_char (ws : str) :
  forallb Js.is_space ws = true ->
  forall x t, ws = x :: t -> Pat.url_char x = false.
Proof.
  intros Hws x t ->. simpl in Hws. apply andb_true_iff in Hws as [Hx _].
  unfold Pat.url_char. now rewrite Hx.
Qed.

Lemma star_all {R : Type} (p : ascii -> bool) (k : @cont R) (u : str) i c res :
  forallb p u = true ->
  k (i + length u) [] c = Some res ->
  star p i u c k = Some res.
Proof.
  intros Hu Hk. rewrite <- (app_nil_r u).
  apply star_greedy_apply; [exact Hu|discriminate|exact Hk].
Qed.

Lemma line_comment_match (n : nat) (mk : ascii) (ws1 url ws2 : str) :
  Pat.at_or_hash mk = true ->
  forallb Js.is_space ws1 = true ->
  url <> [] -> forallb Pat.url_char url = true ->
  forallb Js.is_space ws2 = true ->
  exists m,
    match_at Pat.re_sourceMappingURL n
      (lit "//" ++ mk :: ws1 ++ lit "sourceMappingURL=" ++ url ++ ws2) = Some m
    /\ group m 1 = Some url
    /\ lastIndex m
       = n + length (lit "//" ++ mk :: ws1 ++ lit "sourceMappingURL=" ++ url ++ ws2).
Proof.
  intros Hmk Hws1 Hne Hurl Hws2.
  destruct url as [|x url]; [contradiction|].
  cbn [forallb] in Hurl. apply andb_true_iff in Hurl as [Hx Hurl].
  unfold match_at, Pat.re_sourceMappingURL.
  cbn [seq matcher Str Lit lit list_ascii_of_string app].
  rewrite !Ascii.eqb_refl, Hmk.
  match goal with
  | |- context [star ?p ?i (?u ++ ?s') ?c ?k] =>
      eassert (Hstar : star p i (u ++ s') c k = Some _)
  end.
  { apply star_greedy_apply; [exact Hws1|intros ? ? [= <- _]; reflexivity|].
    cbv beta iota. rewrite !Ascii.eqb_refl, Hx.
    apply star_greedy_apply; [exact Hurl|now apply space_not_url_char|].
    cbv beta. apply star_all; [exact Hws2|]. reflexivity. }
  rewrite Hstar. clear Hstar. eexists. split; [reflexivity|].
  cbn [lastIndex groups]. split.
  - unfold group. cbn. f_equal. apply (take_prefix (x :: url) ws2). simpl. lia.
  - cbn [length]. rewrite length_app. cbn [length]. rewrite length_app. lia.
Qed.

(** The loop on a file that ends in a line comment. *)
Lemma lastMatch_loop_trailing (body comment : str) (final : MatchResult) :
  body = [] \/ (exists body', body = body' ++ [newline]) ->
  (exists rest, comment = "/"%char :: rest) ->
  match_at Pat.re_sourceMappingURL (length body) comment = Some final ->
  lastIndex final = length (body ++ comment) ->
  forall fuel from lastMatch,
    from <= length body ->
    length (body ++ comment) < from + fuel ->
    lastMatch_loop fuel (body ++ comment) from lastMatch = Some final.
Proof.
  intros Hbody (rest & ->) Hfinal Hend.
  assert (Hlen : length (body ++ "/"%char :: rest) = length body + S (length rest))
    by (rewrite length_app; reflexivity).
  induction fuel as [|fuel IH]; intros from lastMatch Hfrom Hfuel; [lia|].
  cbn [lastMatch_loop].
  assert (Hexec : exec_from Pat.re_sourceMappingURL from (body ++ "/"%char :: rest)
                  = search Pat.re_sourceMappingURL from
                      (drop from (body ++ "/"%char :: rest))).
  { unfold exec_from.
    destruct (Nat.leb_spec from (length (body ++ "/"%char :: rest))); [reflexivity|lia]. }
  destruct (search_first Pat.re_sourceMappingURL (length body - from)
              (drop from (body ++ "/"%char :: rest)) from final)
    as (j & m & Hj & Hsearch & Hm).
  { rewrite length_drop. lia. }
  { rewrite drop_drop. replace (from + (length body - from)) with (length body) by lia.
    now rewrite drop_app_length. }
  rewrite <- Hexec in Hsearch. rewrite Hsearch. rewrite drop_drop in Hm.
  destruct (Nat.eq_dec (from + j) (length body)) as [Heq|Hne].
  - rewrite Heq, drop_app_length, Hfinal in Hm. injection Hm as <-.
    destruct fuel as [|fuel]; [reflexivity|]. cbn [lastMatch_loop].
    unfold exec_from. rewrite Hend, Nat.leb_refl, drop_all.
    cbn [search]. reflexivity.
  - destruct Hbody as [Hb|(body' & Hb)]; [subst body; simpl in *; lia|].
    assert (Hlb : length body = S (length body'))
      by (subst body; rewrite length_app; simpl; lia).
    assert (Hm' : match_at Pat.re_sourceMappingURL (from + j)
                    (drop (from + j) (body' ++ newline :: "/"%char :: rest)) = Some m)
      by (subst body; rewrite <- app_assoc in Hm; exact Hm).
    apply match_before_comment in Hm' as [Hindex Hlast]; [|lia].
    pose proof (re_sourceMappingURL_progress _ _ _ Hsearch) as Hprogress.
    apply IH; lia.
Qed.

(** X18: a source that the file handler reads as a text which ends in a
    line comment [//# sourceMappingURL=url], on a line of its own, has that
    URL, whatever stands before the comment and whatever white space
    follows it: [retrieveSourceMapURL] returns the URL. The marker may be
    [#] or [@] and white space may follow it. The text is the one cached
    under the normal form of the source or, when a lookup in the cache
    finds nothing there, the file's; a name that the cache inherits from
    [Object.prototype] reads as the inherited member and not as its
    file. *)
Theorem retrieveSourceMapURL_trailing_comment (src body ws1 url ws2 : str)
    (mark : ascii) (st : Store) :
  view st (normalize_path src)
  = Js.Text (body ++ lit "//" ++ mark :: ws1 ++ lit "sourceMappingURL=" ++ url ++ ws2) ->
  body = [] \/ (exists body', body = body' ++ [newline]) ->
  Pat.at_or_hash mark = true ->
  forallb Js.is_space ws1 = true ->
  url <> [] ->
  forallb Pat.url_char url = true ->
  forallb Js.is_space ws2 = true ->
  value_of (retrieveSourceMapURL src st) = Some (Some url).
Proof.
  intros Hview Hbody Hmark Hws1 Hne Hurl Hws2.
  destruct (line_comment_match (length body) mark ws1 url ws2 Hmark Hws1 Hne Hurl Hws2)
    as (final & Hfinal & Hgroup & Hend).
  destruct (retrieveFileHandler_view src src st) as (st1 & Hrun & _).
  unfold retrieveSourceMapURL, retrieveFile, retrieveFileHandlers.
  cbn [handlerExec]. unfold bind at 1 2. rewrite Hrun, Hview.
  set (comment := lit "//" ++ mark :: ws1 ++ lit "sourceMappingURL=" ++ url ++ ws2) in *.
  assert (Htruthy : Js.truthy_value (Js.Text (body ++ comment)) = true)
    by (destruct body; reflexivity).
  rewrite Htruthy. unfold ret at 1. cbv beta iota. cbn [Js.toString].
  rewrite (lastMatch_loop_trailing body comment final Hbody); try assumption.
  - unfold ret. cbn [value_of]. now rewrite Hgroup.
  - eexists. reflexivity.
  - rewrite Hend. now rewrite length_app.
  - lia.
  - unfold id. lia.
Qed.

(** ** [retrieveSourceMap] on its own *)

(** X19: [retrieveSourceMap] never throws and never writes the source-map
    cache, which only [mapSourcePosition] does. What the files read as is
    the same afterwards, no retrieval handler runs for another source, and
    asking again gives the same answer. *)
Theorem retrieveSourceMap_only_retrieves (src : str) (st : Store) :
  exists urlAndMap st1,
    retrieveSourceMap src st = Ok urlAndMap st1
    /\ sourceMapCache st1 = sourceMapCache st
    /\ (forall path, view st1 path = view st path)
    /\ (forall other, other <> src -> retrievals other st1 = retrievals other st)
    /\ value_of (retrieveSourceMap src st1) = Some urlAndMap.
Proof.
  destruct (retrieves_retrieveSourceMap src st) as (r & st1 & Hrun & Hstep & Hdet).
  exists r, st1. split; [exact Hrun|].
  destruct Hstep as (Hview & Hmaps & Hevents).
  split; [exact Hmaps|]. split; [exact Hview|]. split.
  - intros other Hne. apply (retrievals_step src); [|exact Hne].
    split; [exact Hview|]. split; [exact Hmaps|exact Hevents].
  - apply Hdet, Hview.
Qed.

(** ** The state object and exceptions *)

(** X20: [remapStackLine] writes the state object and never reads it: the
    frame it returns and what it does to the store are the same for every
    state it is given. *)
Theorem remapStackLine_ignores_state (stackLine : str) (state state' : StackState)
    (st : Store) :
  match remapStackLine stackLine state st, remapStackLine stackLine state' st with
  | Ok (frame, _) st1, Ok (frame', _) st1' => frame = frame' /\ st1 = st1'
  | Throw st1, Throw st1' => st1 = st1'
  | _, _ => False
  end.
Proof.
  destruct (parse_frame stackLine) as [[fnname position]|] eqn:Hparse.
  - rewrite (remapStackLine_parsed _ state _ _ Hparse),
      (remapStackLine_parsed _ state' _ _ Hparse).
    unfold bind. destruct (mapSourcePosition position st); simpl; auto.
  - destruct (remapStackLine_unparsed _ state st Hparse) as (s1 & ->).
    destruct (remapStackLine_unparsed _ state' st Hparse) as (s2 & ->). auto.
Qed.

Lemma cache_inline_sources_throws sourceMap consumer srcs :
  forall st st',
    cache_inline_sources sourceMap consumer srcs st = Throw st' ->
    Exists (fun s => sourceContentFor consumer s = Throws) srcs.
Proof.
  induction srcs as [|s srcs IH]; intros st st' Hrun; [discriminate|].
  cbn [cache_inline_sources] in Hrun. unfold bind at 1, call in Hrun.
  destruct (sourceContentFor consumer s) as [contents|] eqn:Hs; [|now left].
  right. unfold bind at 1 in Hrun.
  destruct contents as [[|c cs]|]; try (eapply IH, Hrun).
  destruct (set_fileContents_store (supportRelativeURL (cm_url sourceMap) s)
                                   (c :: cs) st) as (files & Hset).
  rewrite Hset in Hrun. eapply IH, Hrun.
Qed.

Lemma trim_loop_throws i :
  forall frames state st st',
    trim_loop i frames state st = Throw st' ->
    exists stackLine state0 st0, remapStackLine stackLine state0 st0 = Throw st'.
Proof.
  induction i as [|i IH]; intros frames state st st' Hrun; [discriminate|].
  rewrite trim_loop_S in Hrun. unfold bind in Hrun.
  destruct (remapStackLine (frame_at frames (S i)) state st)
    as [[frame state1] st1|st1] eqn:Hline.
  - destruct (internal frame); [eapply IH, Hrun|discriminate].
  - injection Hrun as <-. eauto.
Qed.

Lemma remap_loop_throws i :
  forall frames state st st',
    remap_loop i frames state st = Throw st' ->
    exists stackLine state0 st0, remapStackLine stackLine state0 st0 = Throw st'.
Proof.
  induction i as [|i IH]; intros frames state st st' Hrun; [discriminate|].
  rewrite remap_loop_S in Hrun. unfold bind in Hrun.
  destruct (remapStackLine (frame_at frames (S i)) state st)
    as [[frame state1] st1|st1] eqn:Hline.
  - eapply IH, Hrun.
  - injection Hrun as <-. eauto.
Qed.

(** X21: [mapSourcePosition], [remapStackLine] and [remapStack] throw
    nothing of their own; their exceptions are those of the [source-map]
    package. When [mapSourcePosition] throws, the source has a decoded map
    in the cache whose [originalPositionFor] threw on the position, or the
    source had no cache entry, a map was retrieved for it, and the
    [SourceMapConsumer] constructor threw on that map, or [sourceContentFor]
    threw on one of the sources of the decoded map, or its
    [originalPositionFor] threw on the position. When [remapStackLine]
    throws, the line is a frame and [mapSourcePosition] threw on its
    position; when [remapStack] throws, a call of [remapStackLine] threw.
    Nothing of the file system makes them throw. (The strings these
    functions build are taken to fit the engine's longest string.) *)
Theorem exceptions_come_from_the_decoder (st st' : Store) :
  (forall position,
     mapSourcePosition position st = Throw st' ->
     (exists sourceMap consumer,
        sourceMapCache st !! source position = Some sourceMap
        /\ cm_map sourceMap = Some consumer
        /\ originalPositionFor consumer position = Throws)
     \/ (exists urlAndMap st1,
           sourceMapCache st !! source position = None
           /\ retrieveSourceMap (source position) st = Ok (Some urlAndMap) st1
           /\ (SourceMapConsumer_new (um_map urlAndMap) = Throws
               \/ exists consumer,
                    SourceMapConsumer_new (um_map urlAndMap) = Returns consumer
                    /\ (Exists (fun s => sourceContentFor consumer s = Throws)
                               (sources consumer)
                        \/ originalPositionFor consumer position = Throws))))
  /\ (forall stackLine state,
        remapStackLine stackLine state st = Throw st' ->
        exists fnname position,
          parse_frame stackLine = Some (fnname, position)
          /\ mapSourcePosition position st = Throw st')
  /\ (forall stack,
        remapStack stack st = Throw st' ->
        exists stackLine state st0, remapStackLine stackLine state st0 = Throw st').
Proof.
  split; [|split].
  - intros position Hrun. unfold mapSourcePosition in Hrun. unfold bind at 1 in Hrun.
    destruct (sourceMapCache st !! source position) as [sourceMap|] eqn:Hc.
    + rewrite (sourceMap_for_cached _ _ _ Hc) in Hrun.
      destruct (cm_map sourceMap) as [consumer|] eqn:Hmap; [|discriminate].
      left. exists sourceMap, consumer. split; [reflexivity|]. split; [exact Hmap|].
      unfold bind, call in Hrun.
      destruct (originalPositionFor consumer position) as [original|]; [|reflexivity].
      destruct (mapped_source original); discriminate.
    + right.
      destruct (retrieves_retrieveSourceMap (source position) st)
        as (r & st1 & Hretrieve & _).
      destruct r as [urlAndMap|].
      * exists urlAndMap, st1. split; [reflexivity|]. split; [exact Hretrieve|].
        destruct (SourceMapConsumer_new (um_map urlAndMap)) as [consumer|] eqn:Hnew;
          [|now left].
        right. exists consumer. split; [reflexivity|].
        rewrite (sourceMap_for_positive _ _ _ _ _ Hc Hretrieve Hnew) in Hrun.
        unfold bind at 1 in Hrun.
        destruct (cache_inline_sources _ consumer (sources consumer) _)
          as [[] st2|st2] eqn:Hinline.
        -- right. unfold ret at 1 in Hrun. cbv beta iota in Hrun. simpl in Hrun.
           unfold bind, call in Hrun.
           destruct (originalPositionFor consumer position) as [original|];
             [|reflexivity].
           destruct (mapped_source original); discriminate.
        -- left. eapply cache_inline_sources_throws, Hinline.
      * rewrite (sourceMap_for_negative _ _ _ Hc Hretrieve) in Hrun. discriminate.
  - intros stackLine state Hrun.
    destruct (parse_frame stackLine) as [[fnname position]|] eqn:Hparse.
    + exists fnname, position. split; [reflexivity|].
      rewrite (remapStackLine_parsed _ state _ _ Hparse) in Hrun.
      unfold bind in Hrun.
      destruct (mapSourcePosition position st); [discriminate|].
      now injection Hrun as <-.
    + destruct (remapStackLine_unparsed _ state st Hparse) as (state' & Hline).
      rewrite Hline in Hrun. discriminate.
  - intros [stack|] Hrun; [|discriminate].
    unfold remapStack in Hrun. cbv zeta in Hrun. unfold bind at 1 in Hrun.
    destruct (trim_loop _ _ _ st) as [[[i frames] state] st1|st1] eqn:Htrim.
    + unfold bind in Hrun.
      destruct (remap_loop i frames state st1) as [[frames' state'] st2|st2] eqn:Hremap;
        [discriminate|].
      injection Hrun as <-. eapply remap_loop_throws, Hremap.
    + injection Hrun as <-. eapply trim_loop_throws, Htrim.
Qed.

(** ** White space around a path *)

Lemma drop_while_app_stop {A} (p : A -> bool) (u v : list A) :
  forallb p u = false -> Js.drop_while p (u ++ v) = Js.drop_while p u ++ v.
Proof.
  induction u as [|x u IH]; simpl; [discriminate|].
  destruct (p x); [exact IH|reflexivity].
Qed.

Lemma drop_while_nil {A} (p : A -> bool) (u : list A) :
  forallb p u = true -> Js.drop_while p u = [].
Proof.
  intros Hu. rewrite <- (app_nil_r u). now rewrite drop_while_all.
Qed.

Lemma drop_while_keeps_failing {A} (p : A -> bool) (u : list A) :
  forallb p u = false -> forallb p (Js.drop_while p u) = false.
Proof.
  induction u as [|x u IH]; simpl; [discriminate|].
  destruct (p x) eqn:Hx; [exact IH|]. intros _. simpl. now rewrite Hx.
Qed.

Lemma trim_surrounded (ws1 path ws2 : str) :
  forallb Js.is_space ws1 = true -> forallb Js.is_space ws2 = true ->
  Js.trim (ws1 ++ path ++ ws2) = Js.trim path.
Proof.
  intros H1 H2. unfold Js.trim. rewrite drop_while_all by exact H1. f_equal.
  destruct (forallb Js.is_space path) eqn:Hpath.
  - rewrite (drop_while_nil _ path Hpath).
    rewrite (drop_while_nil _ (path ++ ws2))
      by (rewrite forallb_app, Hpath, H2; reflexivity).
    reflexivity.
  - rewrite drop_while_app_stop by exact Hpath. rewrite rev_app_distr.
    apply drop_while_all. now rewrite forallb_rev.
Qed.

(** X22: white space around a path does not count. Paths that differ
    only in white space at their ends have the same normal form, so the
    file handler reads them from the same cache entry: after a call for
    one of them, a call for the other answers the same and leaves the
    store as it is. *)
Theorem normalize_path_ignores_outer_space (ws1 path ws2 : str) (st : Store) :
  forallb Js.is_space ws1 = true ->
  forallb Js.is_space ws2 = true ->
  normalize_path (ws1 ++ path ++ ws2) = normalize_path path
  /\ forall contents st1,
       retrieveFileHandler path st = Ok contents st1 ->
       retrieveFileHandler (ws1 ++ path ++ ws2) st1 = Ok contents st1.
Proof.
  intros H1 H2.
  assert (Hsame : normalize_path (ws1 ++ path ++ ws2) = normalize_path path)
    by (unfold normalize_path; now rewrite trim_surrounded).
  split; [exact Hsame|].
  intros contents st1 Hrun. apply retrieveFileHandler_hit. rewrite Hsame.
  destruct (fileContentsCache st !! normalize_path path) as [cached|] eqn:Hc.
  - rewrite (retrieveFileHandler_hit _ _ _ Hc) in Hrun. now injection Hrun as <- <-.
  - destruct (retrieveFileHandler_miss _ _ Hc) as (events & Hmiss & _).
    rewrite Hmiss in Hrun. injection Hrun as <- <-. simpl. apply lookup_insert_eq.
Qed.

(** ** The frame [getErrorSource] reads *)

Lemma split_first_occurrence {A} (a : A) (u v u' v' : list A) :
  ~ In a u ->
  u ++ a :: v = u' ++ a :: v' ->
  (u' = u /\ v' = v) \/ exists t, u' = u ++ a :: t /\ v = t ++ a :: v'.
Proof.
  intros Hfree Heq. apply app_eq_app in Heq as (k & [[-> Hk]|[-> Hk]]).
  - destruct k as [|y k]; [rewrite app_nil_r; injection Hk as ->; auto|].
    injection Hk as <- _. exfalso. apply Hfree. apply in_or_app. right. now left.
  - destruct k as [|y k]; [rewrite app_nil_r; injection Hk as ->; auto|].
    injection Hk as <- ->. right. eauto.
Qed.

Lemma digits_no_close d :
  forallb Js.is_digit d = true -> ~ In ")"%char d.
Proof.
  induction d as [|x d IH]; simpl; [tauto|].
  intros [Hx Hd]%andb_true_iff [->|Hin]; [discriminate|now apply IH].
Qed.

Lemma digits_no_newline d :
  forallb Js.is_digit d = true -> ~ In newline d.
Proof. intros H. now apply dot_no_newline, digits_dot. Qed.

Lemma re_first_frame_at i s m :
  match_at Pat.re_first_frame i s = Some m ->
  exists fn src l c post,
    s = newline :: lit "   at " ++ fn ++ lit " (" ++ src ++ lit ":" ++ l
          ++ lit ":" ++ c ++ lit ")" ++ post
    /\ forallb (Pat.not_char "(") fn = true
    /\ forallb Js.is_dot src = true
    /\ forallb Js.is_digit l = true
    /\ forallb Js.is_digit c = true
    /\ capture m 1 = src /\ capture m 2 = l /\ capture m 3 = c.
Proof.
  intros H. apply match_at_sound in H as (i' & s' & c' & HM & ->).
  unfold Pat.re_first_frame in HM. unfold_pattern HM.
  match goal with
  | H1 : forallb Js.is_dot ?src = true,
    H2 : forallb (Pat.not_char "(") ?fn = true,
    H3 : forallb Js.is_digit ?l = true |- context [?l ++ ":"%char :: ?c ++ _] =>
      exists fn, src, l, c, s'
  end.
  repeat split; auto; solve_capture.
Qed.

Lemma re_first_frame_exec (header fn src l c rest : str) :
  ~ In newline header ->
  fn <> [] -> forallb (Pat.not_char "(") fn = true ->
  forallb Js.is_dot src = true -> ~ In ")"%char src ->
  l <> [] -> forallb Js.is_digit l = true ->
  c <> [] -> forallb Js.is_digit c = true ->
  rest = [] \/ (exists r, rest = newline :: r) ->
  exists m,
    exec Pat.re_first_frame
      (header ++ newline :: lit "   at " ++ fn ++ lit " (" ++ src ++ lit ":" ++ l
         ++ lit ":" ++ c ++ lit ")" ++ rest) = Some m
    /\ capture m 1 = src /\ capture m 2 = l /\ capture m 3 = c.
Proof.
  intros Hheader Hfn Hpar Hdot Hclose Hl Hld Hc Hcd Hrest.
  set (frame := newline :: lit "   at " ++ fn ++ lit " (" ++ src ++ lit ":" ++ l
                  ++ lit ":" ++ c ++ lit ")" ++ rest).
  assert (Hhere : is_Some (match_at Pat.re_first_frame (length header) frame)).
  { eapply match_at_complete. unfold Pat.re_first_frame, frame.
    cbn [Matches seq Str Lit Times lit list_ascii_of_string app].
    repeat (eexists || split); eauto. }
  destruct Hhere as [m0 Hm0].
  destruct (search_first Pat.re_first_frame (length header) (header ++ frame) 0 m0)
    as (j & m & Hj & Hsearch & Hm).
  { rewrite length_app. lia. }
  { now rewrite drop_app_length. }
  exists m. split; [exact Hsearch|]. simpl in Hm.
  apply re_first_frame_at in Hm
    as (fn' & src' & l' & c' & post & Heq & Hpar' & Hdot' & Hld' & Hcd' & Hg1 & Hg2 & Hg3).
  rewrite Hg1, Hg2, Hg3. clear Hg1 Hg2 Hg3.
  assert (Hj' : j = length header).
  { destruct (Nat.eq_dec j (length header)) as [|Hne]; [assumption|]. exfalso.
    rewrite drop_app_le in Heq by lia.
    destruct (drop j header) as [|x t] eqn:Hdrop.
    - apply (f_equal length) in Hdrop. rewrite length_drop in Hdrop. simpl in Hdrop. lia.
    - injection Heq as -> _. apply Hheader.
      rewrite <- (take_drop j header), Hdrop. apply in_or_app. right. now left. }
  subst j. rewrite drop_app_length in Heq. unfold frame in Heq.
  cbn [lit list_ascii_of_string app] in Heq. injection Heq as Heq.
  assert (Heq1 : (fn ++ [" "%char]) ++ "("%char
                   :: (src ++ ":"%char :: l ++ ":"%char :: c ++ ")"%char :: rest)
                 = (fn' ++ [" "%char]) ++ "("%char
                     :: (src' ++ ":"%char :: l' ++ ":"%char :: c' ++ ")"%char :: post)).
  { rewrite <- !app_assoc. exact Heq. }
  apply split_first_occurrence in Heq1 as [[_ Heq2]|(t & Hlong & _)]; cycle 1.
  { exfalso. apply (forallb_not_char_In "("%char (fn' ++ [" "%char])).
    - rewrite forallb_app, Hpar'. reflexivity.
    - rewrite Hlong. apply in_or_app. right. now left. }
  { intros Hin. apply in_app_or in Hin as [Hin|[Hin|[]]]; [|discriminate].
    now apply (forallb_not_char_In _ _ Hpar). }
  assert (Heq3 : (src ++ ":"%char :: l ++ ":"%char :: c) ++ ")"%char :: rest
                 = (src' ++ ":"%char :: l' ++ ":"%char :: c') ++ ")"%char :: post).
  { rewrite <- !app_assoc. cbn [app]. rewrite <- !app_assoc. cbn [app].
    symmetry. exact Heq2. }
  apply split_first_occurrence in Heq3 as [[Heq4 _]|(t & Hlong & Hrest')]; cycle 1.
  { exfalso. destruct Hrest as [->|(r & ->)]; [now destruct t|].
    destruct t as [|x t]; [discriminate|]. injection Hrest' as <- _.
    assert (Hin : In newline (src' ++ ":"%char :: l' ++ ":"%char :: c')).
    { rewrite Hlong. apply in_or_app. right. right. now left. }
    apply in_app_or in Hin as [Hin|[Hin|Hin]];
      [now apply (dot_no_newline _ Hdot')|discriminate|].
    apply in_app_or in Hin as [Hin|[Hin|Hin]];
      [now apply (digits_no_newline _ Hld')|discriminate
      |now apply (digits_no_newline _ Hcd')]. }
  { intros Hin. apply in_app_or in Hin as [Hin|[Hin|Hin]]; [now apply Hclose|discriminate|].
    apply in_app_or in Hin as [Hin|[Hin|Hin]];
      [now apply (digits_no_close _ Hld)|discriminate|now apply (digits_no_close _ Hcd)]. }
  assert (Heq5 : (src' ++ ":"%char :: l') ++ ":"%char :: c'
                 = (src ++ ":"%char :: l) ++ ":"%char :: c).
  { rewrite <- !app_assoc. exact Heq4. }
  apply (split_last_unique (Pat.not_char ":")) in Heq5 as [Heq6 ->];
    [| reflexivity | now apply digits_no_colon | now apply digits_no_colon].
  apply (split_last_unique (Pat.not_char ":")) in Heq6 as [-> ->];
    [| reflexivity | now apply digits_no_colon | now apply digits_no_colon].
  auto.
Qed.

(** X23: [getErrorSource] shows the line of the first frame. For a stack
    whose first line feed starts a frame, with a text for the frame's
    source in the cache, or else in a file that exists and can be read, a
    line number below 2^53 and a line of that number that is not empty, it
    returns the source and the line number, that line, and a caret under
    the column, when the column is below 2^32 and the whole text is no
    longer than the engine makes a string. From column 2^32 on it throws
    ([new Array] does), and it throws when the text would be too long. *)
Theorem getErrorSource_first_frame
    (stack header fnname src lineno colno rest contents code : str) (st : Store) :
  is_first_frame stack header fnname src lineno colno rest ->
  fileContentsCache st !! src = Some (Js.Text contents)
  \/ ((fileContentsCache st !! src = None
       \/ fileContentsCache st !! src = Some (Js.Text []))
      /\ fs_existsSync src = true /\ fs_readFileSync src = Returns contents) ->
  contents <> [] ->
  (1 <= Js.toNumber lineno < 2 ^ 53)%Z ->
  Js.split_lines contents !! (Z.to_nat (Js.toNumber lineno) - 1) = Some code ->
  code <> [] ->
  ((Js.toNumber colno < 2 ^ 32)%Z ->
   (Z.of_nat (length (snippet src lineno colno code)) <= max_string_length)%Z ->
   value_of (getErrorSource stack st) = Some (Some (snippet src lineno colno code)))
  /\ ((2 ^ 32 <= Js.toNumber colno)%Z
      \/ (max_string_length < Z.of_nat (length (snippet src lineno colno code)))%Z ->
      value_of (getErrorSource stack st) = None).
Proof.
  intros (-> & Hheader & Hfn & Hpar & Hdot & Hclose & Hl & Hld & Hc & Hcd & Hrest)
         Hfrom Hcontents Hline Hcode Hne.
  destruct (re_first_frame_exec header fnname src lineno colno rest
              Hheader Hfn Hpar Hdot Hclose Hl Hld Hc Hcd Hrest)
    as (m & Hexec & Hg1 & Hg2 & Hg3).
  unfold getErrorSource. cbn [app] in *. rewrite Hexec. cbv zeta.
  rewrite Hg1, Hg2, Hg3.
  assert (Hread : exists st1,
             errorSource_contents src st = Ok (Some (Js.Text contents)) st1).
  { unfold errorSource_contents. destruct contents as [|x xs]; [contradiction|].
    destruct Hfrom as [->|(Hcache & Hexists & Hfile)]; [eauto|].
    unfold bind, log. rewrite Hexists, Hfile.
    destruct Hcache as [->| ->]; eauto. }
  destruct Hread as (st1 & Hread). rewrite (bind_Ok _ _ _ _ _ Hread).
  destruct contents as [|x xs]; [contradiction|].
  assert (Hget : array_get (Js.split_lines (x :: xs)) (Js.toNumber lineno - 1)
                 = Some code).
  { unfold array_get. destruct (Z.ltb_spec (Js.toNumber lineno - 1) 0); [lia|].
    rewrite <- Hcode. f_equal. lia. }
  rewrite Hget. destruct code as [|d ds]; [contradiction|].
  assert (Hlong : (Z.of_nat (Z.to_nat (Js.toNumber colno) - 1)
                   <= Z.of_nat (length (snippet src lineno colno (d :: ds))))%Z).
  { unfold snippet. rewrite !length_app, length_replicate. lia. }
  unfold bind at 1, call at 1, caret_indent.
  split.
  - intros Hcol Hfits.
    destruct (Z.leb_spec (2 ^ 32) (Js.toNumber colno)); [lia|].
    destruct (Z.ltb_spec max_string_length (Js.toNumber colno - 1)); [lia|].
    unfold bind, call, build_string.
    match goal with
    | |- context [(max_string_length <? Z.of_nat (length ?t))%Z] =>
        change t with (snippet src lineno colno (d :: ds))
    end.
    destruct (Z.ltb_spec max_string_length
                (Z.of_nat (length (snippet src lineno colno (d :: ds))))); [lia|].
    reflexivity.
  - intros Hcol.
    destruct (Z.leb_spec (2 ^ 32) (Js.toNumber colno)); [reflexivity|].
    destruct (Z.ltb_spec max_string_length (Js.toNumber colno - 1)); [reflexivity|].
    destruct Hcol as [Hcol|Hcol]; [lia|].
    unfold bind, call, build_string.
    match goal with
    | |- context [(max_string_length <? Z.of_nat (length ?t))%Z] =>
        change t with (snippet src lineno colno (d :: ds))
    end.
    destruct (Z.ltb_spec max_string_length
                (Z.of_nat (length (snippet src lineno colno (d :: ds))))); [|lia].
    reflexivity.
Qed.

End ProgramFacts.

(* ================================================================== *)
(** * The program on the concrete hosts *)
(* ================================================================== *)

Module Runs.
Import Scenario.

(** C1, where the code departs from it: for a generated file whose only
    [sourceMappingURL] comment is a block comment, the scan returns
    [undefined], because the URL of a block comment is in group 2 and the
    function returns group 1 of the last match; so the file is taken to have
    no source map. The same file with a line comment yields the URL. *)
Theorem retrieveSourceMapURL_block_comment_undefined :
  value_of (@retrieveSourceMapURL block_host (lit "/app/b.js") empty_store)
  = Some None
  /\ value_of (@retrieveSourceMap block_host (lit "/app/b.js") empty_store)
     = Some None
  /\ value_of (@retrieveSourceMapURL line_host (lit "/app/b.js") empty_store)
     = Some (Some (lit "b.js.map")).
Proof. repeat split; vm_compute; reflexivity. Qed.

(** Of two line comments the scan returns the URL of the last. *)
Example retrieveSourceMapURL_last_match :
  value_of (@retrieveSourceMapURL twice_host (lit "/app/d.js") empty_store)
  = Some (Some (lit "last.map")).
Proof. vm_compute. reflexivity. Qed.

(** C2, where the code departs from it: on a stack whose frame lines are a
    user frame followed by two internal frames, the two internal frames
    are dropped, but the user frame that stays is not the frame
    [remapStackLine] returns for it ([/app/a.js:10:1]): the second loop
    starts on the index on which the first one stopped and remaps the
    remapped line again ([/app/a.ts:20:1]). *)
Theorem remapStack_remaps_boundary_frame_twice :
  map (fun frame => (stackLine frame, internal frame))
      (@scan chain_host (rev (frame_lines chain_stack)) initial_state empty_store)
  = [ (lit "   at h (internal/y.js:2:2)", true);
      (lit "   at g (internal/x.js:1:1)", true);
      (lit "   at f (/app/a.js:10:1)", false) ]
  /\ value_of (@remapStack chain_host (Some chain_stack) empty_store)
     = Some (Some (lines ["Error: boom"; "   at f (/app/a.ts:20:1)"])).
Proof. split; vm_compute; reflexivity. Qed.

(** C3 at work: on a host without files, the first call for [a.js] stores
    the negative entry, and a second call returns its argument and leaves
    the store as it is. *)
Lemma negative_entry_is_terminal_witness :
  sourceMapCache (store_of (@mapSourcePosition bare_host
                              (mkPosition (lit "a.js") 1 0) empty_store))
    !! lit "a.js" = Some negative_entry
  /\ @mapSourcePosition bare_host (mkPosition (lit "a.js") 7 3)
       (store_of (@mapSourcePosition bare_host (mkPosition (lit "a.js") 1 0) empty_store))
     = Ok (mkPosition (lit "a.js") 7 3)
          (store_of (@mapSourcePosition bare_host (mkPosition (lit "a.js") 1 0) empty_store)).
Proof.
  assert (Hfirst : @mapSourcePosition bare_host (mkPosition (lit "a.js") 1 0) empty_store
                   = Ok (mkPosition (lit "a.js") 1 0)
                        (mkStore (fileContentsCache
                                    (store_of (@retrieveSourceMap bare_host (lit "a.js")
                                                 empty_store)))
                                 (<[lit "a.js" := negative_entry]>
                                    (sourceMapCache
                                       (store_of (@retrieveSourceMap bare_host (lit "a.js")
                                                    empty_store))))
                                 (trace (store_of (@retrieveSourceMap bare_host (lit "a.js")
                                                     empty_store))))).
  { apply (proj1 (@negative_entry_is_terminal bare_host (lit "a.js") empty_store)
             (mkPosition (lit "a.js") 1 0)
             (store_of (@retrieveSourceMap bare_host (lit "a.js") empty_store)));
      [reflexivity|reflexivity|vm_compute; reflexivity]. }
  rewrite Hfirst. cbn [store_of sourceMapCache]. split.
  - apply lookup_insert_eq.
  - apply (proj1 (proj2 (@negative_entry_is_terminal bare_host (lit "a.js") _)));
      [reflexivity|apply lookup_insert_eq].
Defined.

(** C4 at work: a source without a source map, and a source whose map has
    no mapping for the position. *)
Lemma mapSourcePosition_unchanged_witness :
  (exists st1,
     @mapSourcePosition bare_host (mkPosition (lit "a.js") 3 4) empty_store
     = Ok (mkPosition (lit "a.js") 3 4) st1)
  /\ (exists st1,
       @mapSourcePosition silent_host (mkPosition (lit "/app/c.js") 3 4) empty_store
       = Ok (mkPosition (lit "/app/c.js") 3 4) st1).
Proof.
  split.
  - eexists.
    apply (@mapSourcePosition_unchanged bare_host (mkPosition (lit "a.js") 3 4)
             empty_store _ negative_entry);
      [vm_compute; reflexivity|left; reflexivity].
  - eexists.
    apply (@mapSourcePosition_unchanged silent_host (mkPosition (lit "/app/c.js") 3 4)
             empty_store _ (mkEntry (Some (lit "/app/c.js.map")) (Some silent_consumer)));
      [vm_compute; reflexivity|].
    right. exists silent_consumer, (mkMapped None 0 0). repeat split.
Defined.

(** C5 at work: a line that is no frame, a native frame, and an eval
    frame. *)
Lemma remapStackLine_passthrough_witness :
  (exists state',
     @remapStackLine bare_host (lit "Error: boom") initial_state empty_store
     = Ok (mkFrameInfo (lit "Error: boom") false, state') empty_store)
  /\ (exists state',
       @remapStackLine bare_host (lit "   at f (native code:0:0)") initial_state
         empty_store
       = Ok (mkFrameInfo (lit "   at f (native code:0:0)") false, state') empty_store)
  /\ (exists state',
       @remapStackLine bare_host (lit "   at eval code (a.js:1:2)") initial_state
         empty_store
       = Ok (mkFrameInfo (lit "   at eval code (a.js:1:2)") false, state') empty_store).
Proof.
  repeat split;
    apply (@remapStackLine_passthrough bare_host);
    apply parse_frame_None_special; vm_compute; reflexivity.
Defined.

(** The text of no member of [Object.prototype] has a [sourceMappingURL]
    comment. *)
Lemma inherited_member_no_url (member : str * Js.value) :
  In member Js.object_prototype ->
  (let fileData := match member.2 with
                   | Js.Text [] => lit "null"
                   | contents => Js.toString contents
                   end in
   match lastMatch_loop (S (length fileData)) fileData 0 None with
   | None => None
   | Some lastMatch => Regex.group lastMatch 1
   end) = None.
Proof.
  intros Hin. unfold Js.object_prototype in Hin. cbn [In] in Hin.
  repeat (destruct Hin as [<-|Hin]; [vm_compute; reflexivity|]). destruct Hin.
Qed.

(** In a fresh module a lookup in the file cache finds an inherited member
    or nothing. *)
Lemma empty_store_files (path : str) (found : Js.value) :
  fileContentsCache empty_store !! path = Some found ->
  In (path, found) Js.object_prototype.
Proof.
  unfold empty_store. cbn [fileContentsCache]. intros Hc.
  apply list_elem_of_In. now apply elem_of_list_to_map_2.
Qed.

Lemma empty_store_sourceMaps (src : str) (sourceMap : SourceMapConsumerMap) :
  sourceMapCache empty_store !! src = Some sourceMap ->
  sourceMap = negative_entry.
Proof.
  unfold empty_store. cbn [sourceMapCache]. intros Hc.
  apply elem_of_list_to_map_2 in Hc.
  apply list_elem_of_In, in_map_iff in Hc as (member & Heq & _).
  now injection Heq as _ <-.
Qed.

Lemma bare_host_unmapped (src : str) : @no_source_map bare_host empty_store src.
Proof.
  unfold no_source_map.
  destruct (sourceMapCache empty_store !! src) as [sourceMap|] eqn:Hc.
  - now rewrite (empty_store_sourceMaps _ _ Hc).
  - apply retrieveSourceMap_no_url. rewrite retrieveSourceMapURL_view. f_equal.
    unfold view.
    destruct (fileContentsCache empty_store !! normalize_path src) as [found|] eqn:Hf.
    + apply (inherited_member_no_url (normalize_path src, found)).
      now apply empty_store_files.
    + vm_compute. reflexivity.
Qed.

Lemma bare_host_unmapped_frames (stack : str) :
  Forall (@unmapped_frame bare_host empty_store) (frame_lines stack).
Proof.
  apply Forall_forall. intros stackLine _ fnname position _. apply bare_host_unmapped.
Qed.

(** C6 as stated fails: on a host without files no source has a source
    map, and yet [remapStack] drops a trailing internal frame, and prints
    a line number without its leading zero. *)
Lemma remapStack_unmapped_changes_text :
  Forall (@unmapped_frame bare_host empty_store) (frame_lines trimmed_stack)
  /\ value_of (@remapStack bare_host (Some trimmed_stack) empty_store)
     = Some (Some (lines ["Error: boom"; "   at f (a.js:1:1)"]))
  /\ lines ["Error: boom"; "   at f (a.js:1:1)"] <> trimmed_stack
  /\ Forall (@unmapped_frame bare_host empty_store) (frame_lines padded_stack)
  /\ value_of (@remapStack bare_host (Some padded_stack) empty_store)
     = Some (Some (lines ["Error: boom"; "   at f (a.js:1:1)"]))
  /\ lines ["Error: boom"; "   at f (a.js:1:1)"] <> padded_stack.
Proof.
  split; [apply bare_host_unmapped_frames|].
  split; [vm_compute; reflexivity|].
  split; [vm_compute; discriminate|].
  split; [apply bare_host_unmapped_frames|].
  split; [vm_compute; reflexivity|vm_compute; discriminate].
Qed.

Lemma frame_canonical (stackLine fnname : str) (position : Position) (l c : str) :
  parse_frame stackLine = Some (fnname, position) ->
  Js.numberToString (line position) = l ->
  Js.numberToString (column position + 1) = c ->
  (line position < 2 ^ 53)%Z ->
  (column position + 1 < 2 ^ 53)%Z ->
  is_frame stackLine fnname (source position) l c ->
  canonical_numbers stackLine.
Proof.
  intros Hparse Hl Hc Hlb Hcb Hframe fn file l' c' Hframe'.
  destruct (is_frame_unique _ _ _ _ _ _ _ _ _ Hframe Hframe') as (_ & _ & <- & <-).
  apply parse_frame_sound in Hparse as (l0 & c0 & Hframe0 & _ & Hline & Hcol).
  destruct (is_frame_unique _ _ _ _ _ _ _ _ _ Hframe Hframe0) as (_ & _ & <- & <-).
  rewrite <- Hline. rewrite Hl.
  replace (Js.toNumber c) with (column position + 1)%Z by lia. auto.
Qed.

Lemma canonical_numbers_exact (stackLine : str) :
  canonical_numbers stackLine -> exact_numbers stackLine.
Proof.
  intros Hcanon fnname file lineno colno Hframe.
  destruct (Hcanon _ _ _ _ Hframe) as (_ & _ & Hl & Hc). auto.
Qed.

Lemma plain_stack_canonical : Forall canonical_numbers (frame_lines plain_stack).
Proof.
  change (frame_lines plain_stack)
    with [lit "   at g (internal/a.js:1:1)"; lit "   at f (b.js:2:3)"].
  apply List.Forall_cons; [|apply List.Forall_cons; [|apply List.Forall_nil]].
  - apply (frame_canonical _ (lit "g") (mkPosition (lit "internal/a.js") 1 0)
             (lit "1") (lit "1"));
      [vm_compute; reflexivity|reflexivity|reflexivity|reflexivity|reflexivity|].
    unfold is_frame. repeat split; discriminate || reflexivity.
  - apply (frame_canonical _ (lit "f") (mkPosition (lit "b.js") 2 2) (lit "2") (lit "3"));
      [vm_compute; reflexivity|reflexivity|reflexivity|reflexivity|reflexivity|].
    unfold is_frame. repeat split; discriminate || reflexivity.
Qed.

Lemma trimmed_stack_canonical : Forall canonical_numbers (frame_lines trimmed_stack).
Proof.
  change (frame_lines trimmed_stack)
    with [lit "   at f (a.js:1:1)"; lit "   at g (internal/b.js:1:1)"].
  apply List.Forall_cons; [|apply List.Forall_cons; [|apply List.Forall_nil]].
  - apply (frame_canonical _ (lit "f") (mkPosition (lit "a.js") 1 0)
             (lit "1") (lit "1"));
      [vm_compute; reflexivity|reflexivity|reflexivity|reflexivity|reflexivity|].
    unfold is_frame. repeat split; discriminate || reflexivity.
  - apply (frame_canonical _ (lit "g") (mkPosition (lit "internal/b.js") 1 0)
             (lit "1") (lit "1"));
      [vm_compute; reflexivity|reflexivity|reflexivity|reflexivity|reflexivity|].
    unfold is_frame. repeat split; discriminate || reflexivity.
Qed.

(** C6 as amended at work: the stack with the trailing internal frame is
    remapped to a text that remapping leaves alone, and a stack without
    one, with canonical numbers, comes back unchanged. *)
Lemma remapStack_unmapped_idempotent_witness :
  (exists out st1 st2,
     @remapStack bare_host (Some trimmed_stack) empty_store = Ok (Some out) st1
     /\ out = Js.join newline (hd [] (Js.split newline trimmed_stack)
                                 :: remapped_unmapped (frame_lines trimmed_stack))
     /\ @remapStack bare_host (Some out) st1 = Ok (Some out) st2
     /\ (nothing_to_trim (frame_lines trimmed_stack) ->
         Forall canonical_numbers (frame_lines trimmed_stack) ->
         out = trimmed_stack))
  /\ (exists st1, @remapStack bare_host (Some plain_stack) empty_store
                  = Ok (Some plain_stack) st1).
Proof.
  split.
  - exact (@remapStack_unmapped_idempotent bare_host trimmed_stack empty_store
             (bare_host_unmapped_frames trimmed_stack)
             (Forall_impl _ _ _ trimmed_stack_canonical canonical_numbers_exact)).
  - destruct (@remapStack_unmapped_idempotent bare_host plain_stack empty_store
                (bare_host_unmapped_frames plain_stack)
                (Forall_impl _ _ _ plain_stack_canonical canonical_numbers_exact))
      as (out & st1 & st2 & Hrun & _ & _ & Hsame).
    exists st1. rewrite Hrun. f_equal. f_equal. apply Hsame.
    + right. exists (lit "   at f (b.js:2:3)"). split; vm_compute; reflexivity.
    + apply plain_stack_canonical.
Defined.

(** C7 at work: an origin of neither form. *)
Lemma mapEvalOrigin_terminates_witness :
  @mapEvalOrigin bare_host (lit "somewhere else") empty_store
  = Some (Ok (lit "somewhere else") empty_store).
Proof.
  apply (proj1 (proj2 (proj2 (@mapEvalOrigin_terminates bare_host
                                (lit "somewhere else") empty_store))));
    vm_compute; reflexivity.
Defined.

(** C8, where the code departs from it. [toString] is the name of a member
    that the cache object inherits from [Object.prototype]: in a fresh
    module nothing is cached under it, and the host has no such file. The
    claim has the handler cache and return the empty string; but [in]
    (line 74) finds the inherited member, so the handler returns the
    inherited function and caches nothing, and [retrieveFile] passes the
    function on as the file's contents. For a path of no such name the
    empty string is cached and returned. *)
Theorem retrieveFileHandler_returns_inherited_member :
  @fs_existsSync bare_host (lit "toString") = false
  /\ @retrieveFileHandler bare_host (lit "toString") empty_store
     = Ok (Js.Object (Js.native_function "toString")) empty_store
  /\ @retrieveFile bare_host (lit "toString") empty_store
     = Ok (Some (Js.Object (Js.native_function "toString"))) empty_store
  /\ value_of (@retrieveFileHandler bare_host (lit "gone.js") empty_store)
     = Some (Js.Text [])
  /\ fileContentsCache
       (store_of (@retrieveFileHandler bare_host (lit "gone.js") empty_store))
       !! lit "gone.js"
     = Some (Js.Text []).
Proof. repeat split; vm_compute; reflexivity. Qed.

(** The file handler at work: a [file:] URL of a file that does not exist,
    and a path that is cached. *)
Lemma retrieveFileHandler_never_throws_witness :
  (exists st',
     @retrieveFileHandler bare_host (lit " file:///tmp/x.js ") empty_store
     = Ok (Js.Text []) st'
     /\ fileContentsCache st'
        = <[lit "/tmp/x.js" := Js.Text []]> (fileContentsCache empty_store)
     /\ @retrieveFile bare_host (lit " file:///tmp/x.js ") empty_store = Ok None st')
  /\ @retrieveFileHandler bare_host (lit "a.js")
       (mkStore (<[lit "a.js" := Js.Text (lit "cached")]>
                   (fileContentsCache empty_store))
                (sourceMapCache empty_store) [])
     = Ok (Js.Text (lit "cached"))
          (mkStore (<[lit "a.js" := Js.Text (lit "cached")]>
                      (fileContentsCache empty_store))
                   (sourceMapCache empty_store) []).
Proof.
  split.
  - apply (proj1 (proj2 (proj2 (@retrieveFileHandler_never_throws bare_host
                                  (lit " file:///tmp/x.js ") empty_store))));
      [vm_compute; reflexivity|left; reflexivity].
  - apply (proj2 (proj2 (proj2 (@retrieveFileHandler_never_throws bare_host
                                  (lit "a.js") _)))).
    apply lookup_insert_eq.
Defined.

(** C9, where the code departs from it. The host has a file [toString] of
    one line, and the first frame of the stack is in its line 5: the
    contents of the source are available and have fewer lines than the
    frame says. The claim has [getErrorSource] return [null]; but the
    lookup of line 328 finds the function that the cache object inherits
    under that name, which is truthy, so the file is not read, and the
    function has no [split]: line 341 throws a [TypeError]. For a source
    of no such name the result is [null], also for the line after a final
    line feed. *)
Theorem getErrorSource_inherited_member_throws :
  @fs_existsSync inherited_host (lit "toString") = true
  /\ @fs_readFileSync inherited_host (lit "toString") = Returns (lines ["one();"])
  /\ @getErrorSource inherited_host inherited_stack empty_store = Throw empty_store
  /\ value_of (@getErrorSource short_host short_stack empty_store) = Some None
  /\ value_of (@getErrorSource ended_host ended_stack empty_store) = Some None.
Proof. repeat split; vm_compute; reflexivity. Qed.

(** Line 7 of a source of three lines, and line 3 of a source of two lines
    that ends in a line feed. *)
Lemma getErrorSource_line_beyond_contents_witness :
  (exists st1, @getErrorSource short_host short_stack empty_store = Ok None st1)
  /\ (exists st1, @getErrorSource ended_host ended_stack empty_store = Ok None st1).
Proof.
  split; eexists.
  - eapply (@getErrorSource_line_beyond_contents short_host short_stack empty_store);
      [vm_compute; reflexivity|vm_compute; reflexivity|vm_compute; reflexivity].
  - eapply (@getErrorSource_line_beyond_contents ended_host ended_stack empty_store);
      [vm_compute; reflexivity|vm_compute; reflexivity|vm_compute; reflexivity].
Defined.

(** A line of the source is shown when the frame names one. *)
Example getErrorSource_snippet :
  value_of (@getErrorSource short_host
              (lines ["Error: boom"; "   at f (/app/short.js:2:3)"]) empty_store)
  = Some (Some (lines ["/app/short.js:2"; "two();"; "  ^"])).
Proof. vm_compute. reflexivity. Qed.

(** ** The matcher on inputs that show its priorities *)

(** The function name is matched greedily, up to the last parenthesis that
    opens a source without one. *)
Example exec_re_frame_greedy :
  option_map groups (exec Pat.re_frame (lit "   at f (x) (dir (x)/a.ts:2:3)"))
  = Some [Some (lit "   at f (x) (dir (x)/a.ts:2:3)"); Some (lit "f (x) (dir");
          Some (lit "x)/a.ts:2:3")].
Proof. vm_compute. reflexivity. Qed.

(** The file name takes all but the last two numbers. *)
Example exec_re_source_greedy :
  option_map groups (exec Pat.re_source (lit "a:1:2:3:4"))
  = Some [Some (lit "a:1:2:3:4"); Some (lit "a:1:2"); Some (lit "3"); Some (lit "4")].
Proof. vm_compute. reflexivity. Qed.

(** With the [m] flag the comment ends at the end of its line; trailing
    blanks belong to the match, the line feed does not. *)
Example exec_re_sourceMappingURL_line :
  option_map (fun m => (index m, lastIndex m, groups m))
    (exec Pat.re_sourceMappingURL
       (lines ["var a;"; "//# sourceMappingURL=x.map  "; "next()"]))
  = Some (7, 35, [Some (lit "//# sourceMappingURL=x.map  "); Some (lit "x.map"); None]).
Proof. vm_compute. reflexivity. Qed.

(** The block comment fills group 2 and leaves group 1 undefined. *)
Example exec_re_sourceMappingURL_block :
  option_map groups (exec Pat.re_sourceMappingURL (lit "/*# sourceMappingURL=x.map */"))
  = Some [Some (lit "/*# sourceMappingURL=x.map */"); None; Some (lit "x.map")].
Proof. vm_compute. reflexivity. Qed.

(** The scheme of a [file:] URL is cut off, and with it the drive letter
    when there is one: the replaced match includes group 1. *)
Example normalize_path_file_urls :
  @normalize_path (lit " file:///C:/dir/file ") = lit "/dir/file"
  /\ @normalize_path (lit "file:///root-dir/file") = lit "/root-dir/file"
  /\ @normalize_path (lit "plain/file") = lit "plain/file".
Proof. repeat split; vm_compute; reflexivity. Qed.

(** A CR LF pair, a CR and a LF each end a line. *)
Example split_lines_terminators :
  Js.split_lines [ "a"; ascii_of_nat 13; ascii_of_nat 10; "b"; ascii_of_nat 13;
                   "c"; ascii_of_nat 10; "d" ]%char
  = [lit "a"; lit "b"; lit "c"; lit "d"].
Proof. reflexivity. Qed.

(** C10 at work: two internal frames. *)
Lemma remapStack_all_internal_witness :
  exists st', @remapStack bare_host (Some internal_stack) empty_store
              = Ok (Some internal_stack) st'.
Proof.
  apply (@remapStack_all_internal bare_host internal_stack empty_store);
    [vm_compute; discriminate|vm_compute; reflexivity].
Defined.

(** ** The further properties at work *)

(** X2 at work: a file is read once, and found in the cache under its
    [file:] URL as well. *)
Lemma retrieveFileHandler_answers_from_cache_witness :
  fileContentsCache
    (store_of (@retrieveFileHandler short_host (lit "/app/short.js") empty_store))
    !! @normalize_path (lit "/app/short.js")
  = Some (Js.Text (lines ["one();"; "two();"; "three();"]))
  /\ @retrieveFileHandler short_host (lit " file:///app/short.js ")
       (store_of (@retrieveFileHandler short_host (lit "/app/short.js") empty_store))
     = Ok (Js.Text (lines ["one();"; "two();"; "three();"]))
          (store_of (@retrieveFileHandler short_host (lit "/app/short.js") empty_store)).
Proof.
  apply (@retrieveFileHandler_answers_from_cache short_host
           (lit "/app/short.js") (lit " file:///app/short.js ") empty_store);
    vm_compute; reflexivity.
Defined.

(** X4 at work: a file that does not exist. *)
Lemma unreadable_source_has_no_map_witness :
  value_of (@retrieveSourceMapURL bare_host (lit "gone.js") empty_store) = Some None
  /\ value_of (@retrieveSourceMap bare_host (lit "gone.js") empty_store) = Some None
  /\ (forall l c,
        exists st',
          @mapSourcePosition bare_host (mkPosition (lit "gone.js") l c) empty_store
          = Ok (mkPosition (lit "gone.js") l c) st'
          /\ sourceMapCache st' !! lit "gone.js" = Some negative_entry).
Proof.
  destruct (@unreadable_source_has_no_map bare_host (lit "gone.js") empty_store)
    as (Hurl & Hmap & Hentry); [vm_compute; reflexivity|].
  split; [exact Hurl|]. split; [exact Hmap|].
  apply Hentry. vm_compute. reflexivity.
Defined.

(** At the name of an inherited member the lookups find the member: the
    scan for the [sourceMappingURL] comment reads the text of the inherited
    function and not the file of that name, and [mapSourcePosition] takes
    the member for a cache entry without a map, so it retrieves nothing and
    stores nothing. *)
Example inherited_member_lookups :
  @fs_readFileSync commented_host (lit "toString")
  = Returns (lines ["generated()"; "//# sourceMappingURL=b.js.map"])
  /\ @retrieveSourceMapURL commented_host (lit "toString") empty_store
     = Ok None empty_store
  /\ @mapSourcePosition commented_host (mkPosition (lit "constructor") 1 0) empty_store
     = Ok (mkPosition (lit "constructor") 1 0) empty_store.
Proof. repeat split; vm_compute; reflexivity. Qed.

(** X7 at work: a frame of a file with a source map. *)
Lemma remapStackLine_frame_witness :
  match @mapSourcePosition line_host
          (mkPosition (lit "/app/b.js") (Js.toNumber (lit "3")) (Js.toNumber (lit "7") - 1))
          empty_store with
  | Ok mapped st' =>
      @remapStackLine line_host (lit "   at f (/app/b.js:3:7)") initial_state empty_store
      = Ok (mkFrameInfo
              (lit "   at " ++ lit "f" ++ lit " (" ++ source mapped ++ lit ":"
                 ++ Js.numberToString (line mapped) ++ lit ":"
                 ++ Js.numberToString (column mapped + 1) ++ lit ")")
              (Js.startsWith (source mapped) (lit "internal/")),
            mkStackState (nextPosition initial_state) (Some mapped)) st'
  | Throw st' =>
      @remapStackLine line_host (lit "   at f (/app/b.js:3:7)") initial_state empty_store
      = Throw st'
  end.
Proof.
  apply (@remapStackLine_frame line_host (lit "   at f (/app/b.js:3:7)")
           (lit "f") (lit "/app/b.js") (lit "3") (lit "7") initial_state empty_store).
  - repeat split; (reflexivity || discriminate).
  - intros [H|[H _]]; discriminate.
  - vm_compute. reflexivity.
  - vm_compute. reflexivity.
Defined.


(** X9 at work: a map in a data URL. *)
Lemma retrieveSourceMap_data_url_witness :
  value_of (@retrieveSourceMap inline_host (lit "/app/e.js") empty_store)
  = Some (match @Buffer_from_base64_toString inline_host (lit "TUFQ") with
          | [] => None
          | c :: cs => Some (mkUrlAndMap (Some (lit "/app/e.js")) (Js.Text (c :: cs)))
          end).
Proof.
  apply (@retrieveSourceMap_data_url inline_host (lit "/app/e.js") (lit ";") (lit "TUFQ")
           empty_store);
    [vm_compute; reflexivity|discriminate|reflexivity].
Defined.

(** X10 at work: a map in a file beside the source. *)
Lemma retrieveSourceMap_relative_url_witness :
  value_of (@retrieveSourceMap line_host (lit "/app/b.js") empty_store)
  = Some (match @view line_host empty_store
                  (@normalize_path
                     (@supportRelativeURL line_host (Some (lit "/app/b.js"))
                        (lit "b.js.map"))) with
          | Js.Text [] => None
          | contents =>
              Some (mkUrlAndMap
                      (Some (@supportRelativeURL line_host (Some (lit "/app/b.js"))
                               (lit "b.js.map")))
                      contents)
          end).
Proof.
  apply (@retrieveSourceMap_relative_url line_host (lit "/app/b.js") (lit "b.js.map")
           empty_store);
    [vm_compute; reflexivity|discriminate|vm_compute; reflexivity].
Defined.

(** X11 at work: the map of [/app/b.js] is decoded at the first call. *)
Lemma mapSourcePosition_decodes_once_witness :
  exists st2,
    let answer :=
      match mapped_source (mkMapped (Some (lit "b.ts")) 1 0) with
      | Some s =>
          mkPosition
            (@supportRelativeURL line_host
               (um_url (mkUrlAndMap (Some (lit "/app/b.js.map")) (Js.Text (lit "MAP-OF-B")))) s)
            (mapped_line (mkMapped (Some (lit "b.ts")) 1 0))
            (mapped_column (mkMapped (Some (lit "b.ts")) 1 0))
      | None => mkPosition (lit "/app/b.js") 3 6
      end in
    @mapSourcePosition line_host (mkPosition (lit "/app/b.js") 3 6) empty_store
    = Ok answer st2
    /\ sourceMapCache st2 !! source (mkPosition (lit "/app/b.js") 3 6)
       = Some (mkEntry
                 (um_url (mkUrlAndMap (Some (lit "/app/b.js.map")) (Js.Text (lit "MAP-OF-B"))))
                 (Some (consumer_to (mkPosition (lit "b.ts") 1 0))))
    /\ trace st2
       = trace (store_of (@retrieveSourceMap line_host (lit "/app/b.js") empty_store))
    /\ @mapSourcePosition line_host (mkPosition (lit "/app/b.js") 3 6) st2
       = Ok answer st2.
Proof.
  apply (@mapSourcePosition_decodes_once line_host (mkPosition (lit "/app/b.js") 3 6)
           empty_store
           (store_of (@retrieveSourceMap line_host (lit "/app/b.js") empty_store))
           (mkUrlAndMap (Some (lit "/app/b.js.map")) (Js.Text (lit "MAP-OF-B")))
           (consumer_to (mkPosition (lit "b.ts") 1 0))
           (mkMapped (Some (lit "b.ts")) 1 0)).
  - vm_compute. reflexivity.
  - vm_compute. reflexivity.
  - reflexivity.
  - apply List.Forall_cons; [discriminate|apply List.Forall_nil].
  - reflexivity.
Defined.

(** X12 at work: a map that the decoder rejects, and a decoded map whose
    position query throws. *)
Lemma mapSourcePosition_throws_witness :
  (@mapSourcePosition broken_host (mkPosition (lit "/app/b.js") 3 6) empty_store
   = Throw (store_of (@retrieveSourceMap broken_host (lit "/app/b.js") empty_store))
   /\ sourceMapCache (store_of (@retrieveSourceMap broken_host (lit "/app/b.js")
                                  empty_store))
        !! source (mkPosition (lit "/app/b.js") 3 6) = None)
  /\ exists st2,
       @mapSourcePosition failing_host (mkPosition (lit "/app/b.js") 3 6) empty_store
       = Throw st2
       /\ sourceMapCache st2 !! source (mkPosition (lit "/app/b.js") 3 6)
          = Some (mkEntry
                    (um_url (mkUrlAndMap (Some (lit "/app/b.js.map")) (Js.Text (lit "MAP-OF-B"))))
                    (Some failing_consumer)).
Proof.
  split.
  - apply (proj1 (@mapSourcePosition_throws broken_host
                    (mkPosition (lit "/app/b.js") 3 6) empty_store
                    (store_of (@retrieveSourceMap broken_host (lit "/app/b.js")
                                 empty_store))
                    (mkUrlAndMap (Some (lit "/app/b.js.map")) (Js.Text (lit "MAP-OF-B")))
                    ltac:(vm_compute; reflexivity)
                    ltac:(vm_compute; reflexivity))).
    reflexivity.
  - apply (proj2 (@mapSourcePosition_throws failing_host
                    (mkPosition (lit "/app/b.js") 3 6) empty_store
                    (store_of (@retrieveSourceMap failing_host (lit "/app/b.js")
                                 empty_store))
                    (mkUrlAndMap (Some (lit "/app/b.js.map")) (Js.Text (lit "MAP-OF-B")))
                    ltac:(vm_compute; reflexivity)
                    ltac:(vm_compute; reflexivity))
             failing_consumer).
    + reflexivity.
    + right. reflexivity.
Defined.

(** X13 at work: of the two sources of the map, [e.ts] is carried inline. *)
Lemma cache_inline_sources_prewarms_witness :
  exists st',
    @cache_inline_sources inline_host
      (mkEntry (Some (lit "/app/e.js")) (Some inline_consumer)) inline_consumer
      [lit "e.ts"; lit "lib.ts"] empty_store = Ok tt st'
    /\ (forall s c cs,
          In s [lit "e.ts"; lit "lib.ts"] ->
          sourceContentFor inline_consumer s = Returns (Some (c :: cs)) ->
          @supportRelativeURL inline_host
            (cm_url (mkEntry (Some (lit "/app/e.js")) (Some inline_consumer))) s
          <> lit "__proto__" ->
          fileContentsCache st'
            !! @supportRelativeURL inline_host
                 (cm_url (mkEntry (Some (lit "/app/e.js")) (Some inline_consumer))) s
          = Some (Js.Text (c :: cs))
          /\ @errorSource_contents inline_host
               (@supportRelativeURL inline_host
                  (cm_url (mkEntry (Some (lit "/app/e.js")) (Some inline_consumer))) s)
               st'
             = Ok (Some (Js.Text (c :: cs))) st')
    /\ (forall path,
          ~ In path
              (map (@supportRelativeURL inline_host
                      (cm_url (mkEntry (Some (lit "/app/e.js")) (Some inline_consumer))))
                   [lit "e.ts"; lit "lib.ts"]) ->
          fileContentsCache st' !! path = fileContentsCache empty_store !! path).
Proof.
  apply (@cache_inline_sources_prewarms inline_host
           (mkEntry (Some (lit "/app/e.js")) (Some inline_consumer)) inline_consumer
           [lit "e.ts"; lit "lib.ts"] empty_store).
  - apply List.Forall_cons; [intros H; vm_compute in H; discriminate|].
    apply List.Forall_cons; [intros H; vm_compute in H; discriminate|].
    apply List.Forall_nil.
  - vm_compute. apply List.NoDup_cons; [intros [H|[]]; discriminate|].
    apply List.NoDup_cons; [intros []|apply List.NoDup_nil].
Defined.

(** The one URL for which the inline contents are not stored: the
    assignment of line 179 to [__proto__] goes to the inherited setter,
    which ignores a string, and a lookup keeps finding [Object.prototype]. *)
Example cache_inline_sources_proto :
  @cache_inline_sources bare_host (mkEntry None (Some proto_consumer)) proto_consumer
    (sources proto_consumer) empty_store
  = Ok tt empty_store
  /\ fileContentsCache empty_store !! lit "__proto__"
     = Some (Js.Object (lit "[object Object]")).
Proof. split; vm_compute; reflexivity. Qed.

(** X15 at work: line 2 of a source of three lines. *)
Lemma getErrorSource_sound_witness :
  exists pre fnname src lineno colno post contents code,
    snippet_stack
    = pre ++ [newline] ++ lit "   at " ++ fnname ++ lit " (" ++ src
        ++ lit ":" ++ lineno ++ lit ":" ++ colno ++ lit ")" ++ post
    /\ forallb Js.is_digit lineno = true
    /\ forallb Js.is_digit colno = true
    /\ (fileContentsCache empty_store !! src = Some (Js.Text contents)
        \/ (@fs_existsSync short_host src = true
            /\ @fs_readFileSync short_host src = Returns contents))
    /\ (1 <= Js.toNumber lineno)%Z
    /\ Js.split_lines contents !! (Z.to_nat (Js.toNumber lineno) - 1) = Some code
    /\ code <> []
    /\ lines ["/app/short.js:2"; "two();"; "  ^"]
       = src ++ lit ":" ++ Js.numberToString (Js.toNumber lineno) ++ [newline]
           ++ code ++ [newline]
           ++ replicate (Z.to_nat (Js.toNumber colno) - 1) " "%char ++ lit "^".
Proof.
  apply (@getErrorSource_sound short_host snippet_stack
           (lines ["/app/short.js:2"; "two();"; "  ^"]) empty_store
           (store_of (@getErrorSource short_host snippet_stack empty_store))).
  vm_compute. reflexivity.
Defined.

(** X16 at work: a file on a web server, and a file on a drive. *)
Lemma supportRelativeURL_keeps_protocol_witness :
  @supportRelativeURL bare_host (Some (lit "http://example.com/js/app.js"))
    (lit "app.js.map")
  = lit "http" ++ lit "://" ++ lit "example.com"
      ++ @path_resolve bare_host (lit "/js") (lit "app.js.map")
  /\ @supportRelativeURL bare_host (Some (lit "file:///C:/dir/app.js"))
       (lit "app.js.map")
     = lit "file" ++ lit "://" ++ [] ++ lit "/"
         ++ Js.backslashes_to_slashes
              (@path_resolve bare_host ("C"%char :: ":"%char :: lit "/dir")
                 (lit "app.js.map")).
Proof.
  split.
  - apply (proj2 (proj1 (@supportRelativeURL_keeps_protocol bare_host
                           (lit "http://example.com/js/app.js") (lit "app.js.map")
                           ltac:(discriminate))
                    (lit "http") (lit "example.com") (lit "/js")
                    ltac:(vm_compute; reflexivity) ltac:(discriminate)
                    eq_refl eq_refl (or_intror (ex_intro _ (lit "js") eq_refl)))).
    intros d t H. discriminate H.
  - apply (proj1 (proj1 (@supportRelativeURL_keeps_protocol bare_host
                           (lit "file:///C:/dir/app.js") (lit "app.js.map")
                           ltac:(discriminate))
                    (lit "file") [] (lit "/C:/dir")
                    ltac:(vm_compute; reflexivity) ltac:(discriminate)
                    eq_refl eq_refl (or_intror (ex_intro _ (lit "C:/dir") eq_refl)))
             "C"%char (lit "/dir") eq_refl eq_refl).
Defined.

(** X17 at work: a URL with a drive letter and one without. *)
Lemma normalize_path_strips_scheme_witness :
  @normalize_path (lit " file:///C:/dir/file ") = lit "/dir/file"
  /\ @normalize_path (lit "file:///root-dir/file") = "/"%char :: lit "root-dir/file"
  /\ @normalize_path (lit " plain/file ") = Js.trim (lit " plain/file ").
Proof.
  split; [|split].
  - apply (proj1 (proj2 (normalize_path_strips_scheme (lit " file:///C:/dir/file ")))
             "C"%char (lit "/dir/file")); reflexivity.
  - apply (proj2 (proj2 (normalize_path_strips_scheme (lit "file:///root-dir/file")))
             (lit "root-dir/file")); [reflexivity|].
    intros d t H. discriminate H.
  - apply (proj1 (normalize_path_strips_scheme (lit " plain/file "))). reflexivity.
Defined.

(** X18 at work: the comment on the last line of [/app/b.js]. *)
Lemma retrieveSourceMapURL_trailing_comment_witness :
  value_of (@retrieveSourceMapURL line_host (lit "/app/b.js") empty_store)
  = Some (Some (lit "b.js.map")).
Proof.
  apply (@retrieveSourceMapURL_trailing_comment line_host (lit "/app/b.js")
           (lit "generated()" ++ [newline]) (lit " ") (lit "b.js.map") [] "#"%char
           empty_store).
  - vm_compute. reflexivity.
  - right. exists (lit "generated()"). reflexivity.
  - reflexivity.
  - reflexivity.
  - discriminate.
  - reflexivity.
  - reflexivity.
Defined.

(** X21 at work: the decoder rejects the map of [/app/b.js], so
    [mapSourcePosition] throws for a position in that file, and [remapStack]
    throws on a stack with a frame in it. *)
Lemma exceptions_come_from_the_decoder_witness :
  ((exists sourceMap consumer,
      sourceMapCache empty_store !! source (mkPosition (lit "/app/b.js") 3 6)
      = Some sourceMap
      /\ cm_map sourceMap = Some consumer
      /\ originalPositionFor consumer (mkPosition (lit "/app/b.js") 3 6) = Throws)
   \/ (exists urlAndMap st1,
         sourceMapCache empty_store !! source (mkPosition (lit "/app/b.js") 3 6) = None
         /\ @retrieveSourceMap broken_host (source (mkPosition (lit "/app/b.js") 3 6))
              empty_store
            = Ok (Some urlAndMap) st1
         /\ (@SourceMapConsumer_new broken_host (um_map urlAndMap) = Throws
             \/ exists consumer,
                  @SourceMapConsumer_new broken_host (um_map urlAndMap)
                  = Returns consumer
                  /\ (Exists (fun s => sourceContentFor consumer s = Throws)
                             (sources consumer)
                      \/ originalPositionFor consumer (mkPosition (lit "/app/b.js") 3 6)
                         = Throws))))
  /\ (exists stackLine state st0,
        @remapStackLine broken_host stackLine state st0
        = Throw (store_of (@remapStack broken_host (Some mapped_stack) empty_store))).
Proof.
  split.
  - apply (proj1 (@exceptions_come_from_the_decoder broken_host empty_store
                    (store_of (@mapSourcePosition broken_host
                                 (mkPosition (lit "/app/b.js") 3 6) empty_store)))
             (mkPosition (lit "/app/b.js") 3 6)).
    vm_compute. reflexivity.
  - apply (proj2 (proj2 (@exceptions_come_from_the_decoder broken_host empty_store
                           (store_of (@remapStack broken_host (Some mapped_stack)
                                        empty_store))))
             (Some mapped_stack)).
    vm_compute. reflexivity.
Defined.

(** X22 at work: a path with white space around it. *)
Lemma normalize_path_ignores_outer_space_witness :
  @normalize_path (lit "  " ++ lit "/app/short.js" ++ lit " ")
  = @normalize_path (lit "/app/short.js")
  /\ forall contents st1,
       @retrieveFileHandler short_host (lit "/app/short.js") empty_store
       = Ok contents st1 ->
       @retrieveFileHandler short_host (lit "  " ++ lit "/app/short.js" ++ lit " ") st1
       = Ok contents st1.
Proof.
  apply (@normalize_path_ignores_outer_space short_host (lit "  ")
           (lit "/app/short.js") (lit " ") empty_store); reflexivity.
Defined.

Lemma snippet_stack_first_frame (colno : str) :
  colno <> [] -> forallb Js.is_digit colno = true ->
  is_first_frame
    (lit "Error: boom" ++ [newline] ++ lit "   at " ++ lit "f" ++ lit " ("
       ++ lit "/app/short.js" ++ lit ":" ++ lit "2" ++ lit ":" ++ colno ++ lit ")" ++ [])
    (lit "Error: boom") (lit "f") (lit "/app/short.js") (lit "2") colno [].
Proof.
  intros Hne Hdigits. unfold is_first_frame.
  split; [reflexivity|].
  split; [apply (forallb_not_char_In newline); reflexivity|].
  split; [discriminate|]. split; [reflexivity|]. split; [reflexivity|].
  split; [apply (forallb_not_char_In ")"%char); reflexivity|].
  split; [discriminate|]. split; [reflexivity|].
  split; [exact Hne|]. split; [exact Hdigits|]. now left.
Qed.

(** X23 at work: line 2 of a source of three lines, read from the disk,
    with the caret in column 3; and in column 600000000, where the text
    would be longer than a string of the host can be. *)
Lemma getErrorSource_first_frame_witness :
  value_of (@getErrorSource short_host snippet_stack empty_store)
  = Some (Some (snippet (lit "/app/short.js") (lit "2") (lit "3") (lit "two();")))
  /\ value_of (@getErrorSource short_host wide_stack empty_store) = None.
Proof.
  split.
  - destruct (@getErrorSource_first_frame short_host snippet_stack (lit "Error: boom")
                (lit "f") (lit "/app/short.js") (lit "2") (lit "3") []
                (lines ["one();"; "two();"; "three();"]) (lit "two();") empty_store)
      as [Hshown _].
    + apply (snippet_stack_first_frame (lit "3")); [discriminate|reflexivity].
    + right. split; [left; vm_compute; reflexivity|]. split; reflexivity.
    + discriminate.
    + vm_compute. split; [discriminate|reflexivity].
    + vm_compute. reflexivity.
    + discriminate.
    + apply Hshown; [vm_compute; reflexivity|vm_compute; discriminate].
  - destruct (@getErrorSource_first_frame short_host wide_stack (lit "Error: boom")
                (lit "f") (lit "/app/short.js") (lit "2") (lit "600000000") []
                (lines ["one();"; "two();"; "three();"]) (lit "two();") empty_store)
      as [_ Hthrown].
    + apply (snippet_stack_first_frame (lit "600000000")); [discriminate|reflexivity].
    + right. split; [left; vm_compute; reflexivity|]. split; reflexivity.
    + discriminate.
    + vm_compute. split; [discriminate|reflexivity].
    + vm_compute. reflexivity.
    + discriminate.
    + apply Hthrown. right. unfold snippet. rewrite !length_app, length_replicate.
      replace (Js.toNumber (lit "600000000")) with 600000000%Z
        by (vm_compute; reflexivity).
      change (@max_string_length short_host) with (2 ^ 29 - 24)%Z. lia.
Defined.

End Runs.
